(** * Financial Portal: the billable-event ledger

    A shallow embedding of the TypeScript core of the portal
    (models/BillableEvent, models/InvoiceLink, models/ClientPolicy,
    services/IdempotencyService, services/PolicyService,
    services/BillableEventService, services/InvoiceService,
    services/ReconciliationService, storage/JsonFileStorage and
    utils/validators),
    followed by the properties of the ledger that hold of it.

    Conventions of the embedding:
    - a JS string is a [string] of 8-bit characters; [toUpperCase] maps
      the ASCII letters and leaves every other character alone;
    - a JS [number] holding money is an exact rational [Q] in the
      ledger; the fee calculation, whose outcome depends on how doubles
      round, is given again over IEEE 754 binary64 in the module
      [Binary64];
    - an async method is a function on the in-memory [StorageData],
      returning the outcome together with the store it leaves behind;
      a thrown error is the [Err] outcome;
    - [new Date()] and [crypto.randomUUID()] are read from a [Host]
      record handed to each call;
    - writing the JSON files succeeds, and the loggers do nothing that
      a caller can observe;
    - [date-fns], the JS [Date] parser and zod's e-mail check are
      parameters, gathered in the class [External]; [hostExternal]
      gives the first two for a host in a given time zone. *)

From Stdlib Require Import Bool Arith ZArith QArith Qround Qminmax Lia Lqa.
From Stdlib Require Import List Ascii String SpecFloat.
Import ListNotations.

Local Open Scope list_scope.
Local Open Scope string_scope.

(* ================================================================== *)
(** ** Strings *)

Definition isUpper (c : ascii) : bool :=
  (65 <=? nat_of_ascii c)%nat && (nat_of_ascii c <=? 90)%nat.

Definition isLower (c : ascii) : bool :=
  (97 <=? nat_of_ascii c)%nat && (nat_of_ascii c <=? 122)%nat.

(** [\d] *)
Definition isDigit (c : ascii) : bool :=
  (48 <=? nat_of_ascii c)%nat && (nat_of_ascii c <=? 57)%nat.

(** [[A-Z0-9]] *)
Definition isUpperAlnum (c : ascii) : bool := isUpper c || isDigit c.

(** [[A-Za-z0-9_-]] *)
Definition isKeyChar (c : ascii) : bool :=
  isUpper c || isLower c || isDigit c || Ascii.eqb c "_" || Ascii.eqb c "-".

(** [[A-Z_]] *)
Definition isUpperUnderscore (c : ascii) : bool :=
  isUpper c || Ascii.eqb c "_".

Definition upperChar (c : ascii) : ascii :=
  if isLower c then ascii_of_nat (nat_of_ascii c - 32) else c.

Fixpoint toUpperCase (s : string) : string :=
  match s with
  | EmptyString => EmptyString
  | String c s' => String (upperChar c) (toUpperCase s')
  end.

(** [s.replace(/[^cls]/g, '')]: the characters of [s] that are in the
    class, in order. *)
Fixpoint keepChars (cls : ascii -> bool) (s : string) : string :=
  match s with
  | EmptyString => EmptyString
  | String c s' =>
      if cls c then String c (keepChars cls s') else keepChars cls s'
  end.

Fixpoint allChars (cls : ascii -> bool) (s : string) : bool :=
  match s with
  | EmptyString => true
  | String c s' => cls c && allChars cls s'
  end.

Definition nonEmpty (s : string) : bool :=
  match s with EmptyString => false | String _ _ => true end.

(** [s.slice(a, b)] for [0 <= a <= b]. *)
Definition slice (a b : nat) (s : string) : string := substring a (b - a) s.

(* ================================================================== *)
(** ** Anchored regular patterns

    The two regular expressions of the key codec are sequences of
    literal characters, captured greedy [( [cls]+ )] groups and one
    captured [( [cls]{n} )] group, anchored by [^] and [$].  The
    matcher below is the backtracking one of the JS engine: a greedy
    group first takes the longest run and gives characters back one at
    a time until the rest of the pattern matches. *)

Inductive Piece : Type :=
| PLit (c : ascii)
| PPlus (cls : ascii -> bool)
| PTimes (n : nat) (cls : ascii -> bool).

Fixpoint exactly (n : nat) (cls : ascii -> bool) (s : string)
  : option (string * string) :=
  match n with
  | O => Some (EmptyString, s)
  | S n' =>
      match s with
      | EmptyString => None
      | String c s' =>
          if cls c then
            match exactly n' cls s' with
            | Some (m, r) => Some (String c m, r)
            | None => None
            end
          else None
      end
  end.

(** [acc] is what the group has taken so far; [k] matches the rest of
    the pattern and returns the later captures. *)
Definition stopHere (k : string -> option (list string)) (acc s : string)
  : option (list string) :=
  if nonEmpty acc then option_map (cons acc) (k s) else None.

Fixpoint greedyPlus (cls : ascii -> bool) (k : string -> option (list string))
  (acc s : string) : option (list string) :=
  match s with
  | EmptyString => stopHere k acc s
  | String c s' =>
      if cls c then
        match greedyPlus cls k (acc ++ String c EmptyString) s' with
        | Some r => Some r
        | None => stopHere k acc s
        end
      else stopHere k acc s
  end.

Fixpoint matchPieces (ps : list Piece) {struct ps}
  : string -> option (list string) :=
  match ps with
  | [] => fun s => if nonEmpty s then None else Some []
  | PLit c :: ps' =>
      fun s =>
        match s with
        | EmptyString => None
        | String c' s' => if Ascii.eqb c' c then matchPieces ps' s' else None
        end
  | PPlus cls :: ps' =>
      fun s => greedyPlus cls (matchPieces ps') EmptyString s
  | PTimes n cls :: ps' =>
      fun s =>
        match exactly n cls s with
        | Some (m, r) => option_map (cons m) (matchPieces ps' r)
        | None => None
        end
  end.

(** [/^([A-Z0-9]+)-([A-Za-z0-9_-]+)-(\d{8})-([A-Z_]+)$/] *)
Definition keyPattern : list Piece :=
  [ PPlus isUpperAlnum; PLit "-"; PPlus isKeyChar; PLit "-";
    PTimes 8 isDigit; PLit "-"; PPlus isUpperUnderscore ].

(* ================================================================== *)
(** ** Errors and outcomes (utils/errors) *)

Inductive AppError : Type :=
| ValidationError (message : string) (fields : list (string * string))
| NotFoundError (resource identifier : string)
| DuplicateError (idempotencyKey : string)
| RangeError (message : string)   (* date-fns [format] on an Invalid Date *)
| ZodError (path : string)        (* a zod schema rejecting a value *)
| PlainError (message : string).  (* [new Error(...)] of the storage layer *)

Inductive Result (A : Type) : Type :=
| Ok (a : A)
| Err (e : AppError).
Arguments Ok {A} a.
Arguments Err {A} e.

Definition isOk {A : Type} (r : Result A) : bool :=
  match r with Ok _ => true | Err _ => false end.

(** The [code] an error carries: the second argument its class hands to
    the constructor of [AppError].  Errors from outside utils/errors
    have no such field. *)
Definition errorCode (e : AppError) : option string :=
  match e with
  | ValidationError _ _ => Some "VALIDATION_ERROR"
  | NotFoundError _ _ => Some "NOT_FOUND"
  | DuplicateError _ => Some "DUPLICATE_ENTRY"
  | RangeError _ | ZodError _ | PlainError _ => None
  end.

(** [statusCode], next to it. *)
Definition errorStatusCode (e : AppError) : option Z :=
  match e with
  | ValidationError _ _ => Some 400%Z
  | NotFoundError _ _ => Some 404%Z
  | DuplicateError _ => Some 409%Z
  | RangeError _ | ZodError _ | PlainError _ => None
  end.

(* ================================================================== *)
(** ** Libraries the portal calls into

    [date-fns], the JS [Date] parser and zod's e-mail check are not
    part of the repository; the embedding is parametric in them. *)

Class External : Type := {
  JsDate : Type;
  (** [new Date(s)] *)
  Date_of_string : string -> JsDate;
  (** [format(d, 'yyyyMMdd')]; [None] when it throws on an Invalid Date *)
  format_yyyyMMdd : JsDate -> option string;
  (** [z.string().email()] *)
  zod_email : string -> bool;
}.

(** The shape [format(d, 'yyyyMMdd')] has for a four-digit year. *)
Definition is_yyyyMMdd (s : string) : bool :=
  (String.length s =? 8)%nat && allChars isDigit s.

(* ================================================================== *)
(** ** Idempotency keys (models/BillableEvent) *)

Section IdempotencyKey.
Context {ext : External}.

(** [string | Date] *)
Inductive TriggerDate : Type :=
| DateString (s : string)
| DateObject (d : JsDate).

Definition formatTriggerDate (triggerDate : TriggerDate) : Result string :=
  let d := match triggerDate with
           | DateString s => Date_of_string s
           | DateObject d => d
           end in
  match format_yyyyMMdd d with
  | Some dateStr => Ok dateStr
  | None => Err (RangeError "Invalid time value")
  end.

Definition sanitizeControlNumber (controlNumber : string) : string :=
  toUpperCase (keepChars isKeyChar controlNumber).

Definition generateIdempotencyKey
  (clientCode controlNumber : string) (triggerDate : TriggerDate)
  (feeType : string) : Result string :=
  match formatTriggerDate triggerDate with
  | Err e => Err e
  | Ok dateStr =>
      let sanitizedControlNumber := sanitizeControlNumber controlNumber in
      Ok (toUpperCase clientCode ++ "-" ++ sanitizedControlNumber ++ "-"
          ++ dateStr ++ "-" ++ feeType)
  end.

End IdempotencyKey.

Record KeyParts : Type := {
  kp_clientCode : string;
  kp_controlNumber : string;
  kp_triggerDate : string;
  kp_feeType : string;
}.

Definition parseIdempotencyKey (key : string) : option KeyParts :=
  match matchPieces keyPattern key with
  | Some [clientCode; controlNumber; dateStr; feeType] =>
      let triggerDate :=
        slice 0 4 dateStr ++ "-" ++ slice 4 6 dateStr ++ "-"
        ++ slice 6 8 dateStr in
      Some {| kp_clientCode := clientCode;
              kp_controlNumber := controlNumber;
              kp_triggerDate := triggerDate;
              kp_feeType := feeType |}
  | _ => None
  end.

(** [IdempotencyKeySchema]: the same expression without the groups. *)
Definition IdempotencyKeySchema (key : string) : bool :=
  match matchPieces keyPattern key with Some _ => true | None => false end.

(** A host in UTC fed ISO calendar dates [YYYY-MM-DD] (days 01 to 28 of
    any month), used to run the model on concrete inputs. *)
Definition twoDigits (s : string) : option nat :=
  match s with
  | String a (String b EmptyString) =>
      if isDigit a && isDigit b
      then Some ((nat_of_ascii a - 48) * 10 + (nat_of_ascii b - 48))%nat
      else None
  | _ => None
  end.

Definition isoDate (s : string) : option string :=
  let y := slice 0 4 s in
  let m := slice 5 7 s in
  let d := slice 8 10 s in
  if (String.length s =? 10)%nat && allChars isDigit y
     && String.eqb (slice 4 5 s) "-" && String.eqb (slice 7 8 s) "-"
  then
    match twoDigits m, twoDigits d with
    | Some mm, Some dd =>
        if (1 <=? mm)%nat && (mm <=? 12)%nat && (1 <=? dd)%nat && (dd <=? 28)%nat
        then Some (y ++ m ++ d) else None
    | _, _ => None
    end
  else None.

(** A loose stand-in for zod's e-mail expression: one [@] with text on
    both sides. *)
Fixpoint countChar (c : ascii) (s : string) : nat :=
  match s with
  | EmptyString => 0
  | String c' s' => (if Ascii.eqb c' c then 1 else 0) + countChar c s'
  end.

Definition simpleEmail (s : string) : bool :=
  (countChar "@" s =? 1)%nat
  && negb (String.prefix "@" s)
  && negb (String.prefix "@" (string_of_list_ascii (rev (list_ascii_of_string s)))).

#[export] Instance utcExternal : External := {|
  JsDate := option string;
  Date_of_string := isoDate;
  format_yyyyMMdd := fun d => d;
  zod_email := simpleEmail;
|}.

(* ================================================================== *)
(** ** Enumerations (utils/validators) *)

Definition CurrencyCode : list string :=
  ["USD"; "EUR"; "GBP"; "CAD"; "AUD"; "NZD"; "CHF"; "JPY"; "SGD"; "HKD";
   "NOK"; "SEK"; "DKK"].

Definition FeeType : list string :=
  ["PLACEMENT_FEE"; "ONBOARD_FEE"; "PROCESSING_FEE"; "EXTENSION_FEE";
   "CANCELLATION_FEE"; "REFUND"; "CREDIT"; "OTHER"].

Definition memberOf (values : list string) (s : string) : bool :=
  existsb (String.eqb s) values.

Inductive BillableEventStatus : Type :=
| EV_PENDING | EV_APPROVED | EV_INVOICED | EV_PAID | EV_PARTIAL
| EV_OVERDUE | EV_HOLD | EV_CANCELLED | EV_REFUNDED | EV_CREDITED.

Definition BillableEventStatus_eqb (a b : BillableEventStatus) : bool :=
  match a, b with
  | EV_PENDING, EV_PENDING | EV_APPROVED, EV_APPROVED
  | EV_INVOICED, EV_INVOICED | EV_PAID, EV_PAID | EV_PARTIAL, EV_PARTIAL
  | EV_OVERDUE, EV_OVERDUE | EV_HOLD, EV_HOLD | EV_CANCELLED, EV_CANCELLED
  | EV_REFUNDED, EV_REFUNDED | EV_CREDITED, EV_CREDITED => true
  | _, _ => false
  end.

(** The status as it is interpolated into a message. *)
Definition BillableEventStatus_name (s : BillableEventStatus) : string :=
  match s with
  | EV_PENDING => "PENDING" | EV_APPROVED => "APPROVED"
  | EV_INVOICED => "INVOICED" | EV_PAID => "PAID" | EV_PARTIAL => "PARTIAL"
  | EV_OVERDUE => "OVERDUE" | EV_HOLD => "HOLD" | EV_CANCELLED => "CANCELLED"
  | EV_REFUNDED => "REFUNDED" | EV_CREDITED => "CREDITED"
  end.

Inductive QBInvoiceStatus : Type :=
| QB_DRAFT | QB_PENDING | QB_SENT | QB_VIEWED | QB_PARTIAL | QB_PAID
| QB_OVERDUE | QB_VOIDED.

Definition QBInvoiceStatus_eqb (a b : QBInvoiceStatus) : bool :=
  match a, b with
  | QB_DRAFT, QB_DRAFT | QB_PENDING, QB_PENDING | QB_SENT, QB_SENT
  | QB_VIEWED, QB_VIEWED | QB_PARTIAL, QB_PARTIAL | QB_PAID, QB_PAID
  | QB_OVERDUE, QB_OVERDUE | QB_VOIDED, QB_VOIDED => true
  | _, _ => false
  end.

Inductive TriggerRule : Type :=
| ON_PLACEMENT | ON_ONBOARD | ON_CONTRACT_START | ON_EXTENSION | MANUAL.

(* ================================================================== *)
(** ** Client policies and fee calculation
       (models/ClientPolicy, services/PolicyService) *)

Inductive CalculationType : Type := FIXED | PERCENTAGE | TIERED.

Inductive TierCalculationType : Type := TIER_FIXED | TIER_PERCENTAGE.

Record FeeTier : Type := {
  fromAmount : Q;
  toAmount : option Q;
  tier_value : Q;
  tier_calculationType : TierCalculationType;
}.

Record FeeRule : Type := {
  fr_feeType : string;
  fr_calculationType : CalculationType;
  fr_value : Q;
  fr_minimumFee : option Q;
  fr_maximumFee : option Q;
  fr_tiers : option (list FeeTier);
}.

Record ClientPolicy : Type := {
  cp_id : string;
  cp_clientId : string;
  cp_clientCode : string;
  cp_clientName : string;
  cp_version : nat;
  cp_triggerRule : TriggerRule;
  cp_feeRules : list FeeRule;
  cp_paymentTermsDays : nat;
  cp_currency : string;
  cp_isActive : bool;
}.

Record FeeResult : Type := {
  fee_amount : Q;
  fee_currency : string;
}.

(** [Math.round]: the nearest integer, a tie going up. *)
Definition Math_round (x : Q) : Z := Qfloor (x + (1 # 2)).

(** [Math.round(amount * 100) / 100] *)
Definition round2 (amount : Q) : Q := inject_Z (Math_round (amount * 100)) / 100.

(** [Math.ceil] *)
Definition Math_ceil (x : Q) : Z := Qceiling x.

(** The predicate of [feeRule.tiers.find(...)]. *)
Definition tierMatches (baseAmount : Q) (t : FeeTier) : bool :=
  Qle_bool (fromAmount t) baseAmount
  && match toAmount t with
     | None => true
     | Some toAmt => Qle_bool baseAmount toAmt
     end.

Definition tierAmount (baseAmount : Q) (tier : FeeTier) : Q :=
  match tier_calculationType tier with
  | TIER_FIXED => tier_value tier
  | TIER_PERCENTAGE => (baseAmount * tier_value tier) / 100
  end.

(** The [switch] of [calculateFee]: the amount before the caps, [None]
    where the method returns [null]. *)
Definition rawFee (feeRule : FeeRule) (baseAmount : option Q) : option Q :=
  match fr_calculationType feeRule with
  | FIXED => Some (fr_value feeRule)
  | PERCENTAGE =>
      match baseAmount with
      | None => None
      | Some b => Some ((b * fr_value feeRule) / 100)
      end
  | TIERED =>
      match fr_tiers feeRule, baseAmount with
      | Some tiers, Some b =>
          match find (tierMatches b) tiers with
          | None => None
          | Some tier => Some (tierAmount b tier)
          end
      | _, _ => None
      end
  end.

(** "Apply min/max caps" *)
Definition applyCaps (feeRule : FeeRule) (amount : Q) : Q :=
  let amount := match fr_minimumFee feeRule with
                | Some m => Qmax amount m
                | None => amount
                end in
  match fr_maximumFee feeRule with
  | Some m => Qmin amount m
  | None => amount
  end.

Definition calculateFee (policy : ClientPolicy) (feeType : string)
  (baseAmount : option Q) : option FeeResult :=
  match find (fun r => String.eqb (fr_feeType r) feeType) (cp_feeRules policy) with
  | None => None
  | Some feeRule =>
      match rawFee feeRule baseAmount with
      | None => None
      | Some amount =>
          Some {| fee_amount := round2 (applyCaps feeRule amount);
                  fee_currency := cp_currency policy |}
      end
  end.

(* ================================================================== *)
(** ** Fees in double precision (services/PolicyService)

    The ledger above carries amounts as exact rationals.  A JS number
    is an IEEE 754 double, and [calculateFee] multiplies, divides and
    rounds: what it returns depends on how each of these steps rounds.
    The method is given here over binary64, with the arithmetic of the
    standard (round to nearest, ties to even) and with [Math.max],
    [Math.min] and [Math.round] as ECMAScript defines them. *)

Module Binary64.

Definition number : Type := spec_float.

Definition prec : Z := 53.
Definition emax : Z := 1024.

Definition NaN : number := S754_nan.

Definition isNaN (x : number) : bool :=
  match x with S754_nan => true | _ => false end.

(** [x * y] and [x / y] *)
Definition mul : number -> number -> number := SFmul prec emax.
Definition div : number -> number -> number := SFdiv prec emax.

(** [x < y], [x <= y] and [x >= y] *)
Definition lt : number -> number -> bool := SFltb.
Definition le : number -> number -> bool := SFleb.
Definition ge (x y : number) : bool := SFleb y x.

(** The double of an integer literal. *)
Definition ofInteger (n : Z) : number := binary_normalize prec emax n 0 false.

(** The double of a decimal literal: [ofDecimal 8551 1] is [855.1]. *)
Definition ofDecimal (digits : Z) (places : nat) : number :=
  div (ofInteger digits) (ofInteger (10 ^ Z.of_nat places)).

(** [Math.max(a, b)]: NaN if either is, and [+0] above [-0]. *)
Definition Math_max (a b : number) : number :=
  match SFcompare a b with
  | None => NaN
  | Some Lt => b
  | Some Gt => a
  | Some Eq =>
      match a, b with
      | S754_zero sa, S754_zero sb => S754_zero (sa && sb)
      | _, _ => a
      end
  end.

(** [Math.min(a, b)]: NaN if either is, and [-0] below [+0]. *)
Definition Math_min (a b : number) : number :=
  match SFcompare a b with
  | None => NaN
  | Some Lt => a
  | Some Gt => b
  | Some Eq =>
      match a, b with
      | S754_zero sa, S754_zero sb => S754_zero (sa || sb)
      | _, _ => a
      end
  end.

(** The integer nearest to the double with sign [s], mantissa [m] and
    exponent [e], the upper one of two that are equally near. *)
Definition nearestInteger (s : bool) (m : positive) (e : Z) : Z :=
  let signed := if s then Zneg m else Zpos m in
  match e with
  | Zneg k => (2 * signed + 2 ^ Zpos k) / 2 ^ (Zpos k + 1)
  | _ => signed * 2 ^ e
  end.

(** [Math.round(x)]: NaN, the infinities, the zeros and the integers
    are returned as they are; a double that rounds to 0 gives the zero
    of its sign. *)
Definition Math_round (x : number) : number :=
  match x with
  | S754_finite s m e =>
      if (0 <=? e)%Z then x
      else
        let n := nearestInteger s m e in
        if (n =? 0)%Z then S754_zero s else binary_normalize prec emax n 0 s
  | _ => x
  end.

Definition hundred : number := ofInteger 100.

(** [Math.round(amount * 100) / 100] *)
Definition round2 (amount : number) : number :=
  div (Math_round (mul amount hundred)) hundred.

Record FeeTier : Type := {
  fromAmount : number;
  toAmount : option number;
  tier_value : number;
  tier_calculationType : TierCalculationType;
}.

Record FeeRule : Type := {
  fr_feeType : string;
  fr_calculationType : CalculationType;
  fr_value : number;
  fr_minimumFee : option number;
  fr_maximumFee : option number;
  fr_tiers : option (list FeeTier);
}.

Record ClientPolicy : Type := {
  cp_id : string;
  cp_clientId : string;
  cp_clientCode : string;
  cp_clientName : string;
  cp_version : nat;
  cp_triggerRule : TriggerRule;
  cp_feeRules : list FeeRule;
  cp_paymentTermsDays : nat;
  cp_currency : string;
  cp_isActive : bool;
}.

Record FeeResult : Type := {
  fee_amount : number;
  fee_currency : string;
}.

(** The predicate of [feeRule.tiers.find(...)]. *)
Definition tierMatches (baseAmount : number) (t : FeeTier) : bool :=
  ge baseAmount (fromAmount t)
  && match toAmount t with
     | None => true
     | Some toAmt => le baseAmount toAmt
     end.

Definition tierAmount (baseAmount : number) (tier : FeeTier) : number :=
  match tier_calculationType tier with
  | TIER_FIXED => tier_value tier
  | TIER_PERCENTAGE => div (mul baseAmount (tier_value tier)) hundred
  end.

(** The [switch] of [calculateFee]: the amount before the caps, [None]
    where the method returns [null]. *)
Definition rawFee (feeRule : FeeRule) (baseAmount : option number)
  : option number :=
  match fr_calculationType feeRule with
  | FIXED => Some (fr_value feeRule)
  | PERCENTAGE =>
      match baseAmount with
      | None => None
      | Some b => Some (div (mul b (fr_value feeRule)) hundred)
      end
  | TIERED =>
      match fr_tiers feeRule, baseAmount with
      | Some tiers, Some b =>
          match find (tierMatches b) tiers with
          | None => None
          | Some tier => Some (tierAmount b tier)
          end
      | _, _ => None
      end
  end.

(** "Apply min/max caps" *)
Definition applyCaps (feeRule : FeeRule) (amount : number) : number :=
  let amount := match fr_minimumFee feeRule with
                | Some m => Math_max amount m
                | None => amount
                end in
  match fr_maximumFee feeRule with
  | Some m => Math_min amount m
  | None => amount
  end.

Definition calculateFee (policy : ClientPolicy) (feeType : string)
  (baseAmount : option number) : option FeeResult :=
  match find (fun r => String.eqb (fr_feeType r) feeType) (cp_feeRules policy) with
  | None => None
  | Some feeRule =>
      match rawFee feeRule baseAmount with
      | None => None
      | Some amount =>
          Some {| fee_amount := round2 (applyCaps feeRule amount);
                  fee_currency := cp_currency policy |}
      end
  end.

(** The policy of the examples: 15 per cent between 100 and 2000 for a
    placement, 500 flat for onboarding, and for an extension 100 flat
    up to a base of 1000 and 20 per cent from there. *)
Definition percentageRule : FeeRule :=
  {| fr_feeType := "PLACEMENT_FEE";
     fr_calculationType := PERCENTAGE;
     fr_value := ofInteger 15;
     fr_minimumFee := Some (ofInteger 100);
     fr_maximumFee := Some (ofInteger 2000);
     fr_tiers := None |}.

Definition fixedRule : FeeRule :=
  {| fr_feeType := "ONBOARD_FEE";
     fr_calculationType := FIXED;
     fr_value := ofInteger 500;
     fr_minimumFee := None;
     fr_maximumFee := None;
     fr_tiers := None |}.

Definition lowTier : FeeTier :=
  {| fromAmount := ofInteger 0; toAmount := Some (ofInteger 1000);
     tier_value := ofInteger 100; tier_calculationType := TIER_FIXED |}.

Definition highTier : FeeTier :=
  {| fromAmount := ofInteger 1000; toAmount := None;
     tier_value := ofInteger 20; tier_calculationType := TIER_PERCENTAGE |}.

Definition tieredRule : FeeRule :=
  {| fr_feeType := "EXTENSION_FEE";
     fr_calculationType := TIERED;
     fr_value := ofInteger 0;
     fr_minimumFee := None;
     fr_maximumFee := None;
     fr_tiers := Some [lowTier; highTier] |}.

Definition acmePolicy : ClientPolicy :=
  {| cp_id := "7d0e1c1e-0000-4000-8000-00000000000a";
     cp_clientId := "client-acme";
     cp_clientCode := "acme";
     cp_clientName := "Acme Shipping";
     cp_version := 1;
     cp_triggerRule := ON_PLACEMENT;
     cp_feeRules := [percentageRule; fixedRule; tieredRule];
     cp_paymentTermsDays := 30;
     cp_currency := "USD";
     cp_isActive := true |}.

End Binary64.

(* ================================================================== *)
(** ** Billable events (models/BillableEvent) *)

Record StatusEntry : Type := {
  se_status : BillableEventStatus;
  se_timestamp : string;
  se_userId : string;
  se_reason : option string;
}.

Record SourceData : Type := {
  sd_controlNumber : string;
  sd_candidateEmail : option string;
  sd_candidateName : option string;
  sd_salary : option Q;
  sd_currency : option string;
}.

Record BillableEvent : Type := {
  ev_id : string;
  ev_idempotencyKey : string;
  ev_clientId : string;
  ev_clientCode : string;
  ev_clientName : string;
  ev_controlNumber : string;
  ev_candidateEmail : option string;
  ev_candidateName : option string;
  ev_triggerDate : string;
  ev_triggerType : string;
  ev_feeType : string;
  ev_amount : Q;
  ev_currency : string;
  ev_status : BillableEventStatus;
  ev_statusHistory : list StatusEntry;
  ev_policyId : string;
  ev_policyVersion : nat;
  ev_sourceData : option SourceData;
  ev_approvedAt : option string;
  ev_approvedBy : option string;
  ev_approvalNotes : option string;
  ev_holdReason : option string;
  ev_holdAt : option string;
  ev_holdBy : option string;
  ev_notes : option string;
  ev_tags : list string;
  ev_createdAt : string;
  ev_createdBy : string;
  ev_updatedAt : string;
  ev_updatedBy : string;
}.

(** What the runtime supplies to one call: the clock ([new Date()], as
    the ISO string it prints and as epoch milliseconds) and the
    identifiers [crypto.randomUUID()] hands out. *)
Record Host : Type := {
  host_now : string;
  host_nowMs : Z;
  host_uuid : string;
  host_auditUuid : string;
}.

Record RequestContext : Type := {
  userId : string;
  userName : option string;
  userEmail : option string;
}.

(** The argument of [createBillableEvent]. *)
Record NewEvent : Type := {
  ne_clientId : string;
  ne_clientCode : string;
  ne_clientName : string;
  ne_controlNumber : string;
  ne_candidateEmail : option string;
  ne_candidateName : option string;
  ne_triggerDate : string;
  ne_triggerType : string;
  ne_feeType : string;
  ne_amount : Q;
  ne_currency : string;
  ne_policyId : string;
  ne_policyVersion : nat;
  ne_sourceData : option SourceData;
  ne_createdBy : string;
  ne_notes : option string;
}.

Definition optionAll {A : Type} (p : A -> bool) (o : option A) : bool :=
  match o with None => true | Some a => p a end.

Section BillableEventModel.
Context {ext : External}.

Definition SourceDataSchema (sd : SourceData) : bool :=
  optionAll zod_email (sd_candidateEmail sd)
  && optionAll (memberOf CurrencyCode) (sd_currency sd).

(** [BillableEventSchema.parse]: the checks a value of the TypeScript
    type can still fail. *)
Definition BillableEventSchema_parse (e : BillableEvent) : Result BillableEvent :=
  if negb (IdempotencyKeySchema (ev_idempotencyKey e)) then
    Err (ZodError "idempotencyKey")
  else if negb (optionAll zod_email (ev_candidateEmail e)) then
    Err (ZodError "candidateEmail")
  else if negb (memberOf FeeType (ev_feeType e)) then
    Err (ZodError "feeType")
  else if negb (memberOf CurrencyCode (ev_currency e)) then
    Err (ZodError "currency")
  else if negb (optionAll SourceDataSchema (ev_sourceData e)) then
    Err (ZodError "sourceData")
  else Ok e.

Definition createBillableEvent (host : Host) (input : NewEvent)
  : Result BillableEvent :=
  let now := host_now host in
  match generateIdempotencyKey (ne_clientCode input) (ne_controlNumber input)
          (DateString (ne_triggerDate input)) (ne_feeType input) with
  | Err e => Err e
  | Ok idempotencyKey =>
      BillableEventSchema_parse
        {| ev_id := host_uuid host;
           ev_idempotencyKey := idempotencyKey;
           ev_clientId := ne_clientId input;
           ev_clientCode := ne_clientCode input;
           ev_clientName := ne_clientName input;
           ev_controlNumber := ne_controlNumber input;
           ev_candidateEmail := ne_candidateEmail input;
           ev_candidateName := ne_candidateName input;
           ev_triggerDate := ne_triggerDate input;
           ev_triggerType := ne_triggerType input;
           ev_feeType := ne_feeType input;
           ev_amount := ne_amount input;
           ev_currency := ne_currency input;
           ev_status := EV_PENDING;
           ev_statusHistory :=
             [ {| se_status := EV_PENDING;
                  se_timestamp := now;
                  se_userId := ne_createdBy input;
                  se_reason := Some "Created from Smartsheet data" |} ];
           ev_policyId := ne_policyId input;
           ev_policyVersion := ne_policyVersion input;
           ev_sourceData := ne_sourceData input;
           ev_approvedAt := None;
           ev_approvedBy := None;
           ev_approvalNotes := None;
           ev_holdReason := None;
           ev_holdAt := None;
           ev_holdBy := None;
           ev_notes := ne_notes input;
           ev_tags := [];
           ev_createdAt := now;
           ev_createdBy := ne_createdBy input;
           ev_updatedAt := now;
           ev_updatedBy := ne_createdBy input |}
  end.

End BillableEventModel.

(** [{ ...event, status, statusHistory: [...], updatedAt, updatedBy }] *)
Definition updateEventStatus (host : Host) (event : BillableEvent)
  (newStatus : BillableEventStatus) (userId : string) (reason : option string)
  : BillableEvent :=
  let now := host_now host in
  {| ev_id := ev_id event;
     ev_idempotencyKey := ev_idempotencyKey event;
     ev_clientId := ev_clientId event;
     ev_clientCode := ev_clientCode event;
     ev_clientName := ev_clientName event;
     ev_controlNumber := ev_controlNumber event;
     ev_candidateEmail := ev_candidateEmail event;
     ev_candidateName := ev_candidateName event;
     ev_triggerDate := ev_triggerDate event;
     ev_triggerType := ev_triggerType event;
     ev_feeType := ev_feeType event;
     ev_amount := ev_amount event;
     ev_currency := ev_currency event;
     ev_status := newStatus;
     ev_statusHistory :=
       (ev_statusHistory event
        ++ [ {| se_status := newStatus;
                se_timestamp := now;
                se_userId := userId;
                se_reason := reason |} ])%list;
     ev_policyId := ev_policyId event;
     ev_policyVersion := ev_policyVersion event;
     ev_sourceData := ev_sourceData event;
     ev_approvedAt := ev_approvedAt event;
     ev_approvedBy := ev_approvedBy event;
     ev_approvalNotes := ev_approvalNotes event;
     ev_holdReason := ev_holdReason event;
     ev_holdAt := ev_holdAt event;
     ev_holdBy := ev_holdBy event;
     ev_notes := ev_notes event;
     ev_tags := ev_tags event;
     ev_createdAt := ev_createdAt event;
     ev_createdBy := ev_createdBy event;
     ev_updatedAt := now;
     ev_updatedBy := userId |}.

(** [updated.approvedAt = ...; updated.approvedBy = ...;
    updated.approvalNotes = notes] *)
Definition setApproval (e : BillableEvent) (approvedAt approvedBy : string)
  (approvalNotes : option string) : BillableEvent :=
  {| ev_id := ev_id e;
     ev_idempotencyKey := ev_idempotencyKey e;
     ev_clientId := ev_clientId e;
     ev_clientCode := ev_clientCode e;
     ev_clientName := ev_clientName e;
     ev_controlNumber := ev_controlNumber e;
     ev_candidateEmail := ev_candidateEmail e;
     ev_candidateName := ev_candidateName e;
     ev_triggerDate := ev_triggerDate e;
     ev_triggerType := ev_triggerType e;
     ev_feeType := ev_feeType e;
     ev_amount := ev_amount e;
     ev_currency := ev_currency e;
     ev_status := ev_status e;
     ev_statusHistory := ev_statusHistory e;
     ev_policyId := ev_policyId e;
     ev_policyVersion := ev_policyVersion e;
     ev_sourceData := ev_sourceData e;
     ev_approvedAt := Some approvedAt;
     ev_approvedBy := Some approvedBy;
     ev_approvalNotes := approvalNotes;
     ev_holdReason := ev_holdReason e;
     ev_holdAt := ev_holdAt e;
     ev_holdBy := ev_holdBy e;
     ev_notes := ev_notes e;
     ev_tags := ev_tags e;
     ev_createdAt := ev_createdAt e;
     ev_createdBy := ev_createdBy e;
     ev_updatedAt := ev_updatedAt e;
     ev_updatedBy := ev_updatedBy e |}.

(** [updated.holdReason = reason; updated.holdAt = ...;
    updated.holdBy = ...] *)
Definition setHold (e : BillableEvent) (holdReason holdAt holdBy : string)
  : BillableEvent :=
  {| ev_id := ev_id e;
     ev_idempotencyKey := ev_idempotencyKey e;
     ev_clientId := ev_clientId e;
     ev_clientCode := ev_clientCode e;
     ev_clientName := ev_clientName e;
     ev_controlNumber := ev_controlNumber e;
     ev_candidateEmail := ev_candidateEmail e;
     ev_candidateName := ev_candidateName e;
     ev_triggerDate := ev_triggerDate e;
     ev_triggerType := ev_triggerType e;
     ev_feeType := ev_feeType e;
     ev_amount := ev_amount e;
     ev_currency := ev_currency e;
     ev_status := ev_status e;
     ev_statusHistory := ev_statusHistory e;
     ev_policyId := ev_policyId e;
     ev_policyVersion := ev_policyVersion e;
     ev_sourceData := ev_sourceData e;
     ev_approvedAt := ev_approvedAt e;
     ev_approvedBy := ev_approvedBy e;
     ev_approvalNotes := ev_approvalNotes e;
     ev_holdReason := Some holdReason;
     ev_holdAt := Some holdAt;
     ev_holdBy := Some holdBy;
     ev_notes := ev_notes e;
     ev_tags := ev_tags e;
     ev_createdAt := ev_createdAt e;
     ev_createdBy := ev_createdBy e;
     ev_updatedAt := ev_updatedAt e;
     ev_updatedBy := ev_updatedBy e |}.

(** [{ ...stored, ...updates, updatedAt: new Date().toISOString() }] when
    [updates] carries every field, as it does at each call site. *)
Definition mergeEvent (host : Host) (updates : BillableEvent) : BillableEvent :=
  {| ev_id := ev_id updates;
     ev_idempotencyKey := ev_idempotencyKey updates;
     ev_clientId := ev_clientId updates;
     ev_clientCode := ev_clientCode updates;
     ev_clientName := ev_clientName updates;
     ev_controlNumber := ev_controlNumber updates;
     ev_candidateEmail := ev_candidateEmail updates;
     ev_candidateName := ev_candidateName updates;
     ev_triggerDate := ev_triggerDate updates;
     ev_triggerType := ev_triggerType updates;
     ev_feeType := ev_feeType updates;
     ev_amount := ev_amount updates;
     ev_currency := ev_currency updates;
     ev_status := ev_status updates;
     ev_statusHistory := ev_statusHistory updates;
     ev_policyId := ev_policyId updates;
     ev_policyVersion := ev_policyVersion updates;
     ev_sourceData := ev_sourceData updates;
     ev_approvedAt := ev_approvedAt updates;
     ev_approvedBy := ev_approvedBy updates;
     ev_approvalNotes := ev_approvalNotes updates;
     ev_holdReason := ev_holdReason updates;
     ev_holdAt := ev_holdAt updates;
     ev_holdBy := ev_holdBy updates;
     ev_notes := ev_notes updates;
     ev_tags := ev_tags updates;
     ev_createdAt := ev_createdAt updates;
     ev_createdBy := ev_createdBy updates;
     ev_updatedAt := host_now host;
     ev_updatedBy := ev_updatedBy updates |}.

(* ================================================================== *)
(** ** Invoice links (models/InvoiceLink)

    [dueDate] is kept as the epoch milliseconds
    [new Date(dueDate).getTime()] evaluates to; the other dates are
    only copied around and stay strings. *)

Inductive StatusSource : Type := PORTAL | QB_SYNC.

Record LinkStatusEntry : Type := {
  ls_status : QBInvoiceStatus;
  ls_timestamp : string;
  ls_source : StatusSource;
}.

Record PaymentRecord : Type := {
  pay_qbPaymentId : string;
  pay_paymentDate : string;
  pay_amount : Q;
  pay_currency : string;
  pay_syncedAt : string;
}.

Record InvoiceLink : Type := {
  il_id : string;
  il_billableEventId : string;
  il_idempotencyKey : string;
  il_qbInvoiceId : string;
  il_qbDocNumber : string;
  il_invoiceDate : string;
  il_dueDate : Z;
  il_amount : Q;
  il_currency : string;
  il_qbCustomerId : string;
  il_qbCustomerName : string;
  il_qbStatus : QBInvoiceStatus;
  il_statusHistory : list LinkStatusEntry;
  il_totalPaid : Q;
  il_balance : Q;
  il_payments : list PaymentRecord;
  il_paidInFullDate : option string;
  il_lastSyncedAt : string;
  il_createdAt : string;
  il_createdBy : string;
  il_updatedAt : string;
}.

(** The argument of [createInvoiceLink]. *)
Record NewLink : Type := {
  nl_billableEventId : string;
  nl_idempotencyKey : string;
  nl_qbInvoiceId : string;
  nl_qbDocNumber : string;
  nl_invoiceDate : string;
  nl_dueDate : Z;
  nl_amount : Q;
  nl_currency : string;
  nl_qbCustomerId : string;
  nl_qbCustomerName : string;
  nl_createdBy : string;
}.

Definition createInvoiceLink (host : Host) (input : NewLink) : InvoiceLink :=
  let now := host_now host in
  {| il_id := host_uuid host;
     il_billableEventId := nl_billableEventId input;
     il_idempotencyKey := nl_idempotencyKey input;
     il_qbInvoiceId := nl_qbInvoiceId input;
     il_qbDocNumber := nl_qbDocNumber input;
     il_invoiceDate := nl_invoiceDate input;
     il_dueDate := nl_dueDate input;
     il_amount := nl_amount input;
     il_currency := nl_currency input;
     il_qbCustomerId := nl_qbCustomerId input;
     il_qbCustomerName := nl_qbCustomerName input;
     il_qbStatus := QB_PENDING;
     il_statusHistory :=
       [ {| ls_status := QB_PENDING; ls_timestamp := now; ls_source := PORTAL |} ];
     il_totalPaid := 0;
     il_balance := nl_amount input;
     il_payments := [];
     il_paidInFullDate := None;
     il_lastSyncedAt := now;
     il_createdAt := now;
     il_createdBy := nl_createdBy input;
     il_updatedAt := now |}.

(** [{ ...link, totalPaid, balance, payments, paidInFullDate, qbStatus,
       statusHistory, lastSyncedAt, updatedAt }] *)
Definition withPaymentFields (link : InvoiceLink) (totalPaid balance : Q)
  (payments : list PaymentRecord) (paidInFullDate : option string)
  (qbStatus : QBInvoiceStatus) (statusHistory : list LinkStatusEntry)
  (lastSyncedAt updatedAt : string) : InvoiceLink :=
  {| il_id := il_id link;
     il_billableEventId := il_billableEventId link;
     il_idempotencyKey := il_idempotencyKey link;
     il_qbInvoiceId := il_qbInvoiceId link;
     il_qbDocNumber := il_qbDocNumber link;
     il_invoiceDate := il_invoiceDate link;
     il_dueDate := il_dueDate link;
     il_amount := il_amount link;
     il_currency := il_currency link;
     il_qbCustomerId := il_qbCustomerId link;
     il_qbCustomerName := il_qbCustomerName link;
     il_qbStatus := qbStatus;
     il_statusHistory := statusHistory;
     il_totalPaid := totalPaid;
     il_balance := balance;
     il_payments := payments;
     il_paidInFullDate := paidInFullDate;
     il_lastSyncedAt := lastSyncedAt;
     il_createdAt := il_createdAt link;
     il_createdBy := il_createdBy link;
     il_updatedAt := updatedAt |}.

Definition recordPayment (host : Host) (invoiceLink : InvoiceLink)
  (payment : PaymentRecord) : InvoiceLink :=
  let now := host_now host in
  let newTotalPaid := il_totalPaid invoiceLink + pay_amount payment in
  let newBalance := il_amount invoiceLink - newTotalPaid in
  let '(newStatus, paidInFullDate) :=
    if Qle_bool newBalance 0 then
      (QB_PAID, Some (pay_paymentDate payment))
    else if negb (Qle_bool newTotalPaid 0) then
      (QB_PARTIAL, il_paidInFullDate invoiceLink)
    else
      (il_qbStatus invoiceLink, il_paidInFullDate invoiceLink) in
  withPaymentFields invoiceLink
    newTotalPaid
    (Qmax 0 newBalance)
    (il_payments invoiceLink ++ [payment])%list
    paidInFullDate
    newStatus
    (il_statusHistory invoiceLink
     ++ [ {| ls_status := newStatus; ls_timestamp := now; ls_source := QB_SYNC |} ])%list
    now now.

Definition msPerDay : Z := 1000 * 60 * 60 * 24.

(** [Math.ceil((today.getTime() - dueDate.getTime()) / (1000*60*60*24))] *)
Definition ceilDays (host : Host) (dueDate : Z) : Z :=
  Math_ceil (inject_Z (host_nowMs host - dueDate) / inject_Z msPerDay).

Definition getDaysOverdue (host : Host) (invoiceLink : InvoiceLink) : Z :=
  if QBInvoiceStatus_eqb (il_qbStatus invoiceLink) QB_PAID
     || Qle_bool (il_balance invoiceLink) 0
  then 0%Z
  else Z.max 0 (ceilDays host (il_dueDate invoiceLink)).

Definition isOverdue (host : Host) (invoiceLink : InvoiceLink) : bool :=
  (0 <? getDaysOverdue host invoiceLink)%Z.

(* ================================================================== *)
(** ** Audit trail (models/AuditLog)

    Only what identifies an entry is kept; the free-text description
    and the JSON snapshots are write-only. *)

Inductive AuditAction : Type :=
| A_CREATE | A_UPDATE | A_DELETE | A_APPROVE | A_REJECT | A_HOLD
| A_INVOICE_CREATE | A_INVOICE_SEND | A_PAYMENT_RECORD | A_SYNC
| A_LOGIN | A_EXPORT.

Inductive EntityType : Type :=
| CLIENT_POLICY | BILLABLE_EVENT | INVOICE_LINK | SYSTEM | USER.

Record AuditLog : Type := {
  al_id : string;
  al_action : AuditAction;
  al_entityType : EntityType;
  al_entityId : option string;
  al_userId : string;
  al_timestamp : string;
}.

(* ================================================================== *)
(** ** The store (storage/JsonFileStorage) *)

Record StorageData : Type := {
  clientPolicies : list ClientPolicy;
  billableEvents : list BillableEvent;
  invoiceLinks : list InvoiceLink;
  auditLogs : list AuditLog;
}.

(** A method of the store or of a service: it may throw, and it leaves
    a store behind either way. *)
Definition M (A : Type) : Type := StorageData -> Result A * StorageData.

Definition ret {A : Type} (a : A) : M A := fun s => (Ok a, s).

Definition throw {A : Type} (e : AppError) : M A := fun s => (Err e, s).

Definition bind {A B : Type} (m : M A) (f : A -> M B) : M B :=
  fun s =>
    match m s with
    | (Ok a, s') => f a s'
    | (Err e, s') => (Err e, s')
    end.

Definition liftResult {A : Type} (r : Result A) : M A :=
  match r with Ok a => ret a | Err e => throw e end.

Declare Scope M_scope.
Delimit Scope M_scope with M.
Notation "x <- m ;; k" := (bind m (fun x => k))
  (at level 61, m at next level, right associativity) : M_scope.
Notation "m ;;; k" := (bind m (fun _ => k))
  (at level 61, right associativity) : M_scope.

(** [array.findIndex(p)] *)
Fixpoint findIndex {A : Type} (p : A -> bool) (l : list A) : option nat :=
  match l with
  | [] => None
  | x :: l' =>
      if p x then Some O
      else match findIndex p l' with
           | Some i => Some (S i)
           | None => None
           end
  end.

(** [array[i] = x] for an index inside the array. *)
Fixpoint assignAt {A : Type} (i : nat) (x : A) (l : list A) : list A :=
  match l, i with
  | [], _ => []
  | _ :: l', O => x :: l'
  | y :: l', S i' => y :: assignAt i' x l'
  end.

Local Open Scope M_scope.

Definition setBillableEvents (s : StorageData) (events : list BillableEvent)
  : StorageData :=
  {| clientPolicies := clientPolicies s;
     billableEvents := events;
     invoiceLinks := invoiceLinks s;
     auditLogs := auditLogs s |}.

Definition setInvoiceLinks (s : StorageData) (links : list InvoiceLink)
  : StorageData :=
  {| clientPolicies := clientPolicies s;
     billableEvents := billableEvents s;
     invoiceLinks := links;
     auditLogs := auditLogs s |}.

Definition setAuditLogs (s : StorageData) (logs : list AuditLog) : StorageData :=
  {| clientPolicies := clientPolicies s;
     billableEvents := billableEvents s;
     invoiceLinks := invoiceLinks s;
     auditLogs := logs |}.

Definition storage_getPolicyByClientId (clientId : string)
  : M (option ClientPolicy) :=
  fun s =>
    (Ok (find (fun p => String.eqb (cp_clientId p) clientId && cp_isActive p)
           (clientPolicies s)), s).

Definition storage_getEventById (id : string) : M (option BillableEvent) :=
  fun s => (Ok (find (fun e => String.eqb (ev_id e) id) (billableEvents s)), s).

Definition storage_getEventByIdempotencyKey (key : string)
  : M (option BillableEvent) :=
  fun s =>
    (Ok (find (fun e => String.eqb (ev_idempotencyKey e) key) (billableEvents s)), s).

Definition storage_idempotencyKeyExists (key : string) : M bool :=
  fun s =>
    (Ok (existsb (fun e => String.eqb (ev_idempotencyKey e) key) (billableEvents s)), s).

Definition storage_pushEvent (event : BillableEvent) : M unit :=
  fun s => (Ok tt, setBillableEvents s (billableEvents s ++ [event])%list).

Definition storage_saveEvent (event : BillableEvent) : M BillableEvent :=
  existing <- storage_getEventByIdempotencyKey (ev_idempotencyKey event) ;;
  match existing with
  | Some _ =>
      throw (PlainError ("Duplicate entry: idempotency key "
                         ++ ev_idempotencyKey event ++ " already exists"))
  | None =>
      storage_pushEvent event ;;;
      ret event
  end.

Definition storage_updateEvent (host : Host) (id : string)
  (updates : BillableEvent) : M BillableEvent :=
  fun s =>
    match findIndex (fun e => String.eqb (ev_id e) id) (billableEvents s) with
    | None => (Err (PlainError ("Billable event not found: " ++ id)), s)
    | Some index =>
        let updated := mergeEvent host updates in
        (Ok updated,
         setBillableEvents s (assignAt index updated (billableEvents s)))
    end.

Definition storage_getInvoiceLinkById (id : string) : M (option InvoiceLink) :=
  fun s => (Ok (find (fun l => String.eqb (il_id l) id) (invoiceLinks s)), s).

Definition storage_getOverdueInvoiceLinks (host : Host) : M (list InvoiceLink) :=
  fun s => (Ok (filter (isOverdue host) (invoiceLinks s)), s).

Definition storage_saveInvoiceLink (link : InvoiceLink) : M InvoiceLink :=
  fun s => (Ok link, setInvoiceLinks s (invoiceLinks s ++ [link])%list).

(** [{ ...stored, ...updates, updatedAt: new Date().toISOString() }] when
    [updates] carries every field. *)
Definition mergeLink (host : Host) (updates : InvoiceLink) : InvoiceLink :=
  withPaymentFields updates
    (il_totalPaid updates) (il_balance updates) (il_payments updates)
    (il_paidInFullDate updates) (il_qbStatus updates)
    (il_statusHistory updates) (il_lastSyncedAt updates) (host_now host).

Definition storage_updateInvoiceLink (host : Host) (id : string)
  (updates : InvoiceLink) : M InvoiceLink :=
  fun s =>
    match findIndex (fun l => String.eqb (il_id l) id) (invoiceLinks s) with
    | None => (Err (PlainError ("Invoice link not found: " ++ id)), s)
    | Some index =>
        let updated := mergeLink host updates in
        (Ok updated,
         setInvoiceLinks s (assignAt index updated (invoiceLinks s)))
    end.

Definition storage_saveAuditLog (log : AuditLog) : M AuditLog :=
  fun s => (Ok log, setAuditLogs s (auditLogs s ++ [log])%list).

(* ================================================================== *)
(** ** services/AuditService *)

Definition auditService_log (host : Host) (context : RequestContext)
  (action : AuditAction) (entityType : EntityType) (entityId : option string)
  : M AuditLog :=
  storage_saveAuditLog
    {| al_id := host_auditUuid host;
       al_action := action;
       al_entityType := entityType;
       al_entityId := entityId;
       al_userId := userId context;
       al_timestamp := host_now host |}.

Definition logEventCreate (host : Host) (context : RequestContext)
  (eventId : string) : M AuditLog :=
  auditService_log host context A_CREATE BILLABLE_EVENT (Some eventId).

Definition logEventApprove (host : Host) (context : RequestContext)
  (eventId : string) : M AuditLog :=
  auditService_log host context A_APPROVE BILLABLE_EVENT (Some eventId).

Definition logEventHold (host : Host) (context : RequestContext)
  (eventId : string) : M AuditLog :=
  auditService_log host context A_HOLD BILLABLE_EVENT (Some eventId).

Definition logPaymentRecord (host : Host) (context : RequestContext)
  (invoiceLinkId : string) : M AuditLog :=
  auditService_log host context A_PAYMENT_RECORD INVOICE_LINK (Some invoiceLinkId).

(* ================================================================== *)
(** ** services/IdempotencyService and services/BillableEventService *)

(** The argument of [createEvent]. *)
Record CreateEventInput : Type := {
  in_clientId : string;
  in_controlNumber : string;
  in_candidateEmail : option string;
  in_candidateName : option string;
  in_triggerDate : string;
  in_triggerType : string;
  in_feeType : string;
  in_amount : option Q;
  in_sourceData : option SourceData;
  in_notes : option string;
}.

Definition noPolicyError : AppError :=
  ValidationError "No active policy found for client"
    [("clientId", "No active billing policy")].

Definition noFeeError (feeType : string) : AppError :=
  ValidationError "Unable to calculate fee"
    [("feeType", "No fee rule found for " ++ feeType)].

Definition getEventById (id : string) : M BillableEvent :=
  event <- storage_getEventById id ;;
  match event with
  | None => throw (NotFoundError "BillableEvent" id)
  | Some event => ret event
  end.

Section BillableEventService.
Context {ext : External}.

Definition keyExists (key : string) : M bool :=
  storage_idempotencyKeyExists key.

Definition validateBeforeCreate (clientCode controlNumber : string)
  (triggerDate : TriggerDate) (feeType : string) : M string :=
  key <- liftResult (generateIdempotencyKey clientCode controlNumber
                       triggerDate feeType) ;;
  exists_ <- keyExists key ;;
  if exists_ : bool then throw (DuplicateError key) else ret key.

(** "Calculate fee if not provided" *)
Definition resolveAmount (policy : ClientPolicy) (input : CreateEventInput)
  : Result Q :=
  match in_amount input with
  | Some amount => Ok amount
  | None =>
      let salary := match in_sourceData input with
                    | Some sd => sd_salary sd
                    | None => None
                    end in
      match calculateFee policy (in_feeType input) salary with
      | None => Err (noFeeError (in_feeType input))
      | Some feeCalc => Ok (fee_amount feeCalc)
      end
  end.

Definition newEventOf (context : RequestContext) (policy : ClientPolicy)
  (input : CreateEventInput) (amount : Q) : NewEvent :=
  {| ne_clientId := in_clientId input;
     ne_clientCode := cp_clientCode policy;
     ne_clientName := cp_clientName policy;
     ne_controlNumber := in_controlNumber input;
     ne_candidateEmail := in_candidateEmail input;
     ne_candidateName := in_candidateName input;
     ne_triggerDate := in_triggerDate input;
     ne_triggerType := in_triggerType input;
     ne_feeType := in_feeType input;
     ne_amount := amount;
     ne_currency := cp_currency policy;
     ne_policyId := cp_id policy;
     ne_policyVersion := cp_version policy;
     ne_sourceData := in_sourceData input;
     ne_createdBy := userId context;
     ne_notes := in_notes input |}.

Definition createEvent (host : Host) (context : RequestContext)
  (input : CreateEventInput) : M BillableEvent :=
  policy <- storage_getPolicyByClientId (in_clientId input) ;;
  match policy with
  | None => throw noPolicyError
  | Some policy =>
      idempotencyKey <- validateBeforeCreate (cp_clientCode policy)
                          (in_controlNumber input)
                          (DateString (in_triggerDate input))
                          (in_feeType input) ;;
      amount <- liftResult (resolveAmount policy input) ;;
      event <- liftResult (createBillableEvent host
                             (newEventOf context policy input amount)) ;;
      storage_saveEvent event ;;;
      logEventCreate host context (ev_id event) ;;;
      ret event
  end.

End BillableEventService.

Definition approveEvent (host : Host) (context : RequestContext) (id : string)
  (notes : option string) : M BillableEvent :=
  event <- getEventById id ;;
  if negb (BillableEventStatus_eqb (ev_status event) EV_PENDING)
     && negb (BillableEventStatus_eqb (ev_status event) EV_HOLD)
  then
    throw (ValidationError "Event cannot be approved"
             [("status", "Current status is "
                         ++ BillableEventStatus_name (ev_status event)
                         ++ ", expected PENDING or HOLD")])
  else
    let updated := updateEventStatus host event EV_APPROVED (userId context) notes in
    let updated := setApproval updated (host_now host) (userId context) notes in
    storage_updateEvent host id updated ;;;
    logEventApprove host context id ;;;
    ret updated.

Definition holdEvent (host : Host) (context : RequestContext) (id : string)
  (reason : string) : M BillableEvent :=
  event <- getEventById id ;;
  if negb (BillableEventStatus_eqb (ev_status event) EV_PENDING)
     && negb (BillableEventStatus_eqb (ev_status event) EV_APPROVED)
  then
    throw (ValidationError "Event cannot be put on hold"
             [("status", "Current status is "
                         ++ BillableEventStatus_name (ev_status event))])
  else
    let updated := updateEventStatus host event EV_HOLD (userId context) (Some reason) in
    let updated := setHold updated reason (host_now host) (userId context) in
    storage_updateEvent host id updated ;;;
    logEventHold host context id ;;;
    ret updated.

Definition markAsInvoiced (host : Host) (context : RequestContext) (id : string)
  : M BillableEvent :=
  event <- getEventById id ;;
  if negb (BillableEventStatus_eqb (ev_status event) EV_APPROVED) then
    throw (ValidationError "Only approved events can be marked as invoiced"
             [("status", BillableEventStatus_name (ev_status event))])
  else
    let updated := updateEventStatus host event EV_INVOICED (userId context)
                     (Some "Invoice created in QuickBooks") in
    storage_updateEvent host id updated ;;;
    ret updated.

Definition markAsPaid (host : Host) (context : RequestContext) (id : string)
  : M BillableEvent :=
  event <- getEventById id ;;
  let updated := updateEventStatus host event EV_PAID (userId context)
                   (Some "Payment received") in
  storage_updateEvent host id updated ;;;
  ret updated.

(* ================================================================== *)
(** ** services/InvoiceService *)

Definition getInvoiceLinkById (id : string) : M InvoiceLink :=
  link <- storage_getInvoiceLinkById id ;;
  match link with
  | None => throw (NotFoundError "InvoiceLink" id)
  | Some link => ret link
  end.

Definition getOverdueInvoices (host : Host) : M (list InvoiceLink) :=
  storage_getOverdueInvoiceLinks host.

(** [Omit<PaymentRecord, 'syncedAt'>] *)
Record PaymentInput : Type := {
  pi_qbPaymentId : string;
  pi_paymentDate : string;
  pi_amount : Q;
  pi_currency : string;
}.

Definition paymentRecordOf (host : Host) (payment : PaymentInput) : PaymentRecord :=
  {| pay_qbPaymentId := pi_qbPaymentId payment;
     pay_paymentDate := pi_paymentDate payment;
     pay_amount := pi_amount payment;
     pay_currency := pi_currency payment;
     pay_syncedAt := host_now host |}.

Definition recordPaymentFromQb (host : Host) (context : RequestContext)
  (invoiceLinkId : string) (payment : PaymentInput) : M InvoiceLink :=
  invoiceLink <- getInvoiceLinkById invoiceLinkId ;;
  let paymentRecord := paymentRecordOf host payment in
  let updated := recordPayment host invoiceLink paymentRecord in
  storage_updateInvoiceLink host invoiceLinkId updated ;;;
  (if QBInvoiceStatus_eqb (il_qbStatus updated) QB_PAID
   then markAsPaid host context (il_billableEventId updated) ;;; ret tt
   else ret tt) ;;;
  logPaymentRecord host context invoiceLinkId ;;;
  ret updated.

Definition updateStatusFromQb (host : Host) (invoiceLinkId : string)
  (newStatus : QBInvoiceStatus) : M InvoiceLink :=
  invoiceLink <- getInvoiceLinkById invoiceLinkId ;;
  let now := host_now host in
  let updated :=
    withPaymentFields invoiceLink
      (il_totalPaid invoiceLink) (il_balance invoiceLink)
      (il_payments invoiceLink) (il_paidInFullDate invoiceLink)
      newStatus
      (il_statusHistory invoiceLink
       ++ [ {| ls_status := newStatus; ls_timestamp := now; ls_source := QB_SYNC |} ])%list
      now now in
  storage_updateInvoiceLink host invoiceLinkId updated ;;;
  ret updated.

(* ================================================================== *)
(** ** services/ReconciliationService *)

Inductive AgingBucket : Type := B_1_30 | B_31_60 | B_61_90 | B_90_PLUS.

Definition AgingBucket_name (b : AgingBucket) : string :=
  match b with
  | B_1_30 => "1-30" | B_31_60 => "31-60" | B_61_90 => "61-90"
  | B_90_PLUS => "90+"
  end.

Definition agingBucketOf (daysOverdue : Z) : AgingBucket :=
  if (daysOverdue <=? 30)%Z then B_1_30
  else if (daysOverdue <=? 60)%Z then B_31_60
  else if (daysOverdue <=? 90)%Z then B_61_90
  else B_90_PLUS.

Record AgingCell : Type := {
  ag_count : nat;
  ag_amount : Q;
}.

Record OverdueSummary : Type := {
  totalOverdue : Q;
  count : nat;
  byAging : AgingBucket -> AgingCell;
}.

Record OverdueRow : Type := {
  row_id : string;
  row_qbDocNumber : string;
  row_clientName : string;
  row_invoiceDate : string;
  row_dueDate : Z;
  row_amount : Q;
  row_balance : Q;
  row_currency : string;
  row_daysOverdue : Z;
  row_agingBucket : AgingBucket;
}.

Definition overdueRow (host : Host) (inv : InvoiceLink) : OverdueRow :=
  let daysOverdue := ceilDays host (il_dueDate inv) in
  {| row_id := il_id inv;
     row_qbDocNumber := il_qbDocNumber inv;
     row_clientName := il_qbCustomerName inv;
     row_invoiceDate := il_invoiceDate inv;
     row_dueDate := il_dueDate inv;
     row_amount := il_amount inv;
     row_balance := il_balance inv;
     row_currency := il_currency inv;
     row_daysOverdue := daysOverdue;
     row_agingBucket := agingBucketOf daysOverdue |}.

Definition AgingBucket_eqb (a b : AgingBucket) : bool :=
  match a, b with
  | B_1_30, B_1_30 | B_31_60, B_31_60 | B_61_90, B_61_90
  | B_90_PLUS, B_90_PLUS => true
  | _, _ => false
  end.

(** [summary.totalOverdue += inv.balance;
    summary.byAging[bucket].count++;
    summary.byAging[bucket].amount += inv.balance] *)
Definition addToSummary (summary : OverdueSummary) (row : OverdueRow)
  : OverdueSummary :=
  {| totalOverdue := totalOverdue summary + row_balance row;
     count := count summary;
     byAging := fun b =>
       if AgingBucket_eqb b (row_agingBucket row)
       then {| ag_count := S (ag_count (byAging summary b));
               ag_amount := ag_amount (byAging summary b) + row_balance row |}
       else byAging summary b |}.

Definition getOverdueReport (host : Host)
  : M (OverdueSummary * list OverdueRow) :=
  overdueInvoices <- getOverdueInvoices host ;;
  let summary :=
    {| totalOverdue := 0;
       count := List.length overdueInvoices;
       byAging := fun _ => {| ag_count := 0; ag_amount := 0 |} |} in
  let invoices := map (overdueRow host) overdueInvoices in
  ret (fold_left addToSummary invoices summary, invoices).

(** The bucket the report files a link under, if it lists the link. *)
Definition reportedBucket (host : Host) (inv : InvoiceLink) : option AgingBucket :=
  if isOverdue host inv then Some (row_agingBucket (overdueRow host inv))
  else None.

(* ================================================================== *)
(** ** [createEvent] between its [await]s

    Every storage method is [async], so a caller that [await]s one
    gives up control between the moment the method has read the store
    and the moment the caller looks at what it read.  A task is
    [createEvent] cut at those points: each constructor holds what the
    call has in its locals while it is suspended, and [stepCreate] runs
    it up to its next [await] that touches the store. *)

Inductive CreateTask : Type :=
(** not started *)
| T_start
(** [storage.getPolicyByClientId] has read the policies *)
| T_policy (policy : option ClientPolicy)
(** [storage.idempotencyKeyExists(key)] has read the events *)
| T_checked (policy : ClientPolicy) (key : string) (exists_ : bool)
(** inside [saveEvent]: [getEventByIdempotencyKey] has read the events *)
| T_saving (event : BillableEvent) (existing : option BillableEvent)
(** [saveEvent] has pushed and is writing the file *)
| T_saved (event : BillableEvent)
(** returned or thrown *)
| T_done (r : Result BillableEvent).

Section CreateTasks.
Context {ext : External}.

Definition stepCreate (host : Host) (context : RequestContext)
  (input : CreateEventInput) (t : CreateTask) (s : StorageData)
  : CreateTask * StorageData :=
  match t with
  | T_start =>
      match storage_getPolicyByClientId (in_clientId input) s with
      | (Ok policy, s') => (T_policy policy, s')
      | (Err e, s') => (T_done (Err e), s')
      end
  | T_policy None => (T_done (Err noPolicyError), s)
  | T_policy (Some policy) =>
      match generateIdempotencyKey (cp_clientCode policy)
              (in_controlNumber input) (DateString (in_triggerDate input))
              (in_feeType input) with
      | Err e => (T_done (Err e), s)
      | Ok key =>
          match storage_idempotencyKeyExists key s with
          | (Ok exists_, s') => (T_checked policy key exists_, s')
          | (Err e, s') => (T_done (Err e), s')
          end
      end
  | T_checked policy key exists_ =>
      if exists_ then (T_done (Err (DuplicateError key)), s)
      else
        match resolveAmount policy input with
        | Err e => (T_done (Err e), s)
        | Ok amount =>
            match createBillableEvent host
                    (newEventOf context policy input amount) with
            | Err e => (T_done (Err e), s)
            | Ok event =>
                match storage_getEventByIdempotencyKey
                        (ev_idempotencyKey event) s with
                | (Ok existing, s') => (T_saving event existing, s')
                | (Err e, s') => (T_done (Err e), s')
                end
            end
        end
  | T_saving event (Some _) =>
      (T_done (Err (PlainError ("Duplicate entry: idempotency key "
                                ++ ev_idempotencyKey event ++ " already exists"))), s)
  | T_saving event None =>
      match storage_pushEvent event s with
      | (Ok _, s') => (T_saved event, s')
      | (Err e, s') => (T_done (Err e), s')
      end
  | T_saved event =>
      match logEventCreate host context (ev_id event) s with
      | (Ok _, s') => (T_done (Ok event), s')
      | (Err e, s') => (T_done (Err e), s')
      end
  | T_done r => (T_done r, s)
  end.

(** One caller. *)
Record Caller : Type := {
  c_host : Host;
  c_context : RequestContext;
  c_input : CreateEventInput;
}.

(** A task run on its own, with nobody else touching the store. *)
Fixpoint runAlone (fuel : nat) (c : Caller) (t : CreateTask) (s : StorageData)
  : CreateTask * StorageData :=
  match fuel with
  | O => (t, s)
  | S fuel' =>
      let '(t', s') := stepCreate (c_host c) (c_context c) (c_input c) t s in
      runAlone fuel' c t' s'
  end.

Inductive Turn : Type := First | Second.

(** Two calls in flight; the schedule says whose turn each step is. *)
Fixpoint interleave (schedule : list Turn) (c1 c2 : Caller)
  (t1 t2 : CreateTask) (s : StorageData)
  : CreateTask * CreateTask * StorageData :=
  match schedule with
  | [] => (t1, t2, s)
  | First :: schedule' =>
      let '(t1', s') := stepCreate (c_host c1) (c_context c1) (c_input c1) t1 s in
      interleave schedule' c1 c2 t1' t2 s'
  | Second :: schedule' =>
      let '(t2', s') := stepCreate (c_host c2) (c_context c2) (c_input c2) t2 s in
      interleave schedule' c1 c2 t1 t2' s'
  end.

(** The key a call derives: the policy's client code with the
    input's control number, trigger date and fee type. *)
Definition derivedKey (s : StorageData) (input : CreateEventInput)
  : option string :=
  match find (fun p => String.eqb (cp_clientId p) (in_clientId input)
                       && cp_isActive p) (clientPolicies s) with
  | None => None
  | Some policy =>
      match generateIdempotencyKey (cp_clientCode policy)
              (in_controlNumber input) (DateString (in_triggerDate input))
              (in_feeType input) with
      | Ok key => Some key
      | Err _ => None
      end
  end.

End CreateTasks.

(** No two persisted events share an idempotency key. *)
Definition uniqueKeys (s : StorageData) : Prop :=
  NoDup (map ev_idempotencyKey (billableEvents s)).

(** Payments applied one after the other to a link, each call with the
    clock it ran under. *)
Definition applyPayments (link : InvoiceLink)
  (calls : list (Host * PaymentRecord)) : InvoiceLink :=
  fold_left (fun l call => recordPayment (fst call) l (snd call)) calls link.

(* ================================================================== *)
(** ** The rest of services/BillableEventService *)

(** An element of the array handed to [bulkCreateFromSmartsheet]: a
    trigger carries neither an amount nor notes. *)
Record Placement : Type := {
  pl_clientId : string;
  pl_controlNumber : string;
  pl_candidateEmail : option string;
  pl_candidateName : option string;
  pl_triggerDate : string;
  pl_triggerType : string;
  pl_feeType : string;
  pl_sourceData : option SourceData;
}.

Definition inputOfPlacement (p : Placement) : CreateEventInput :=
  {| in_clientId := pl_clientId p;
     in_controlNumber := pl_controlNumber p;
     in_candidateEmail := pl_candidateEmail p;
     in_candidateName := pl_candidateName p;
     in_triggerDate := pl_triggerDate p;
     in_triggerType := pl_triggerType p;
     in_feeType := pl_feeType p;
     in_amount := None;
     in_sourceData := pl_sourceData p;
     in_notes := None |}.

Record DuplicateEntry : Type := {
  dup_controlNumber : string;
  dup_idempotencyKey : string;
}.

Record ErrorEntry : Type := {
  err_controlNumber : string;
  err_error : string;
}.

Record BulkResult : Type := {
  created : list BillableEvent;
  duplicates : list DuplicateEntry;
  errors : list ErrorEntry;
}.

Section BulkCreate.
Context {ext : External}.
(** The text zod gives a [ZodError] for the field it rejects. *)
Variable zodMessage : string -> string.

(** [error.message] *)
Definition errorMessage (e : AppError) : string :=
  match e with
  | ValidationError message _ => message
  | NotFoundError resource identifier => resource ++ " not found: " ++ identifier
  | DuplicateError key =>
      "Duplicate entry detected with idempotency key: " ++ key
  | RangeError message => message
  | ZodError path => zodMessage path
  | PlainError message => message
  end.

(** One turn of the [for] loop: [try { createEvent } catch { ... }].
    Each turn runs under its own reading of the clock and of
    [randomUUID]. *)
Definition bulkStep (context : RequestContext)
  (acc : BulkResult * StorageData) (turn : Host * Placement)
  : BulkResult * StorageData :=
  let '(result, s) := acc in
  let '(host, placement) := turn in
  match createEvent host context (inputOfPlacement placement) s with
  | (Ok event, s') =>
      ({| created := (created result ++ [event])%list;
          duplicates := duplicates result;
          errors := errors result |}, s')
  | (Err (DuplicateError key), s') =>
      ({| created := created result;
          duplicates :=
            (duplicates result
             ++ [ {| dup_controlNumber := pl_controlNumber placement;
                     dup_idempotencyKey := key |} ])%list;
          errors := errors result |}, s')
  | (Err error, s') =>
      ({| created := created result;
          duplicates := duplicates result;
          errors :=
            (errors result
             ++ [ {| err_controlNumber := pl_controlNumber placement;
                     err_error := errorMessage error |} ])%list |}, s')
  end.

Definition bulkCreateFromSmartsheet (context : RequestContext)
  (placements : list (Host * Placement)) (s : StorageData)
  : BulkResult * StorageData :=
  fold_left (bulkStep context) placements
    ({| created := []; duplicates := []; errors := [] |}, s).

End BulkCreate.

(** [IdempotencyService.checkBulkKeys]: the loop that collects the keys
    already in the store. *)
Fixpoint checkBulkKeysFrom (keys : list string) (existingKeys : list string)
  (s : StorageData) : list string :=
  match keys with
  | [] => existingKeys
  | key :: keys' =>
      match storage_idempotencyKeyExists key s with
      | (Ok true, _) => checkBulkKeysFrom keys' (existingKeys ++ [key])%list s
      | _ => checkBulkKeysFrom keys' existingKeys s
      end
  end.

Definition checkBulkKeys (keys : list string) : M (list string) :=
  fun s => (Ok (checkBulkKeysFrom keys [] s), s).

(* ================================================================== *)
(** ** The QuickBooks memo (services/IdempotencyService) *)

Definition newline : string := String (ascii_of_nat 10) EmptyString.

(** [s.replace(/a/g, b)] for single characters. *)
Fixpoint replaceChar (a b : ascii) (s : string) : string :=
  match s with
  | EmptyString => EmptyString
  | String c s' =>
      String (if Ascii.eqb c a then b else c) (replaceChar a b s')
  end.

Definition generateQbMemo (key : string) (additionalNotes : option string)
  : string :=
  let memoLines := [ "[IDEMPOTENCY_KEY: " ++ key ++ "]" ] in
  let memoLines :=
    match parseIdempotencyKey key with
    | Some parsed =>
        List.app memoLines
          [ "Control #: " ++ kp_controlNumber parsed;
            "Fee Type: " ++ replaceChar "_" " " (kp_feeType parsed) ]
    | None => memoLines
    end in
  let memoLines :=
    match additionalNotes with
    | Some notes =>
        if nonEmpty notes then List.app memoLines [ EmptyString; notes ]
        else memoLines
    | None => memoLines
    end in
  String.concat newline memoLines.

(** [\s] and the characters [trim] removes, within ASCII. *)
Definition isSpace (c : ascii) : bool :=
  ((9 <=? nat_of_ascii c)%nat && (nat_of_ascii c <=? 13)%nat)
  || Ascii.eqb c " ".

(** A character of the ASCII range, where [\s] and [trim] are as
    [isSpace] has them. *)
Definition isAscii (c : ascii) : bool := (nat_of_ascii c <? 128)%nat.

(** [[^\]]] *)
Definition notCloseBracket (c : ascii) : bool := negb (Ascii.eqb c "]").

(** A literal at the head of the string. *)
Fixpoint afterLiteral (lit s : string) : option string :=
  match lit with
  | EmptyString => Some s
  | String c lit' =>
      match s with
      | EmptyString => None
      | String c' s' => if Ascii.eqb c' c then afterLiteral lit' s' else None
      end
  end.

(** A greedy [ [cls]* ] outside any group. *)
Fixpoint greedyStar (cls : ascii -> bool) (k : string -> option (list string))
  (s : string) : option (list string) :=
  match s with
  | EmptyString => k s
  | String c s' =>
      if cls c then
        match greedyStar cls k s' with
        | Some r => Some r
        | None => k s
        end
      else k s
  end.

(** [/\[IDEMPOTENCY_KEY:\s*([^\]]+)\]/] tried at the head of the string. *)
Definition memoKeyHere (s : string) : option (list string) :=
  match afterLiteral "[IDEMPOTENCY_KEY:" s with
  | None => None
  | Some rest =>
      greedyStar isSpace
        (greedyPlus notCloseBracket
           (fun r => match afterLiteral "]" r with
                     | Some _ => Some []
                     | None => None
                     end)
           EmptyString)
        rest
  end.

(** The expression is not anchored: the engine tries every start, left
    to right. *)
Fixpoint memoKeySearch (s : string) : option (list string) :=
  match memoKeyHere s with
  | Some r => Some r
  | None =>
      match s with
      | EmptyString => None
      | String _ s' => memoKeySearch s'
      end
  end.

Fixpoint trimStart (s : string) : string :=
  match s with
  | EmptyString => EmptyString
  | String c s' => if isSpace c then trimStart s' else s
  end.

Fixpoint trimEnd (s : string) : string :=
  match s with
  | EmptyString => EmptyString
  | String c s' =>
      let t := trimEnd s' in
      if isSpace c && negb (nonEmpty t) then EmptyString else String c t
  end.

Definition trim (s : string) : string := trimEnd (trimStart s).

Definition extractKeyFromQbMemo (memo : string) : option string :=
  match memoKeySearch memo with
  | Some (key :: _) => Some (trim key)
  | _ => None
  end.

(* ================================================================== *)
(** ** utils/validators *)

(** [/^[cls]{lo,hi}$/.test(s)] *)
Definition testBounded (cls : ascii -> bool) (lo hi : nat) (s : string) : bool :=
  allChars cls s
  && (lo <=? String.length s)%nat && (String.length s <=? hi)%nat.

Definition isValidClientCode (code : string) : bool :=
  testBounded isUpperAlnum 2 20 (toUpperCase code).

Definition isValidControlNumber (controlNumber : string) : bool :=
  testBounded isKeyChar 3 50 controlNumber.

Definition isValidFeeType (type : string) : bool := memberOf FeeType type.

Definition isValidCurrency (code : string) : bool := memberOf CurrencyCode code.

(* ================================================================== *)
(** ** Creating an invoice (services/InvoiceService)

    [createQbInvoiceStub] stands in for the call to QuickBooks and
    fills its answer from the clock; the answer is taken as it comes. *)

Record AppConfig : Type := {
  cfg_phase : nat;
  cfg_enableQbWrite : bool;
  cfg_enableReconciliation : bool;
}.

(** [PhaseRestrictionError] *)
Record PhaseRestriction : Type := {
  pr_feature : string;
  pr_requiredPhase : nat;
  pr_currentPhase : nat;
}.

Definition checkPhaseForWrite (config : AppConfig) : option PhaseRestriction :=
  if cfg_enableQbWrite config then None
  else Some {| pr_feature := "QuickBooks invoice creation";
               pr_requiredPhase := 2;
               pr_currentPhase := cfg_phase config |}.

(** What QuickBooks answers to the creation of an invoice. *)
Record QbInvoice : Type := {
  qb_id : string;
  qb_docNumber : string;
  qb_invoiceDate : string;
  qb_dueDate : Z;
  qb_customerId : string;
  qb_customerName : string;
}.

Definition storage_getInvoiceLinkByEventId (billableEventId : string)
  : M (option InvoiceLink) :=
  fun s =>
    (Ok (find (fun l => String.eqb (il_billableEventId l) billableEventId)
           (invoiceLinks s)), s).

Definition logInvoiceCreate (host : Host) (context : RequestContext)
  (invoiceLinkId : string) : M AuditLog :=
  auditService_log host context A_INVOICE_CREATE INVOICE_LINK (Some invoiceLinkId).

Definition newLinkOf (context : RequestContext) (event : BillableEvent)
  (qbInvoice : QbInvoice) : NewLink :=
  {| nl_billableEventId := ev_id event;
     nl_idempotencyKey := ev_idempotencyKey event;
     nl_qbInvoiceId := qb_id qbInvoice;
     nl_qbDocNumber := qb_docNumber qbInvoice;
     nl_invoiceDate := qb_invoiceDate qbInvoice;
     nl_dueDate := qb_dueDate qbInvoice;
     nl_amount := ev_amount event;
     nl_currency := ev_currency event;
     nl_qbCustomerId := qb_customerId qbInvoice;
     nl_qbCustomerName := qb_customerName qbInvoice;
     nl_createdBy := userId context |}.

Section CreateInvoice.
(** [z.string().uuid()], as the installed zod decides it.  The ids the
    runtime hands out are taken to pass it; the id of an event read
    from the store is checked when it becomes the [billableEventId] of
    a link. *)
Variable zod_uuid : string -> bool.

(** The part of [createInvoice] after the phase check;
    [InvoiceLinkSchema.parse] can still refuse the id of the event or
    the currency. *)
Definition createInvoiceAllowed (host : Host) (context : RequestContext)
  (qbInvoice : QbInvoice) (billableEventId : string) : M InvoiceLink :=
  event <- getEventById billableEventId ;;
  if negb (BillableEventStatus_eqb (ev_status event) EV_APPROVED) then
    throw (ValidationError "Only approved events can be invoiced"
             [("status", "Current status is "
                         ++ BillableEventStatus_name (ev_status event))])
  else
    existingLink <- storage_getInvoiceLinkByEventId billableEventId ;;
    match existingLink with
    | Some existing =>
        throw (ValidationError "Invoice already exists for this event"
                 [("invoiceLinkId", il_id existing);
                  ("qbDocNumber", il_qbDocNumber existing)])
    | None =>
        if negb (zod_uuid (ev_id event)) then
          throw (ZodError "billableEventId")
        else if negb (memberOf CurrencyCode (ev_currency event)) then
          throw (ZodError "currency")
        else
          let invoiceLink :=
            createInvoiceLink host (newLinkOf context event qbInvoice) in
          storage_saveInvoiceLink invoiceLink ;;;
          markAsInvoiced host context billableEventId ;;;
          logInvoiceCreate host context (il_id invoiceLink) ;;;
          ret invoiceLink
    end.

Definition createInvoice (config : AppConfig) (host : Host)
  (context : RequestContext) (qbInvoice : QbInvoice) (billableEventId : string)
  (s : StorageData) : (PhaseRestriction + Result InvoiceLink) * StorageData :=
  match checkPhaseForWrite config with
  | Some restriction => (inl restriction, s)
  | None =>
      let '(r, s') :=
        createInvoiceAllowed host context qbInvoice billableEventId s in
      (inr r, s')
  end.

End CreateInvoice.

(** The shape of a UUID as text: 8-4-4-4-12 hexadecimal digits. *)
Definition isHex (c : ascii) : bool :=
  isDigit c
  || ((97 <=? nat_of_ascii c)%nat && (nat_of_ascii c <=? 102)%nat)
  || ((65 <=? nat_of_ascii c)%nat && (nat_of_ascii c <=? 70)%nat).

Definition uuidShape (s : string) : bool :=
  match matchPieces
          [ PTimes 8 isHex; PLit "-"; PTimes 4 isHex; PLit "-";
            PTimes 4 isHex; PLit "-"; PTimes 4 isHex; PLit "-";
            PTimes 12 isHex ] s with
  | Some _ => true
  | None => false
  end.

(** At most one invoice link per billable event. *)
Definition oneLinkPerEvent (s : StorageData) : Prop :=
  NoDup (map il_billableEventId (invoiceLinks s)).

(** The last entry of the history is the status the event is in. *)
Definition historyTracksStatus (e : BillableEvent) : Prop :=
  option_map se_status (last (map Some (ev_statusHistory e)) None)
  = Some (ev_status e).

(** The events of [s'] are those of [s], one for one, under the same
    ids and idempotency keys; policies and invoice links are the same. *)
Definition sameEventKeys (s s' : StorageData) : Prop :=
  map ev_id (billableEvents s') = map ev_id (billableEvents s)
  /\ map ev_idempotencyKey (billableEvents s')
     = map ev_idempotencyKey (billableEvents s)
  /\ clientPolicies s' = clientPolicies s
  /\ invoiceLinks s' = invoiceLinks s.

(** What each of the four transitions leaves in place, whatever its
    outcome. *)
Definition keepsLedger (op : M BillableEvent) : Prop :=
  forall s,
    sameEventKeys s (snd (op s))
    /\ (isOk (fst (op s)) = false -> snd (op s) = s)
    /\ (Forall historyTracksStatus (billableEvents s) ->
        Forall historyTracksStatus (billableEvents (snd (op s)))).

(* ================================================================== *)
(** ** Listing events (services/BillableEventService) *)

Definition storage_getEventsByStatus (status : BillableEventStatus)
  : M (list BillableEvent) :=
  fun s =>
    (Ok (filter (fun e => BillableEventStatus_eqb (ev_status e) status)
           (billableEvents s)), s).

Definition getEventsByStatus (status : BillableEventStatus)
  : M (list BillableEvent) :=
  storage_getEventsByStatus status.

Definition getPendingEvents : M (list BillableEvent) :=
  getEventsByStatus EV_PENDING.

Definition getApprovedEvents : M (list BillableEvent) :=
  getEventsByStatus EV_APPROVED.

(** A row of the ready-to-invoice list. *)
Record ReadyRow : Type := {
  rr_id : string;
  rr_idempotencyKey : string;
  rr_clientCode : string;
  rr_clientName : string;
  rr_controlNumber : string;
  rr_candidateName : string;
  rr_triggerDate : string;
  rr_feeType : string;
  rr_amount : Q;
  rr_currency : string;
  rr_status : BillableEventStatus;
  rr_createdAt : string;
  rr_canApprove : bool;
}.

Definition readyRow (event : BillableEvent) : ReadyRow :=
  {| rr_id := ev_id event;
     rr_idempotencyKey := ev_idempotencyKey event;
     rr_clientCode := ev_clientCode event;
     rr_clientName := ev_clientName event;
     rr_controlNumber := ev_controlNumber event;
     rr_candidateName :=
       match ev_candidateName event with
       | Some name => if nonEmpty name then name else "N/A"
       | None => "N/A"
       end;
     rr_triggerDate := ev_triggerDate event;
     rr_feeType := replaceChar "_" " " (ev_feeType event);
     rr_amount := ev_amount event;
     rr_currency := ev_currency event;
     rr_status := ev_status event;
     rr_createdAt := ev_createdAt event;
     rr_canApprove := BillableEventStatus_eqb (ev_status event) EV_PENDING |}.

Definition getReadyToInvoiceList : M (list ReadyRow) :=
  events <- getPendingEvents ;;
  ret (map readyRow events).

(** No two persisted events share an id. *)
Definition uniqueIds (s : StorageData) : Prop :=
  NoDup (map ev_id (billableEvents s)).

(* ================================================================== *)
(** ** The calendar of the host (JS [Date], date-fns [format])

    [generateIdempotencyKey] reads a trigger date given as text with
    [new Date(s)] and prints it with [format(d, 'yyyyMMdd')].  A date
    without time, [YYYY-MM-DD], is read as midnight UTC of that day;
    [format] prints the calendar day the host's time zone has at that
    instant. *)

Record CivilDate : Type := {
  cd_year : Z;
  cd_month : nat;   (* 1 to 12 *)
  cd_day : nat;     (* 1 to 31 *)
}.

Definition isLeapYear (year : Z) : bool :=
  ((year mod 4 =? 0) && negb (year mod 100 =? 0) || (year mod 400 =? 0))%Z.

Definition daysInMonth (year : Z) (month : nat) : nat :=
  match month with
  | 1 | 3 | 5 | 7 | 8 | 10 | 12 => 31
  | 4 | 6 | 9 | 11 => 30
  | 2 => if isLeapYear year then 29 else 28
  | _ => 0
  end%nat.

Definition previousDay (c : CivilDate) : CivilDate :=
  if (1 <? cd_day c)%nat
  then {| cd_year := cd_year c; cd_month := cd_month c;
          cd_day := cd_day c - 1 |}
  else if (1 <? cd_month c)%nat
  then {| cd_year := cd_year c; cd_month := cd_month c - 1;
          cd_day := daysInMonth (cd_year c) (cd_month c - 1) |}
  else {| cd_year := cd_year c - 1; cd_month := 12; cd_day := 31 |}.

Definition nextDay (c : CivilDate) : CivilDate :=
  if (cd_day c <? daysInMonth (cd_year c) (cd_month c))%nat
  then {| cd_year := cd_year c; cd_month := cd_month c;
          cd_day := cd_day c + 1 |}
  else if (cd_month c <? 12)%nat
  then {| cd_year := cd_year c; cd_month := cd_month c + 1; cd_day := 1 |}
  else {| cd_year := cd_year c + 1; cd_month := 1; cd_day := 1 |}.

Definition shiftDays (days : Z) (c : CivilDate) : CivilDate :=
  if (days <? 0)%Z then Z.iter (- days) previousDay c
  else Z.iter days nextDay c.

(** A point in time, as a JS [Date] holds it: the calendar day it falls
    on in UTC and the milliseconds since that day began. *)
Record JsTime : Type := {
  utcDay : CivilDate;
  msOfDay : Z;      (* 0 <= msOfDay < msPerDay *)
}.

(** The day [getFullYear], [getMonth] and [getDate] report on a host
    whose zone is [offsetMinutes] ahead of UTC at that time. *)
Definition localDay (offsetMinutes : Z) (t : JsTime) : CivilDate :=
  shiftDays ((msOfDay t + offsetMinutes * 60000) / msPerDay)%Z (utcDay t).

Definition digitChar (n : Z) : ascii := ascii_of_nat (48 + Z.to_nat n).

(** [String(n)] for a natural number. *)
Fixpoint decimalText (fuel : nat) (n : Z) (acc : string) : string :=
  match fuel with
  | O => acc
  | S fuel' =>
      let acc' := String (digitChar (n mod 10)) acc in
      if (n <? 10)%Z then acc' else decimalText fuel' (n / 10)%Z acc'
  end.

Definition numberToString (n : Z) : string :=
  decimalText (S (Z.to_nat (Z.log2 n))) n EmptyString.

Fixpoint zeros (n : nat) : string :=
  match n with
  | O => EmptyString
  | S n' => String "0" (zeros n')
  end.

(** [s.padStart(targetLength, '0')] *)
Definition padStart (targetLength : nat) (s : string) : string :=
  zeros (targetLength - String.length s) ++ s.

(** date-fns [addLeadingZeros] *)
Definition addLeadingZeros (number : Z) (targetLength : nat) : string :=
  (if (number <? 0)%Z then "-" else EmptyString)
  ++ padStart targetLength (numberToString (Z.abs number)).

(** [format(d, 'yyyyMMdd')] on the local day of [d]: the token [yyyy]
    prints the year of the era, [1 - year] for the years up to 0. *)
Definition yyyyMMdd (c : CivilDate) : string :=
  let signedYear := cd_year c in
  let year := if (0 <? signedYear)%Z then signedYear else (1 - signedYear)%Z in
  addLeadingZeros year 4
  ++ addLeadingZeros (Z.of_nat (cd_month c)) 2
  ++ addLeadingZeros (Z.of_nat (cd_day c)) 2.

Fixpoint digitsValue (s : string) (acc : Z) : Z :=
  match s with
  | EmptyString => acc
  | String c s' => digitsValue s' (acc * 10 + Z.of_nat (nat_of_ascii c - 48))%Z
  end.

(** The date-only form [YYYY-MM-DD] of the ISO format, for a day that
    exists in its month. *)
Definition parseIsoDay (s : string) : option CivilDate :=
  let y := slice 0 4 s in
  let m := slice 5 7 s in
  let d := slice 8 10 s in
  if (String.length s =? 10)%nat && allChars isDigit y
     && String.eqb (slice 4 5 s) "-" && String.eqb (slice 7 8 s) "-"
  then
    match twoDigits m, twoDigits d with
    | Some month, Some day =>
        let year := digitsValue y 0 in
        if (1 <=? month)%nat && (month <=? 12)%nat && (1 <=? day)%nat
           && (day <=? daysInMonth year month)%nat
        then Some {| cd_year := year; cd_month := month; cd_day := day |}
        else None
    | _, _ => None
    end
  else None.

(** A host by its time zone: [zoneOffset t] is the number of minutes
    the zone is ahead of UTC at [t], negative to the west.  Text in the
    date-only form is read as midnight UTC; what [new Date] makes of
    any other text is left to [otherText], [None] standing for an
    Invalid Date, on which [format] throws. *)
Definition hostExternal (zoneOffset : JsTime -> Z)
  (otherText : string -> option JsTime) (email : string -> bool) : External := {|
  JsDate := option JsTime;
  Date_of_string := fun s =>
    match parseIsoDay s with
    | Some day => Some {| utcDay := day; msOfDay := 0 |}
    | None => otherText s
    end;
  format_yyyyMMdd :=
    option_map (fun t => yyyyMMdd (localDay (zoneOffset t) t));
  zod_email := email;
|}.

(* ================================================================== *)
(** ** Sample data

    A client with a percentage rule, a fixed rule and a tiered rule,
    and the stores the worked examples run on. *)

Definition percentageRule : FeeRule :=
  {| fr_feeType := "PLACEMENT_FEE";
     fr_calculationType := PERCENTAGE;
     fr_value := 15;
     fr_minimumFee := Some 100;
     fr_maximumFee := Some 2000;
     fr_tiers := None |}.

Definition fixedRule : FeeRule :=
  {| fr_feeType := "ONBOARD_FEE";
     fr_calculationType := FIXED;
     fr_value := 500;
     fr_minimumFee := None;
     fr_maximumFee := None;
     fr_tiers := None |}.

Definition lowTier : FeeTier :=
  {| fromAmount := 0; toAmount := Some 1000;
     tier_value := 100; tier_calculationType := TIER_FIXED |}.

Definition highTier : FeeTier :=
  {| fromAmount := 1000; toAmount := None;
     tier_value := 20; tier_calculationType := TIER_PERCENTAGE |}.

Definition tieredRule : FeeRule :=
  {| fr_feeType := "EXTENSION_FEE";
     fr_calculationType := TIERED;
     fr_value := 0;
     fr_minimumFee := None;
     fr_maximumFee := None;
     fr_tiers := Some [lowTier; highTier] |}.

Definition acmePolicy : ClientPolicy :=
  {| cp_id := "7d0e1c1e-0000-4000-8000-00000000000a";
     cp_clientId := "client-acme";
     cp_clientCode := "acme";
     cp_clientName := "Acme Shipping";
     cp_version := 1;
     cp_triggerRule := ON_PLACEMENT;
     cp_feeRules := [percentageRule; fixedRule; tieredRule];
     cp_paymentTermsDays := 30;
     cp_currency := "USD";
     cp_isActive := true |}.

Definition acmeStore : StorageData :=
  {| clientPolicies := [acmePolicy];
     billableEvents := [];
     invoiceLinks := [];
     auditLogs := [] |}.

Definition alice : RequestContext :=
  {| userId := "alice"; userName := None; userEmail := None |}.

Definition hostAt (now : string) (nowMs : Z) (uuid auditUuid : string) : Host :=
  {| host_now := now; host_nowMs := nowMs;
     host_uuid := uuid; host_auditUuid := auditUuid |}.

Definition host1 : Host :=
  hostAt "2024-01-15T10:00:00.000Z" 1705312800000
    "11111111-1111-4111-8111-111111111111"
    "a1111111-1111-4111-8111-111111111111".

Definition host2 : Host :=
  hostAt "2024-01-15T10:00:01.000Z" 1705312801000
    "22222222-2222-4222-8222-222222222222"
    "a2222222-2222-4222-8222-222222222222".

Definition host3 : Host :=
  hostAt "2024-01-16T09:00:00.000Z" 1705395600000
    "33333333-3333-4333-8333-333333333333"
    "a3333333-3333-4333-8333-333333333333".

Definition host4 : Host :=
  hostAt "2024-01-17T09:00:00.000Z" 1705482000000
    "44444444-4444-4444-8444-444444444444"
    "a4444444-4444-4444-8444-444444444444".

Definition placement : CreateEventInput :=
  {| in_clientId := "client-acme";
     in_controlNumber := "PL-12345";
     in_candidateEmail := None;
     in_candidateName := Some "Sam Sailor";
     in_triggerDate := "2023-12-15";
     in_triggerType := "ON_PLACEMENT";
     in_feeType := "ONBOARD_FEE";
     in_amount := Some 1000;
     in_sourceData := None;
     in_notes := None |}.

(** The same placement as it arrives a second time, typed differently. *)
Definition placementAgain : CreateEventInput :=
  {| in_clientId := "client-acme";
     in_controlNumber := "pl-12345 ";
     in_candidateEmail := None;
     in_candidateName := Some "S. Sailor";
     in_triggerDate := "2023-12-15";
     in_triggerType := "ON_PLACEMENT";
     in_feeType := "ONBOARD_FEE";
     in_amount := None;
     in_sourceData := None;
     in_notes := None |}.

Definition caller1 : Caller :=
  {| c_host := host1; c_context := alice; c_input := placement |}.

Definition caller2 : Caller :=
  {| c_host := host2; c_context := alice; c_input := placementAgain |}.

(** Both calls take one step in turn until both have finished. *)
Definition lockstep : list Turn :=
  [First; Second; First; Second; First; Second; First; Second; First; Second].

(** An invoice of 500 USD that fell due 45 days before [host1]'s clock. *)
Definition dueLink : InvoiceLink :=
  createInvoiceLink
    (hostAt "2023-11-01T10:00:00.000Z" 1698832800000
       "55555555-5555-4555-8555-555555555555"
       "a5555555-5555-4555-8555-555555555555")
    {| nl_billableEventId := "11111111-1111-4111-8111-111111111111";
       nl_idempotencyKey := "ACME-PL-12345-20231215-ONBOARD_FEE";
       nl_qbInvoiceId := "QB-INV-0";
       nl_qbDocNumber := "INV-000000";
       nl_invoiceDate := "2023-11-01";
       nl_dueDate := 1701424800000;
       nl_amount := 500;
       nl_currency := "USD";
       nl_qbCustomerId := "QB-CUST-client-acme";
       nl_qbCustomerName := "Acme Shipping";
       nl_createdBy := "alice" |}.

(** The same invoice after the accounting system reported it PAID
    through [updateStatusFromQb], no payment having been recorded. *)
Definition paidStatusLink : InvoiceLink :=
  Eval vm_compute in
    match updateStatusFromQb host1 (il_id dueLink) QB_PAID
            (setInvoiceLinks acmeStore [dueLink]) with
    | (Ok link, _) => link
    | (Err _, _) => dueLink
    end.

(** The store after the placement above was created. *)
Definition pendingStore : StorageData :=
  Eval vm_compute in snd (createEvent host1 alice placement acmeStore).

(** The invoice for the placement above: 1000 USD, due 2024-02-14. *)
Definition openLink : InvoiceLink :=
  createInvoiceLink host3
    {| nl_billableEventId := host_uuid host1;
       nl_idempotencyKey := "ACME-PL-12345-20231215-ONBOARD_FEE";
       nl_qbInvoiceId := "QB-INV-1";
       nl_qbDocNumber := "INV-000001";
       nl_invoiceDate := "2024-01-16";
       nl_dueDate := 1707868800000;
       nl_amount := 1000;
       nl_currency := "USD";
       nl_qbCustomerId := "QB-CUST-client-acme";
       nl_qbCustomerName := "Acme Shipping";
       nl_createdBy := "alice" |}.

(** The store after the placement was created, approved and invoiced. *)
Definition invoicedStore : StorageData :=
  Eval vm_compute in
    let '(_, s2) := approveEvent host2 alice (host_uuid host1) None pendingStore in
    let '(_, s3) := storage_saveInvoiceLink openLink s2 in
    snd (markAsInvoiced host3 alice (host_uuid host1) s3).

(** A reversal booked as a payment of -100. *)
Definition reversal100 : PaymentRecord :=
  {| pay_qbPaymentId := "PAY-3"; pay_paymentDate := "2024-02-02";
     pay_amount := -100; pay_currency := "USD";
     pay_syncedAt := "2024-02-02T08:00:00.000Z" |}.

Definition payment400 : PaymentInput :=
  {| pi_qbPaymentId := "PAY-1"; pi_paymentDate := "2024-01-20";
     pi_amount := 400; pi_currency := "USD" |}.

Definition payment600 : PaymentInput :=
  {| pi_qbPaymentId := "PAY-2"; pi_paymentDate := "2024-02-01";
     pi_amount := 600; pi_currency := "USD" |}.

(** The store after the placement was approved. *)
Definition approvedStore : StorageData :=
  Eval vm_compute in
    snd (approveEvent host2 alice (host_uuid host1) None pendingStore).

Definition trigger (controlNumber feeType : string) : Placement :=
  {| pl_clientId := "client-acme";
     pl_controlNumber := controlNumber;
     pl_candidateEmail := None;
     pl_candidateName := None;
     pl_triggerDate := "2023-12-15";
     pl_triggerType := "ON_PLACEMENT";
     pl_feeType := feeType;
     pl_sourceData := None |}.

(** Five triggers: the third repeats the first, the fourth asks for a
    percentage fee without a salary to take it from. *)
Definition batch : list (Host * Placement) :=
  [ (host1, trigger "PL-20001" "ONBOARD_FEE");
    (host2, trigger "PL-20002" "ONBOARD_FEE");
    (host3, trigger "pl-20001" "ONBOARD_FEE");
    (host4, trigger "PL-20003" "PLACEMENT_FEE");
    (hostAt "2024-01-18T09:00:00.000Z" 1705568400000
       "66666666-6666-4666-8666-666666666666"
       "a6666666-6666-4666-8666-666666666666",
     trigger "PL-20004" "ONBOARD_FEE") ].

Definition phase2 : AppConfig :=
  {| cfg_phase := 2; cfg_enableQbWrite := true; cfg_enableReconciliation := false |}.

Definition phase1 : AppConfig :=
  {| cfg_phase := 1; cfg_enableQbWrite := false; cfg_enableReconciliation := false |}.

Definition qbAnswer : QbInvoice :=
  {| qb_id := "QB-INV-1705395600000";
     qb_docNumber := "INV-600000";
     qb_invoiceDate := "2024-01-16";
     qb_dueDate := 1707955200000;
     qb_customerId := "QB-CUST-client-acme";
     qb_customerName := "Acme Shipping" |}.

(** A host on UTC and one five hours behind it, as America/New_York is
    in winter. *)
Definition utcZone : JsTime -> Z := fun _ => 0%Z.
Definition newYorkWinter : JsTime -> Z := fun _ => (-300)%Z.
Definition utcHost : External := hostExternal utcZone (fun _ => None) simpleEmail.
Definition newYorkHost : External :=
  hostExternal newYorkWinter (fun _ => None) simpleEmail.

(* ================================================================== *)
(** * Properties *)

(** ** Characters and strings *)

Ltac by_cases_on_char c :=
  destruct c as [[] [] [] [] [] [] [] []]; vm_compute; congruence.

Lemma upperChar_keeps_keyChar (c : ascii) :
  isKeyChar c = true -> isKeyChar (upperChar c) = true.
Proof. by_cases_on_char c. Qed.

Lemma upperUnderscore_not_digit (c : ascii) :
  isUpperUnderscore c = true -> isDigit c = false.
Proof. by_cases_on_char c. Qed.

Lemma upperUnderscore_not_hyphen (c : ascii) :
  isUpperUnderscore c = true -> Ascii.eqb c "-" = false.
Proof. by_cases_on_char c. Qed.

Lemma digit_not_hyphen (c : ascii) :
  isDigit c = true -> Ascii.eqb c "-" = false.
Proof. by_cases_on_char c. Qed.

Lemma append_empty_r (s : string) : s ++ EmptyString = s.
Proof. induction s as [|c s IH]; simpl; [reflexivity | now rewrite IH]. Qed.

Lemma append_assoc (a b c : string) : (a ++ b) ++ c = a ++ (b ++ c).
Proof. induction a as [|x a IH]; simpl; [reflexivity | now rewrite IH]. Qed.

Lemma nonEmpty_append_l (a b : string) :
  nonEmpty a = true -> nonEmpty (a ++ b) = true.
Proof. destruct a; simpl; congruence. Qed.

Lemma nonEmpty_append_r (a b : string) :
  nonEmpty b = true -> nonEmpty (a ++ b) = true.
Proof. destruct a; simpl; congruence. Qed.

Lemma nonEmpty_toUpperCase (s : string) :
  nonEmpty (toUpperCase s) = nonEmpty s.
Proof. destruct s; reflexivity. Qed.

Lemma allChars_keepChars (cls : ascii -> bool) (s : string) :
  allChars cls (keepChars cls s) = true.
Proof.
  induction s as [|c s IH]; simpl; [reflexivity|].
  destruct (cls c) eqn:Hc; simpl; [rewrite Hc|]; assumption.
Qed.

Lemma allChars_keyChar_toUpperCase (s : string) :
  allChars isKeyChar s = true -> allChars isKeyChar (toUpperCase s) = true.
Proof.
  induction s as [|c s IH]; simpl; [reflexivity|].
  intros H. apply andb_true_iff in H as [Hc Hs].
  rewrite (upperChar_keeps_keyChar c Hc). simpl. now apply IH.
Qed.

Lemma sanitizeControlNumber_keyChars (controlNumber : string) :
  allChars isKeyChar (sanitizeControlNumber controlNumber) = true.
Proof.
  unfold sanitizeControlNumber.
  apply allChars_keyChar_toUpperCase, allChars_keepChars.
Qed.

(** ** The backtracking matcher *)

Lemma exactly_append (cls : ascii -> bool) (m rest : string) :
  allChars cls m = true ->
  exactly (String.length m) cls (m ++ rest) = Some (m, rest).
Proof.
  induction m as [|c m IH]; simpl; [reflexivity|].
  intros H. apply andb_true_iff in H as [Hc Hm].
  rewrite Hc, (IH Hm). reflexivity.
Qed.

(** A group that can take no more gives the rest to the continuation. *)
Lemma greedyPlus_longest (cls : ascii -> bool)
  (k : string -> option (list string)) (m rest : string) (r : list string) :
  forall acc,
    allChars cls m = true ->
    nonEmpty (acc ++ m) = true ->
    match rest with EmptyString => True | String c _ => cls c = false end ->
    k rest = Some r ->
    greedyPlus cls k acc (m ++ rest) = Some ((acc ++ m) :: r).
Proof.
  induction m as [|c m IH]; intros acc Hm Hne Hrest Hk.
  - rewrite append_empty_r in *. simpl.
    destruct rest as [|c rest]; simpl.
    + unfold stopHere. now rewrite Hne, Hk.
    + rewrite Hrest. unfold stopHere. now rewrite Hne, Hk.
  - simpl in Hm. apply andb_true_iff in Hm as [Hc Hm].
    simpl. rewrite Hc.
    rewrite (IH (acc ++ String c EmptyString)); try assumption.
    + now rewrite append_assoc.
    + rewrite append_assoc. simpl. apply nonEmpty_append_r. reflexivity.
Qed.

(** Where the continuation fails at every split, so does the group. *)
Lemma greedyPlus_none (cls : ascii -> bool)
  (k : string -> option (list string)) (s : string) :
  forall acc,
    (forall p t, s = p ++ t -> k t = None) ->
    greedyPlus cls k acc s = None.
Proof.
  induction s as [|c s IH]; intros acc Hall; simpl.
  - unfold stopHere. rewrite (Hall EmptyString EmptyString); [|reflexivity].
    now destruct (nonEmpty acc).
  - assert (Hstop : stopHere k acc (String c s) = None).
    { unfold stopHere. rewrite (Hall EmptyString (String c s)); [|reflexivity].
      now destruct (nonEmpty acc). }
    destruct (cls c); [|exact Hstop].
    rewrite IH; [exact Hstop|].
    intros p t Hpt. apply (Hall (String c p) t). simpl. now rewrite Hpt.
Qed.

(** A greedy group gives back what it took beyond [m] when the
    continuation matches right after [m] and nowhere later. *)
Lemma greedyPlus_backtrack (cls : ascii -> bool)
  (k : string -> option (list string)) (m rest : string) (r : list string) :
  forall acc,
    allChars cls m = true ->
    nonEmpty (acc ++ m) = true ->
    k rest = Some r ->
    (forall c p t, rest = String c p ++ t -> k t = None) ->
    greedyPlus cls k acc (m ++ rest) = Some ((acc ++ m) :: r).
Proof.
  induction m as [|c m IH]; intros acc Hm Hne Hk Hlater.
  - rewrite append_empty_r in *. simpl.
    destruct rest as [|c rest]; simpl.
    + unfold stopHere. now rewrite Hne, Hk.
    + assert (Hstop : stopHere k acc (String c rest) = Some (acc :: r)).
      { unfold stopHere. now rewrite Hne, Hk. }
      destruct (cls c); [|exact Hstop].
      rewrite greedyPlus_none; [exact Hstop|].
      intros p t Hpt. apply (Hlater c p t). simpl. now rewrite Hpt.
  - simpl in Hm. apply andb_true_iff in Hm as [Hc Hm].
    simpl. rewrite Hc.
    rewrite (IH (acc ++ String c EmptyString)); try assumption.
    + now rewrite append_assoc.
    + rewrite append_assoc. simpl. apply nonEmpty_append_r. reflexivity.
Qed.

Lemma allChars_append (cls : ascii -> bool) (a b : string) :
  allChars cls (a ++ b) = allChars cls a && allChars cls b.
Proof.
  induction a as [|c a IH]; simpl; [reflexivity|].
  now rewrite IH, andb_assoc.
Qed.

Lemma append_eq_append (p t a b : string) :
  p ++ t = a ++ b ->
  (exists a', a = p ++ a' /\ t = a' ++ b)
  \/ (exists p', p = a ++ p' /\ b = p' ++ t).
Proof.
  revert a. induction p as [|c p IH]; intros a H; simpl in H.
  - left. exists a. split; [reflexivity | exact H].
  - destruct a as [|c' a]; simpl in H.
    + right. exists (String c p). split; [reflexivity | symmetry; exact H].
    + injection H as Hc H. subst c'.
      destruct (IH a H) as [[a' [Ha Ht]] | [p' [Hp Hb]]].
      * left. exists a'. split; [simpl; now rewrite Ha | exact Ht].
      * right. exists p'. split; [simpl; now rewrite Hp | exact Hb].
Qed.

(** The part of the key pattern after the control number:
    [-(\d{8})-([A-Z_]+)$]. *)
Lemma keyTail_matches (dateStr feeType : string) :
  is_yyyyMMdd dateStr = true ->
  nonEmpty feeType = true ->
  allChars isUpperUnderscore feeType = true ->
  matchPieces [PLit "-"; PTimes 8 isDigit; PLit "-"; PPlus isUpperUnderscore]
    ("-" ++ dateStr ++ "-" ++ feeType)
  = Some [dateStr; feeType].
Proof.
  intros Hd Hne Hf. unfold is_yyyyMMdd in Hd.
  apply andb_true_iff in Hd as [Hlen Hdig]. apply Nat.eqb_eq in Hlen.
  cbn [matchPieces append Ascii.eqb Bool.eqb].
  rewrite <- Hlen, (exactly_append isDigit dateStr _ Hdig).
  cbn [append Ascii.eqb Bool.eqb option_map].
  pose proof (greedyPlus_longest isUpperUnderscore
                (fun s => if nonEmpty s then None else Some [])
                feeType EmptyString [] EmptyString Hf Hne I eq_refl) as H.
  rewrite append_empty_r in H. cbn [append] in H.
  cbn [matchPieces]. rewrite H. reflexivity.
Qed.

Lemma keyTail_fails_on_feeType (t : string) :
  allChars isUpperUnderscore t = true ->
  matchPieces [PLit "-"; PTimes 8 isDigit; PLit "-"; PPlus isUpperUnderscore] t
  = None.
Proof.
  destruct t as [|f t]; [reflexivity|]. simpl.
  intros H. apply andb_true_iff in H as [Hf _].
  now rewrite (upperUnderscore_not_hyphen f Hf).
Qed.

Lemma keyTail_fails_before_feeType (feeType : string) :
  allChars isUpperUnderscore feeType = true ->
  matchPieces [PLit "-"; PTimes 8 isDigit; PLit "-"; PPlus isUpperUnderscore]
    ("-" ++ feeType)
  = None.
Proof.
  intros H. cbn [matchPieces append Ascii.eqb Bool.eqb].
  destruct feeType as [|f feeType]; [reflexivity|].
  simpl in H. apply andb_true_iff in H as [Hf _].
  cbn [exactly]. now rewrite (upperUnderscore_not_digit f Hf).
Qed.

Lemma keyTail_fails_on_digits (digits rest : string) :
  nonEmpty digits = true ->
  allChars isDigit digits = true ->
  matchPieces [PLit "-"; PTimes 8 isDigit; PLit "-"; PPlus isUpperUnderscore]
    (digits ++ rest)
  = None.
Proof.
  destruct digits as [|d digits]; [discriminate|]. simpl.
  intros _ H. apply andb_true_iff in H as [Hd _].
  now rewrite (digit_not_hyphen d Hd).
Qed.

(** Past its start, no position of ["-" ++ dateStr ++ "-" ++ feeType]
    matches the tail of the pattern again. *)
Lemma keyTail_fails_later (dateStr feeType : string) :
  allChars isDigit dateStr = true ->
  allChars isUpperUnderscore feeType = true ->
  forall c p t,
    "-" ++ dateStr ++ "-" ++ feeType = String c p ++ t ->
    matchPieces [PLit "-"; PTimes 8 isDigit; PLit "-"; PPlus isUpperUnderscore] t
    = None.
Proof.
  intros Hd Hf c p t H. simpl in H. injection H as _ H. symmetry in H.
  destruct (append_eq_append _ _ _ _ H) as [[d' [Hd' Ht]] | [p' [_ Hb]]].
  - (* [t] starts inside the date *)
    subst t. rewrite Hd', allChars_append in Hd.
    apply andb_true_iff in Hd as [_ Hd].
    destruct d' as [|x d'].
    + now apply keyTail_fails_before_feeType.
    + now apply keyTail_fails_on_digits.
  - (* [t] starts at or after the hyphen before the fee type *)
    destruct p' as [|x p']; simpl in Hb.
    + subst t. now apply keyTail_fails_before_feeType.
    + injection Hb as _ Hb. rewrite Hb, allChars_append in Hf.
      apply andb_true_iff in Hf as [_ Hf].
      now apply keyTail_fails_on_feeType.
Qed.

(** The key pattern splits a well-formed key into its four parts. *)
Lemma keyPattern_matches (clientCode controlNumber dateStr feeType : string) :
  nonEmpty clientCode = true ->
  allChars isUpperAlnum clientCode = true ->
  nonEmpty controlNumber = true ->
  allChars isKeyChar controlNumber = true ->
  is_yyyyMMdd dateStr = true ->
  nonEmpty feeType = true ->
  allChars isUpperUnderscore feeType = true ->
  matchPieces keyPattern
    (clientCode ++ "-" ++ controlNumber ++ "-" ++ dateStr ++ "-" ++ feeType)
  = Some [clientCode; controlNumber; dateStr; feeType].
Proof.
  intros Hc1 Hc2 Hn1 Hn2 Hd Hf1 Hf2.
  assert (Hdig : allChars isDigit dateStr = true).
  { unfold is_yyyyMMdd in Hd. now apply andb_true_iff in Hd as [_ Hd]. }
  unfold keyPattern. cbn [matchPieces].
  rewrite (greedyPlus_longest isUpperAlnum _ clientCode _
             [controlNumber; dateStr; feeType] EmptyString);
    [reflexivity | assumption | assumption | reflexivity |].
  cbn [append Ascii.eqb Bool.eqb].
  rewrite (greedyPlus_backtrack isKeyChar _ controlNumber _
             [dateStr; feeType] EmptyString);
    [reflexivity | assumption | assumption | |].
  - now apply keyTail_matches.
  - now apply keyTail_fails_later.
Qed.

(** ** Idempotency keys *)

(** A key derived with a date that prints as eight digits parses back
    into its parts, the digits regrouped as YYYY-MM-DD. *)
Lemma generated_key_parses {ext : External}
  (clientCode controlNumber : string) (triggerDate : TriggerDate)
  (feeType dateStr : string) :
  nonEmpty clientCode = true ->
  allChars isUpperAlnum (toUpperCase clientCode) = true ->
  nonEmpty (keepChars isKeyChar controlNumber) = true ->
  formatTriggerDate triggerDate = Ok dateStr ->
  is_yyyyMMdd dateStr = true ->
  nonEmpty feeType = true ->
  allChars isUpperUnderscore feeType = true ->
  generateIdempotencyKey clientCode controlNumber triggerDate feeType
  = Ok (toUpperCase clientCode ++ "-" ++ sanitizeControlNumber controlNumber
        ++ "-" ++ dateStr ++ "-" ++ feeType)
  /\ parseIdempotencyKey
       (toUpperCase clientCode ++ "-" ++ sanitizeControlNumber controlNumber
        ++ "-" ++ dateStr ++ "-" ++ feeType)
     = Some {| kp_clientCode := toUpperCase clientCode;
               kp_controlNumber := sanitizeControlNumber controlNumber;
               kp_triggerDate :=
                 slice 0 4 dateStr ++ "-" ++ slice 4 6 dateStr ++ "-"
                 ++ slice 6 8 dateStr;
               kp_feeType := feeType |}.
Proof.
  intros Hc1 Hc2 Hn Hdate Hd Hf1 Hf2.
  unfold generateIdempotencyKey. rewrite Hdate.
  split; [reflexivity|].
  unfold parseIdempotencyKey.
  rewrite keyPattern_matches; try assumption.
  - reflexivity.
  - now rewrite nonEmpty_toUpperCase.
  - unfold sanitizeControlNumber. now rewrite nonEmpty_toUpperCase.
  - apply sanitizeControlNumber_keyChars.
Qed.

(** ** Trigger dates and the time zone of the host *)

Lemma digitChar_of_digit (c : ascii) :
  isDigit c = true -> digitChar (Z.of_nat (nat_of_ascii c - 48)) = c.
Proof.
  unfold isDigit, digitChar. intros H.
  apply andb_true_iff in H as [H1 H2].
  apply Nat.leb_le in H1. rewrite Nat2Z.id.
  replace (48 + (nat_of_ascii c - 48))%nat with (nat_of_ascii c) by lia.
  apply ascii_nat_embedding.
Qed.

Lemma digitChar_isDigit (n : Z) :
  (0 <= n < 10)%Z -> isDigit (digitChar n) = true.
Proof.
  intros H. assert (Hn : (Z.to_nat n < 10)%nat) by lia.
  unfold digitChar. revert Hn. generalize (Z.to_nat n). intros k Hk.
  do 10 (destruct k as [|k]; [reflexivity|]). lia.
Qed.

Lemma digitChar_injective (a b : Z) :
  (0 <= a < 10)%Z -> (0 <= b < 10)%Z -> digitChar a = digitChar b -> a = b.
Proof.
  intros Ha Hb H. unfold digitChar in H.
  apply (f_equal nat_of_ascii) in H.
  rewrite !nat_ascii_embedding in H by lia. lia.
Qed.

Lemma isDigit_bounds (c : ascii) :
  isDigit c = true -> (48 <= nat_of_ascii c <= 57)%nat.
Proof.
  unfold isDigit. intros H. apply andb_true_iff in H as [H1 H2].
  apply Nat.leb_le in H1, H2. lia.
Qed.

Lemma twoDigits_inv (s : string) (n : nat) :
  twoDigits s = Some n ->
  exists a b,
    s = String a (String b EmptyString)
    /\ isDigit a = true /\ isDigit b = true
    /\ n = ((nat_of_ascii a - 48) * 10 + (nat_of_ascii b - 48))%nat.
Proof.
  destruct s as [|a [|b [|c s]]]; try discriminate. cbn [twoDigits].
  destruct (isDigit a) eqn:Ha; [|discriminate].
  destruct (isDigit b) eqn:Hb; [|discriminate].
  cbn [andb]. intros H. injection H as <-. exists a, b.
  repeat split; assumption.
Qed.

Lemma pad2_digits (n : nat) :
  (n < 100)%nat ->
  addLeadingZeros (Z.of_nat n) 2
  = String (digitChar (Z.of_nat (n / 10)))
      (String (digitChar (Z.of_nat (n mod 10))) EmptyString).
Proof.
  intros H. do 100 (destruct n as [|n]; [vm_compute; reflexivity|]). lia.
Qed.

Lemma pad4_table :
  let digits := [0; 1; 2; 3; 4; 5; 6; 7; 8; 9]%Z in
  forallb (fun a => forallb (fun b => forallb (fun c => forallb (fun d =>
    String.eqb (addLeadingZeros (a * 1000 + b * 100 + c * 10 + d) 4)
      (String (digitChar a) (String (digitChar b)
         (String (digitChar c) (String (digitChar d) EmptyString)))))
    digits) digits) digits) digits
  = true.
Proof. vm_compute. reflexivity. Qed.

Lemma digit_in_table (a : Z) :
  (0 <= a < 10)%Z -> In a [0; 1; 2; 3; 4; 5; 6; 7; 8; 9]%Z.
Proof. intros H. cbn [In]. lia. Qed.

Lemma pad4_digits (y : Z) :
  (0 <= y < 10000)%Z ->
  addLeadingZeros y 4
  = String (digitChar (y / 1000))
      (String (digitChar (y / 100 mod 10))
         (String (digitChar (y / 10 mod 10))
            (String (digitChar (y mod 10)) EmptyString))).
Proof.
  intros H.
  assert (Ha : In (y / 1000)%Z [0; 1; 2; 3; 4; 5; 6; 7; 8; 9]%Z).
  { apply digit_in_table. Z.to_euclidean_division_equations. lia. }
  assert (Hb : In (y / 100 mod 10)%Z [0; 1; 2; 3; 4; 5; 6; 7; 8; 9]%Z).
  { apply digit_in_table. Z.to_euclidean_division_equations. lia. }
  assert (Hc : In (y / 10 mod 10)%Z [0; 1; 2; 3; 4; 5; 6; 7; 8; 9]%Z).
  { apply digit_in_table. Z.to_euclidean_division_equations. lia. }
  assert (Hd : In (y mod 10)%Z [0; 1; 2; 3; 4; 5; 6; 7; 8; 9]%Z).
  { apply digit_in_table. Z.to_euclidean_division_equations. lia. }
  assert (Hy : (y / 1000 * 1000 + y / 100 mod 10 * 100 + y / 10 mod 10 * 10
                + y mod 10 = y)%Z).
  { Z.to_euclidean_division_equations. lia. }
  pose proof pad4_table as T. cbv zeta in T.
  rewrite forallb_forall in T. specialize (T _ Ha).
  rewrite forallb_forall in T. specialize (T _ Hb).
  rewrite forallb_forall in T. specialize (T _ Hc).
  rewrite forallb_forall in T. specialize (T _ Hd).
  apply String.eqb_eq in T. rewrite <- T. f_equal. now rewrite Hy.
Qed.

(** The eight characters [format] prints for a day of the years 1 to
    9999. *)
Lemma yyyyMMdd_digits (c : CivilDate) :
  (1 <= cd_year c < 10000)%Z -> (cd_month c < 100)%nat -> (cd_day c < 100)%nat ->
  yyyyMMdd c
  = String (digitChar (cd_year c / 1000))
      (String (digitChar (cd_year c / 100 mod 10))
         (String (digitChar (cd_year c / 10 mod 10))
            (String (digitChar (cd_year c mod 10))
               (String (digitChar (Z.of_nat (cd_month c / 10)))
                  (String (digitChar (Z.of_nat (cd_month c mod 10)))
                     (String (digitChar (Z.of_nat (cd_day c / 10)))
                        (String (digitChar (Z.of_nat (cd_day c mod 10)))
                           EmptyString))))))).
Proof.
  intros Hy Hm Hd. unfold yyyyMMdd.
  replace (0 <? cd_year c)%Z with true by (symmetry; apply Z.ltb_lt; lia).
  rewrite pad4_digits, !pad2_digits by lia. reflexivity.
Qed.

Lemma daysInMonth_bound (year : Z) (month : nat) :
  (daysInMonth year month <= 31)%nat.
Proof.
  unfold daysInMonth.
  do 13 (destruct month as [|month]; [try destruct (isLeapYear year); lia|]).
  lia.
Qed.

Lemma parseIsoDay_inv (s : string) (day : CivilDate) :
  parseIsoDay s = Some day ->
  exists y0 y1 y2 y3 m0 m1 d0 d1,
    s = String y0 (String y1 (String y2 (String y3 (String "-"
          (String m0 (String m1 (String "-"
             (String d0 (String d1 EmptyString)))))))))
    /\ Forall (fun c => isDigit c = true) [y0; y1; y2; y3; m0; m1; d0; d1]
    /\ cd_year day
       = (((Z.of_nat (nat_of_ascii y0 - 48) * 10
            + Z.of_nat (nat_of_ascii y1 - 48)) * 10
           + Z.of_nat (nat_of_ascii y2 - 48)) * 10
          + Z.of_nat (nat_of_ascii y3 - 48))%Z
    /\ cd_month day = ((nat_of_ascii m0 - 48) * 10 + (nat_of_ascii m1 - 48))%nat
    /\ cd_day day = ((nat_of_ascii d0 - 48) * 10 + (nat_of_ascii d1 - 48))%nat
    /\ (1 <= cd_month day <= 12)%nat
    /\ (1 <= cd_day day <= daysInMonth (cd_year day) (cd_month day))%nat.
Proof.
  unfold parseIsoDay.
  destruct (String.length s =? 10)%nat eqn:Hlen; [|discriminate].
  apply Nat.eqb_eq in Hlen.
  destruct s as [|y0 [|y1 [|y2 [|y3 [|h1 [|m0 [|m1 [|h2 [|d0 [|d1 [|c s]]]]]]]]]]];
    try discriminate.
  cbn [andb slice Nat.sub substring allChars].
  destruct (isDigit y0) eqn:Hy0; [|discriminate].
  destruct (isDigit y1) eqn:Hy1; [|discriminate].
  destruct (isDigit y2) eqn:Hy2; [|discriminate].
  destruct (isDigit y3) eqn:Hy3; [|discriminate].
  cbn [andb].
  destruct (String.eqb (String h1 EmptyString) "-") eqn:Hh1; [|discriminate].
  destruct (String.eqb (String h2 EmptyString) "-") eqn:Hh2; [|discriminate].
  apply String.eqb_eq in Hh1, Hh2. injection Hh1 as ->. injection Hh2 as ->.
  cbn [andb].
  destruct (twoDigits (String m0 (String m1 EmptyString))) as [month|] eqn:Hm;
    [|discriminate].
  destruct (twoDigits (String d0 (String d1 EmptyString))) as [dd|] eqn:Hd;
    [|discriminate].
  apply twoDigits_inv in Hm as [a [b [Hmab [Ha [Hb Hmv]]]]].
  apply twoDigits_inv in Hd as [a' [b' [Hdab [Ha' [Hb' Hdv]]]]].
  injection Hmab as <- <-. injection Hdab as <- <-.
  destruct ((1 <=? month)%nat && (month <=? 12)%nat && (1 <=? dd)%nat
            && (dd <=? daysInMonth
                         (digitsValue
                            (String y0 (String y1 (String y2 (String y3 EmptyString))))
                            0) month)%nat) eqn:Hrange; [|discriminate].
  intros H. injection H as <-.
  apply andb_true_iff in Hrange as [Hrange H4].
  apply andb_true_iff in Hrange as [Hrange H3].
  apply andb_true_iff in Hrange as [H1 H2].
  apply Nat.leb_le in H1, H2, H3, H4.
  exists y0, y1, y2, y3, m0, m1, d0, d1.
  split; [reflexivity|]. split; [repeat constructor; assumption|].
  cbn [cd_year cd_month cd_day digitsValue Z.mul Z.add] in *.
  repeat split; try assumption; try lia.
Qed.

(** What [parseIdempotencyKey] makes of the eight digits. *)
Lemma parsed_day_text (s : string) (day : CivilDate) :
  parseIsoDay s = Some day ->
  (1 <= cd_year day)%Z ->
  is_yyyyMMdd (yyyyMMdd day) = true
  /\ slice 0 4 (yyyyMMdd day) ++ "-" ++ slice 4 6 (yyyyMMdd day) ++ "-"
     ++ slice 6 8 (yyyyMMdd day) = s.
Proof.
  intros Hparse Hyear.
  destruct (parseIsoDay_inv s day Hparse)
    as [y0 [y1 [y2 [y3 [m0 [m1 [d0 [d1 [-> [Hdig [Hy [Hm [Hd [Hmr Hdr]]]]]]]]]]]]]].
  pose proof (daysInMonth_bound (cd_year day) (cd_month day)) as Hdim.
  repeat match goal with
         | H : Forall _ (_ :: _) |- _ => inversion H; subst; clear H
         | H : Forall _ [] |- _ => clear H
         end.
  repeat match goal with
         | H : isDigit ?c = true |- _ =>
             pose proof (isDigit_bounds c H);
             pose proof (digitChar_of_digit c H); clear H
         end.
  rewrite yyyyMMdd_digits by lia.
  assert (E1 : (cd_year day / 1000 = Z.of_nat (nat_of_ascii y0 - 48))%Z)
    by (Z.to_euclidean_division_equations; lia).
  assert (E2 : (cd_year day / 100 mod 10 = Z.of_nat (nat_of_ascii y1 - 48))%Z)
    by (Z.to_euclidean_division_equations; lia).
  assert (E3 : (cd_year day / 10 mod 10 = Z.of_nat (nat_of_ascii y2 - 48))%Z)
    by (Z.to_euclidean_division_equations; lia).
  assert (E4 : (cd_year day mod 10 = Z.of_nat (nat_of_ascii y3 - 48))%Z)
    by (Z.to_euclidean_division_equations; lia).
  assert (E5 : (cd_month day / 10 = nat_of_ascii m0 - 48)%nat).
  { rewrite Hm. symmetry. apply (Nat.div_unique _ 10 _ (nat_of_ascii m1 - 48)); lia. }
  assert (E6 : (cd_month day mod 10 = nat_of_ascii m1 - 48)%nat).
  { rewrite Hm. symmetry. apply (Nat.mod_unique _ 10 (nat_of_ascii m0 - 48)); lia. }
  assert (E7 : (cd_day day / 10 = nat_of_ascii d0 - 48)%nat).
  { rewrite Hd. symmetry. apply (Nat.div_unique _ 10 _ (nat_of_ascii d1 - 48)); lia. }
  assert (E8 : (cd_day day mod 10 = nat_of_ascii d1 - 48)%nat).
  { rewrite Hd. symmetry. apply (Nat.mod_unique _ 10 (nat_of_ascii d0 - 48)); lia. }
  rewrite E1, E2, E3, E4, E5, E6, E7, E8.
  repeat match goal with
         | H : digitChar _ = _ |- _ => rewrite H; clear H
         end.
  split; [|reflexivity].
  unfold is_yyyyMMdd. cbn [String.length Nat.eqb andb allChars].
  unfold isDigit.
  repeat (apply andb_true_iff; split); try reflexivity; apply Nat.leb_le; lia.
Qed.

Lemma yyyyMMdd_era_digits (c : CivilDate) :
  (0 <= cd_year c < 10000)%Z -> (cd_month c < 100)%nat -> (cd_day c < 100)%nat ->
  exists y0 y1 y2 y3,
    yyyyMMdd c
    = String y0 (String y1 (String y2 (String y3
        (String (digitChar (Z.of_nat (cd_month c / 10)))
           (String (digitChar (Z.of_nat (cd_month c mod 10)))
              (String (digitChar (Z.of_nat (cd_day c / 10)))
                 (String (digitChar (Z.of_nat (cd_day c mod 10)))
                    EmptyString)))))))
    /\ Forall (fun ch => isDigit ch = true) [y0; y1; y2; y3].
Proof.
  intros Hy Hm Hd. unfold yyyyMMdd.
  set (year := if (0 <? cd_year c)%Z then cd_year c else (1 - cd_year c)%Z).
  assert (Hyear : (0 <= year < 10000)%Z).
  { unfold year. destruct (0 <? cd_year c)%Z eqn:E; [lia|].
    apply Z.ltb_ge in E. lia. }
  rewrite pad4_digits, !pad2_digits by lia.
  do 4 eexists. split; [reflexivity|].
  repeat constructor; apply digitChar_isDigit;
    Z.to_euclidean_division_equations; lia.
Qed.

Lemma previousDay_fields (c : CivilDate) :
  (1 <= cd_month c <= 12)%nat ->
  (1 <= cd_day c <= 31)%nat ->
  let p := previousDay c in
  (cd_year c - 1 <= cd_year p <= cd_year c)%Z
  /\ (cd_month p <= 12)%nat /\ (cd_day p <= 31)%nat
  /\ (cd_month p <> cd_month c \/ cd_day p <> cd_day c).
Proof.
  intros Hm Hd. unfold previousDay.
  destruct (1 <? cd_day c)%nat eqn:E1.
  - apply Nat.ltb_lt in E1. cbn. repeat split; lia.
  - destruct (1 <? cd_month c)%nat eqn:E2.
    + apply Nat.ltb_lt in E2. cbn [cd_year cd_month cd_day].
      pose proof (daysInMonth_bound (cd_year c) (cd_month c - 1)).
      repeat split; lia.
    + apply Nat.ltb_ge in E2. cbn. repeat split; lia.
Qed.

Lemma two_digits_injective (a b : nat) :
  (a < 100)%nat -> (b < 100)%nat ->
  digitChar (Z.of_nat (a / 10)) = digitChar (Z.of_nat (b / 10)) ->
  digitChar (Z.of_nat (a mod 10)) = digitChar (Z.of_nat (b mod 10)) ->
  a = b.
Proof.
  intros Ha Hb H1 H2.
  pose proof (Nat.div_mod_eq a 10). pose proof (Nat.div_mod_eq b 10).
  pose proof (Nat.mod_upper_bound a 10). pose proof (Nat.mod_upper_bound b 10).
  assert (a / 10 < 10)%nat by (apply Nat.Div0.div_lt_upper_bound; lia).
  assert (b / 10 < 10)%nat by (apply Nat.Div0.div_lt_upper_bound; lia).
  apply digitChar_injective in H1; [|lia|lia].
  apply digitChar_injective in H2; [|lia|lia]. lia.
Qed.

Lemma yyyyMMdd_shape (c : CivilDate) :
  (0 <= cd_year c < 10000)%Z -> (cd_month c < 100)%nat -> (cd_day c < 100)%nat ->
  is_yyyyMMdd (yyyyMMdd c) = true.
Proof.
  intros Hy Hm Hd.
  destruct (yyyyMMdd_era_digits c Hy Hm Hd) as [y0 [y1 [y2 [y3 [-> Hdig]]]]].
  repeat match goal with
         | H : Forall _ (_ :: _) |- _ => inversion H; subst; clear H
         end.
  assert (cd_month c / 10 < 10)%nat by (apply Nat.Div0.div_lt_upper_bound; lia).
  assert (cd_day c / 10 < 10)%nat by (apply Nat.Div0.div_lt_upper_bound; lia).
  pose proof (Nat.mod_upper_bound (cd_month c) 10).
  pose proof (Nat.mod_upper_bound (cd_day c) 10).
  unfold is_yyyyMMdd. cbn [String.length Nat.eqb andb allChars].
  repeat match goal with
         | H : isDigit _ = true |- _ => rewrite H; clear H
         end.
  rewrite !digitChar_isDigit by lia. reflexivity.
Qed.

(** The day before: it prints as eight digits, but never as those of
    the day itself. *)
Lemma previous_day_text (s : string) (day : CivilDate) :
  parseIsoDay s = Some day ->
  (1 <= cd_year day)%Z ->
  let dateStr := yyyyMMdd (previousDay day) in
  is_yyyyMMdd dateStr = true
  /\ slice 0 4 dateStr ++ "-" ++ slice 4 6 dateStr ++ "-" ++ slice 6 8 dateStr
     <> s.
Proof.
  intros Hparse Hyear. cbv zeta.
  destruct (parsed_day_text s day Hparse Hyear) as [_ Hs].
  destruct (parseIsoDay_inv s day Hparse)
    as [y0 [y1 [y2 [y3 [m0 [m1 [d0 [d1 [_ [Hdig [Hy [Hm [Hd [Hmr Hdr]]]]]]]]]]]]]].
  pose proof (daysInMonth_bound (cd_year day) (cd_month day)) as Hdim.
  assert (Hy4 : (cd_year day < 10000)%Z).
  { repeat match goal with
           | H : Forall _ (_ :: _) |- _ => inversion H; subst; clear H
           | H : isDigit ?c = true |- _ =>
               pose proof (isDigit_bounds c H); clear H
           end. lia. }
  clear Hdig Hy Hm Hd.
  destruct (previousDay_fields day ltac:(lia) ltac:(lia)) as [Hpy [Hpm [Hpd Hdiff]]].
  split; [apply yyyyMMdd_shape; lia|].
  destruct (yyyyMMdd_era_digits (previousDay day)) as [p0 [p1 [p2 [p3 [Hp _]]]]];
    try lia.
  destruct (yyyyMMdd_era_digits day) as [q0 [q1 [q2 [q3 [Hq _]]]]]; try lia.
  rewrite <- Hs. rewrite Hp, Hq.
  cbn [slice Nat.sub substring append]. intros Heq.
  injection Heq as _ _ _ _ Hm1 Hm2 Hd1 Hd2.
  apply two_digits_injective in Hm2; [|lia|lia|exact Hm1].
  apply two_digits_injective in Hd2; [|lia|lia|exact Hd1].
  destruct Hdiff as [Hne | Hne]; now apply Hne.
Qed.

Lemma localDay_of_midnight (offsetMinutes : Z) (day : CivilDate) :
  ((0 <= offsetMinutes < 1440)%Z ->
   localDay offsetMinutes {| utcDay := day; msOfDay := 0 |} = day)
  /\ ((-1440 <= offsetMinutes < 0)%Z ->
      localDay offsetMinutes {| utcDay := day; msOfDay := 0 |} = previousDay day).
Proof.
  unfold localDay, shiftDays, msPerDay. cbn [utcDay msOfDay Z.add].
  split; intros H.
  - replace (offsetMinutes * 60000 / (1000 * 60 * 60 * 24))%Z with 0%Z
      by (Z.to_euclidean_division_equations; lia).
    reflexivity.
  - replace (offsetMinutes * 60000 / (1000 * 60 * 60 * 24))%Z with (-1)%Z
      by (Z.to_euclidean_division_equations; lia).
    reflexivity.
Qed.

(** C9. The key carries the day the trigger date has in the time zone
    of the host, not the day that was given.  For parts that satisfy
    the sanitization rules and a trigger date [YYYY-MM-DD] of the years
    1 to 9999, the key is always derived and parses back into the
    uppercased client code, the sanitized control number and the fee
    type.  On a host whose zone is at or ahead of UTC the date comes
    back as given.  On a host behind UTC the key carries the day
    before, the date that comes back is never the trigger date, and
    the key differs from the one a host at or ahead of UTC derives
    from the same four inputs.  A [Date] object is printed as the day
    it falls on in the zone of the host; an Invalid Date, given as
    such or read from text that is no date, makes the call throw. *)
Theorem key_date_follows_the_host_zone
  (zoneOffset : JsTime -> Z) (otherText : string -> option JsTime)
  (email : string -> bool)
  (clientCode controlNumber dateText feeType : string) (day : CivilDate) :
  nonEmpty clientCode = true ->
  allChars isUpperAlnum (toUpperCase clientCode) = true ->
  nonEmpty (keepChars isKeyChar controlNumber) = true ->
  nonEmpty feeType = true ->
  allChars isUpperUnderscore feeType = true ->
  parseIsoDay dateText = Some day ->
  (1 <= cd_year day)%Z ->
  let midnight := {| utcDay := day; msOfDay := 0 |} in
  let deriveFrom zone triggerDate :=
    @generateIdempotencyKey (hostExternal zone otherText email)
      clientCode controlNumber triggerDate feeType in
  let derive zone := deriveFrom zone (DateString dateText) in
  let keyOf dateStr :=
    toUpperCase clientCode ++ "-" ++ sanitizeControlNumber controlNumber
    ++ "-" ++ dateStr ++ "-" ++ feeType in
  let partsOf triggerDate :=
    {| kp_clientCode := toUpperCase clientCode;
       kp_controlNumber := sanitizeControlNumber controlNumber;
       kp_triggerDate := triggerDate;
       kp_feeType := feeType |} in
  ((0 <= zoneOffset midnight < 1440)%Z ->
   derive zoneOffset = Ok (keyOf (yyyyMMdd day))
   /\ parseIdempotencyKey (keyOf (yyyyMMdd day)) = Some (partsOf dateText))
  /\ ((-1440 <= zoneOffset midnight < 0)%Z ->
      derive zoneOffset = Ok (keyOf (yyyyMMdd (previousDay day)))
      /\ (exists shifted,
            parseIdempotencyKey (keyOf (yyyyMMdd (previousDay day)))
            = Some (partsOf shifted)
            /\ shifted <> dateText)
      /\ forall east : JsTime -> Z,
           (0 <= east midnight < 1440)%Z ->
           derive east <> derive zoneOffset)
  /\ (forall t : JsTime,
        deriveFrom zoneOffset
          (@DateObject (hostExternal zoneOffset otherText email) (Some t))
        = Ok (keyOf (yyyyMMdd (localDay (zoneOffset t) t))))
  /\ deriveFrom zoneOffset
       (@DateObject (hostExternal zoneOffset otherText email) None)
     = Err (RangeError "Invalid time value")
  /\ (forall text,
        parseIsoDay text = None -> otherText text = None ->
        deriveFrom zoneOffset (DateString text)
        = Err (RangeError "Invalid time value")).
Proof.
  intros Hc1 Hc2 Hn Hf1 Hf2 Hparse Hyear midnight deriveFrom derive keyOf
    partsOf.
  subst midnight derive. cbv beta.
  destruct (parsed_day_text dateText day Hparse Hyear) as [Hshape Htext].
  destruct (previous_day_text dateText day Hparse Hyear) as [Hshape' Htext'].
  assert (Hformat : forall zone,
             @formatTriggerDate (hostExternal zone otherText email)
               (DateString dateText)
             = Ok (yyyyMMdd (localDay (zone {| utcDay := day; msOfDay := 0 |})
                               {| utcDay := day; msOfDay := 0 |}))).
  { intros zone. unfold formatTriggerDate.
    cbn [Date_of_string format_yyyyMMdd hostExternal].
    rewrite Hparse. reflexivity. }
  assert (Heast : forall zone,
             (0 <= zone {| utcDay := day; msOfDay := 0 |} < 1440)%Z ->
             deriveFrom zone (DateString dateText) = Ok (keyOf (yyyyMMdd day))
             /\ parseIdempotencyKey (keyOf (yyyyMMdd day))
                = Some (partsOf dateText)).
  { intros zone Hzone.
    pose proof (Hformat zone) as Hf.
    rewrite (proj1 (localDay_of_midnight _ day) Hzone) in Hf.
    destruct (generated_key_parses (ext := hostExternal zone otherText email)
                clientCode controlNumber (DateString dateText) feeType
                (yyyyMMdd day) Hc1 Hc2 Hn Hf Hshape Hf1 Hf2) as [Hkey Hback].
    split; [exact Hkey|]. unfold keyOf, partsOf. rewrite Hback, Htext.
    reflexivity. }
  split; [apply Heast|].
  split.
  { intros Hwest.
    pose proof (Hformat zoneOffset) as Hf.
    rewrite (proj2 (localDay_of_midnight _ day) Hwest) in Hf.
    destruct (generated_key_parses
                (ext := hostExternal zoneOffset otherText email)
                clientCode controlNumber (DateString dateText) feeType
                (yyyyMMdd (previousDay day)) Hc1 Hc2 Hn Hf Hshape' Hf1 Hf2)
      as [Hkey Hback].
    split; [exact Hkey|]. split.
    - eexists. split; [exact Hback | exact Htext'].
    - intros east Heast'. destruct (Heast east Heast') as [Hkey' Hback'].
      subst deriveFrom keyOf partsOf. cbv beta in *.
      rewrite Hkey, Hkey'. intros Heq.
      match type of Hback' with
      | parseIdempotencyKey ?k1 = _ =>
          match type of Hback with
          | parseIdempotencyKey ?k2 = _ =>
              assert (Hk : k1 = k2) by congruence
          end
      end.
      rewrite Hk, Hback in Hback'.
      injection Hback' as Hsame. now apply Htext'. }
  split; [intros t; reflexivity|].
  split; [reflexivity|].
  intros text Hnone Hother. subst deriveFrom. cbv beta.
  unfold generateIdempotencyKey, formatTriggerDate.
  cbn [Date_of_string format_yyyyMMdd hostExternal].
  rewrite Hnone, Hother. reflexivity.
Qed.

Lemma key_date_follows_the_host_zone_witness :
  @generateIdempotencyKey newYorkHost "acme" "PL#123-45 b"
    (DateString "2023-12-15") "PLACEMENT_FEE"
  = Ok "ACME-PL123-45B-20231214-PLACEMENT_FEE"
  /\ (exists shifted,
        parseIdempotencyKey "ACME-PL123-45B-20231214-PLACEMENT_FEE"
        = Some {| kp_clientCode := "ACME";
                  kp_controlNumber := "PL123-45B";
                  kp_triggerDate := shifted;
                  kp_feeType := "PLACEMENT_FEE" |}
        /\ shifted <> "2023-12-15")
  /\ @generateIdempotencyKey utcHost "acme" "PL#123-45 b"
       (DateString "2023-12-15") "PLACEMENT_FEE"
     <> @generateIdempotencyKey newYorkHost "acme" "PL#123-45 b"
          (DateString "2023-12-15") "PLACEMENT_FEE".
Proof.
  destruct (key_date_follows_the_host_zone newYorkWinter (fun _ => None)
              simpleEmail "acme" "PL#123-45 b" "2023-12-15" "PLACEMENT_FEE"
              {| cd_year := 2023; cd_month := 12; cd_day := 15 |}
              eq_refl eq_refl eq_refl eq_refl eq_refl eq_refl
              ltac:(vm_compute; discriminate)) as [_ [Hwest _]].
  destruct Hwest as [Hkey [Hback Hdiffer]]; [unfold newYorkWinter; lia|].
  split; [exact Hkey|]. split; [exact Hback|].
  apply (Hdiffer utcZone). unfold utcZone. lia.
Defined.

(** ** Fee calculation in double precision *)

Lemma SFcompare_refl (x : Binary64.number) :
  Binary64.isNaN x = false -> SFcompare x x = Some Eq.
Proof.
  destruct x as [s|s| |s m e]; try discriminate; intros _; cbn.
  - reflexivity.
  - now destruct s.
  - rewrite Z.compare_refl, Pos.compare_cont_refl. now destruct s.
Qed.

Lemma SFcompare_antisym (a b : Binary64.number) :
  SFcompare b a = option_map CompOpp (SFcompare a b).
Proof.
  destruct a as [sa|sa| |sa ma ea], b as [sb|sb| |sb mb eb]; cbn;
    try reflexivity; try (now destruct sa); try (now destruct sb);
    try (now destruct sa, sb).
  destruct sa, sb; try reflexivity; f_equal;
    rewrite (Z.compare_antisym ea eb);
    destruct (ea ?= eb)%Z; cbn [CompOpp]; try reflexivity;
    rewrite (Pos.compare_cont_antisym ma mb Eq); cbn [CompOpp];
    now destruct (Pos.compare_cont Eq mb ma).
Qed.

Lemma SFcompare_Eq_inv (a b : Binary64.number) :
  SFcompare a b = Some Eq ->
  a = b \/ exists sa sb, a = S754_zero sa /\ b = S754_zero sb.
Proof.
  destruct a as [sa|sa| |sa ma ea], b as [sb|sb| |sb mb eb]; cbn;
    try discriminate; try (now destruct sa); try (now destruct sb).
  - intros _. right. now exists sa, sb.
  - destruct sa, sb; try discriminate; intros _; now left.
  - destruct sa, sb; try discriminate;
      destruct (ea ?= eb)%Z eqn:He; try discriminate;
      apply Z.compare_eq in He; subst eb; intros H; left; f_equal.
    + injection H as H. destruct (Pos.compare_cont Eq ma mb) eqn:Hm;
        try discriminate. now apply Pos.compare_eq.
    + injection H as H. now apply Pos.compare_eq.
Qed.

Lemma SFcompare_defined (a b : Binary64.number) :
  Binary64.isNaN a = false -> Binary64.isNaN b = false ->
  exists c, SFcompare a b = Some c.
Proof.
  destruct a as [sa|sa| |sa ma ea], b as [sb|sb| |sb mb eb]; try discriminate;
    intros _ _; cbn; eexists; reflexivity.
Qed.

(** [Math.max] gives a number that is not below either argument and
    equals one of them. *)
Lemma Math_max_upper (a b : Binary64.number) :
  Binary64.isNaN a = false -> Binary64.isNaN b = false ->
  Binary64.isNaN (Binary64.Math_max a b) = false
  /\ Binary64.le a (Binary64.Math_max a b) = true
  /\ Binary64.le b (Binary64.Math_max a b) = true
  /\ (SFcompare (Binary64.Math_max a b) a = Some Eq
      \/ SFcompare (Binary64.Math_max a b) b = Some Eq).
Proof.
  intros Ha Hb. unfold Binary64.Math_max, Binary64.le, SFleb.
  pose proof (SFcompare_refl a Ha) as Ra. pose proof (SFcompare_refl b Hb) as Rb.
  pose proof (SFcompare_antisym a b) as Hanti.
  destruct (SFcompare_defined a b Ha Hb) as [c Hc]. rewrite Hc in *.
  destruct c; cbn [option_map CompOpp] in Hanti.
  - destruct (SFcompare_Eq_inv a b Hc) as [<- | [sa [sb [-> ->]]]].
    + destruct a; rewrite ?Ra; repeat split; auto.
    + cbn. repeat split; auto.
  - rewrite Hc, Rb. repeat split; auto.
  - rewrite Ra, Hanti. repeat split; auto.
Qed.

(** [Math.min] gives a number that is not above either argument and
    equals one of them. *)
Lemma Math_min_lower (a b : Binary64.number) :
  Binary64.isNaN a = false -> Binary64.isNaN b = false ->
  Binary64.isNaN (Binary64.Math_min a b) = false
  /\ Binary64.le (Binary64.Math_min a b) a = true
  /\ Binary64.le (Binary64.Math_min a b) b = true
  /\ (SFcompare (Binary64.Math_min a b) a = Some Eq
      \/ SFcompare (Binary64.Math_min a b) b = Some Eq).
Proof.
  intros Ha Hb. unfold Binary64.Math_min, Binary64.le, SFleb.
  pose proof (SFcompare_refl a Ha) as Ra. pose proof (SFcompare_refl b Hb) as Rb.
  pose proof (SFcompare_antisym a b) as Hanti.
  destruct (SFcompare_defined a b Ha Hb) as [c Hc]. rewrite Hc in *.
  destruct c; cbn [option_map CompOpp] in Hanti.
  - destruct (SFcompare_Eq_inv a b Hc) as [<- | [sa [sb [-> ->]]]].
    + destruct a; rewrite ?Ra; repeat split; auto.
    + cbn. repeat split; auto.
  - rewrite Ra, Hc. repeat split; auto.
  - rewrite Hanti, Rb. repeat split; auto.
Qed.

(** The integer [Math.round] picks is within a half of the double, the
    upper one when two are. *)
Lemma nearestInteger_nearest (s : bool) (m : positive) (e : Z) :
  (e < 0)%Z ->
  let signed := if s then Zneg m else Zpos m in
  (2 * signed - 2 ^ (- e) < 2 * Binary64.nearestInteger s m e * 2 ^ (- e)
   <= 2 * signed + 2 ^ (- e))%Z.
Proof.
  intros He signed. destruct e as [|p|k]; try lia.
  unfold Binary64.nearestInteger. fold signed.
  change (- Z.neg k)%Z with (Z.pos k).
  rewrite Z.pow_add_r by lia. change (2 ^ 1)%Z with 2%Z.
  assert (Hpow : (0 < 2 ^ Z.pos k)%Z) by (apply Z.pow_pos_nonneg; lia).
  generalize dependent (2 ^ Z.pos k)%Z. intros P HP.
  pose proof (Z.div_mod (2 * signed + P) (P * 2) ltac:(lia)) as Hdm.
  pose proof (Z.mod_pos_bound (2 * signed + P) (P * 2) ltac:(lia)) as Hmod.
  nia.
Qed.

(** C5. [calculateFee] on doubles.  A FIXED rule gives its value,
    capped and rounded, whatever base amount is supplied or none; every
    rule gives a fee exactly when the switch gives an amount.  The
    amount is first raised to [minimumFee] if set, by [Math.max], and
    the outcome then lowered to [maximumFee] if set, by [Math.min]:
    the first is not below the amount or the minimum and equal to one
    of them, the second not above the raised amount or the maximum and
    equal to one of them, [+0] counting above [-0].  The capped amount
    is rounded to two decimals: a hundred times it, as a double, is
    taken to the nearest integer, the upper one of two (a double from
    2^52 on, a zero, an infinity and NaN are left as they are), and
    the outcome divided by a hundred.  The currency is that of the
    policy.  With 15 per cent between 100 and 2000 a base of 100 gives
    100, 20000 gives 2000 and 4000 gives 600; 855.1 gives 128.26, the
    double product being just under 12826.5; without a base amount
    there is no fee; the tiers give 100 for a base of 1000, 1000 for
    5000 and nothing below 0; a FIXED 500 without caps gives 500 for
    every base amount. *)
Theorem calculateFee_in_doubles
  (policy : Binary64.ClientPolicy) (feeType : string)
  (feeRule : Binary64.FeeRule) :
  find (fun r => String.eqb (Binary64.fr_feeType r) feeType)
    (Binary64.cp_feeRules policy) = Some feeRule ->
  let raisedOf raw :=
    match Binary64.fr_minimumFee feeRule with
    | Some lo => Binary64.Math_max raw lo
    | None => raw
    end in
  let cappedOf raw :=
    match Binary64.fr_maximumFee feeRule with
    | Some hi => Binary64.Math_min (raisedOf raw) hi
    | None => raisedOf raw
    end in
  let feeOf raw :=
    {| Binary64.fee_amount := Binary64.round2 (cappedOf raw);
       Binary64.fee_currency := Binary64.cp_currency policy |} in
  (Binary64.fr_calculationType feeRule = FIXED ->
   forall baseAmount,
     Binary64.rawFee feeRule baseAmount = Some (Binary64.fr_value feeRule)
     /\ Binary64.calculateFee policy feeType baseAmount
        = Some (feeOf (Binary64.fr_value feeRule)))
  /\ (forall baseAmount,
        Binary64.calculateFee policy feeType baseAmount
        = option_map feeOf (Binary64.rawFee feeRule baseAmount))
  /\ (forall raw lo,
        Binary64.fr_minimumFee feeRule = Some lo ->
        Binary64.isNaN raw = false -> Binary64.isNaN lo = false ->
        Binary64.isNaN (raisedOf raw) = false
        /\ Binary64.le raw (raisedOf raw) = true
        /\ Binary64.le lo (raisedOf raw) = true
        /\ (SFcompare (raisedOf raw) raw = Some Eq
            \/ SFcompare (raisedOf raw) lo = Some Eq))
  /\ (forall raw hi,
        Binary64.fr_maximumFee feeRule = Some hi ->
        Binary64.isNaN (raisedOf raw) = false -> Binary64.isNaN hi = false ->
        Binary64.le (cappedOf raw) (raisedOf raw) = true
        /\ Binary64.le (cappedOf raw) hi = true
        /\ (SFcompare (cappedOf raw) (raisedOf raw) = Some Eq
            \/ SFcompare (cappedOf raw) hi = Some Eq))
  /\ (forall raw,
        let scaled := Binary64.mul (cappedOf raw) Binary64.hundred in
        exists rounded,
          Binary64.round2 (cappedOf raw) = Binary64.div rounded Binary64.hundred
          /\ match scaled with
             | S754_finite s m e =>
                 let signed := if s then Zneg m else Zpos m in
                 if (e <? 0)%Z
                 then exists cents : Z,
                        (2 * signed - 2 ^ (- e) < 2 * cents * 2 ^ (- e)
                         <= 2 * signed + 2 ^ (- e))%Z
                        /\ rounded
                           = (if (cents =? 0)%Z then S754_zero s
                              else binary_normalize Binary64.prec Binary64.emax
                                     cents 0 s)
                 else rounded = scaled
             | _ => rounded = scaled
             end)
  /\ (Binary64.Math_max (S754_zero true) (S754_zero false) = S754_zero false
      /\ Binary64.Math_min (S754_zero false) (S754_zero true) = S754_zero true)
  /\ (let fee amount :=
        Some {| Binary64.fee_amount := amount; Binary64.fee_currency := "USD" |} in
      Binary64.calculateFee Binary64.acmePolicy "PLACEMENT_FEE"
        (Some (Binary64.ofInteger 100)) = fee (Binary64.ofInteger 100)
      /\ Binary64.calculateFee Binary64.acmePolicy "PLACEMENT_FEE"
           (Some (Binary64.ofInteger 20000)) = fee (Binary64.ofInteger 2000)
      /\ Binary64.calculateFee Binary64.acmePolicy "PLACEMENT_FEE"
           (Some (Binary64.ofInteger 4000)) = fee (Binary64.ofInteger 600)
      /\ Binary64.calculateFee Binary64.acmePolicy "PLACEMENT_FEE"
           (Some (Binary64.ofDecimal 8551 1)) = fee (Binary64.ofDecimal 12826 2)
      /\ Binary64.lt
           (Binary64.mul
              (Binary64.div
                 (Binary64.mul (Binary64.ofDecimal 8551 1) (Binary64.ofInteger 15))
                 Binary64.hundred)
              Binary64.hundred)
           (Binary64.ofDecimal 128265 1) = true
      /\ Binary64.calculateFee Binary64.acmePolicy "PLACEMENT_FEE" None = None
      /\ Binary64.calculateFee Binary64.acmePolicy "EXTENSION_FEE"
           (Some (Binary64.ofInteger 1000)) = fee (Binary64.ofInteger 100)
      /\ Binary64.calculateFee Binary64.acmePolicy "EXTENSION_FEE"
           (Some (Binary64.ofInteger 5000)) = fee (Binary64.ofInteger 1000)
      /\ Binary64.calculateFee Binary64.acmePolicy "EXTENSION_FEE"
           (Some (Binary64.ofInteger (-1))) = None
      /\ forall baseAmount,
           Binary64.calculateFee Binary64.acmePolicy "ONBOARD_FEE" baseAmount
           = fee (Binary64.ofInteger 500)).
Proof.
  intros Hfind raisedOf cappedOf feeOf.
  assert (Hall : forall baseAmount,
             Binary64.calculateFee policy feeType baseAmount
             = option_map feeOf (Binary64.rawFee feeRule baseAmount)).
  { intros baseAmount. unfold Binary64.calculateFee. rewrite Hfind.
    destruct (Binary64.rawFee feeRule baseAmount); reflexivity. }
  split.
  { intros Hfixed baseAmount. rewrite Hall.
    unfold Binary64.rawFee. rewrite Hfixed. split; reflexivity. }
  split; [exact Hall|].
  split.
  { intros raw lo Hlo Hraw Hlo'. subst raisedOf. cbv beta. rewrite Hlo.
    destruct (Math_max_upper raw lo Hraw Hlo') as [H1 [H2 [H3 H4]]].
    repeat split; assumption. }
  split.
  { intros raw hi Hhi Hraised Hhi'. subst cappedOf. cbv beta. rewrite Hhi.
    destruct (Math_min_lower (raisedOf raw) hi Hraised Hhi') as [_ [H2 [H3 H4]]].
    repeat split; assumption. }
  split.
  { intros raw scaled. unfold Binary64.round2. fold scaled.
    exists (Binary64.Math_round scaled). split; [reflexivity|].
    destruct scaled as [s|s| |s m e]; try reflexivity.
    cbv zeta. unfold Binary64.Math_round.
    destruct (e <? 0)%Z eqn:He.
    - apply Z.ltb_lt in He.
      replace (0 <=? e)%Z with false by (symmetry; apply Z.leb_gt; exact He).
      exists (Binary64.nearestInteger s m e).
      split; [exact (nearestInteger_nearest s m e He) | reflexivity].
    - apply Z.ltb_ge in He.
      replace (0 <=? e)%Z with true by (symmetry; apply Z.leb_le; exact He).
      reflexivity. }
  split; [split; reflexivity|].
  cbv zeta. repeat split; try (vm_compute; reflexivity).
Qed.

Lemma calculateFee_in_doubles_witness :
  Binary64.calculateFee Binary64.acmePolicy "ONBOARD_FEE" None
  = Some {| Binary64.fee_amount := Binary64.ofInteger 500;
            Binary64.fee_currency := "USD" |}
  /\ Binary64.calculateFee Binary64.acmePolicy "ONBOARD_FEE"
       (Some (Binary64.ofDecimal 8551 1))
     = Some {| Binary64.fee_amount := Binary64.ofInteger 500;
               Binary64.fee_currency := "USD" |}.
Proof.
  split;
    apply (proj1 (calculateFee_in_doubles Binary64.acmePolicy "ONBOARD_FEE"
                    Binary64.fixedRule eq_refl) eq_refl).
Defined.

(** ** Tiered fees *)







(** ** Payments on an invoice link *)

Lemma recordPayment_totalPaid (host : Host) (l : InvoiceLink) (p : PaymentRecord) :
  il_totalPaid (recordPayment host l p) = il_totalPaid l + pay_amount p.
Proof.
  unfold recordPayment.
  destruct (Qle_bool _ _); [|destruct (negb _)]; reflexivity.
Qed.

Lemma recordPayment_balance (host : Host) (l : InvoiceLink) (p : PaymentRecord) :
  il_balance (recordPayment host l p)
  = Qmax 0 (il_amount l - (il_totalPaid l + pay_amount p)).
Proof.
  unfold recordPayment.
  destruct (Qle_bool _ _); [|destruct (negb _)]; reflexivity.
Qed.

Lemma recordPayment_amount (host : Host) (l : InvoiceLink) (p : PaymentRecord) :
  il_amount (recordPayment host l p) = il_amount l.
Proof.
  unfold recordPayment.
  destruct (Qle_bool _ _); [|destruct (negb _)]; reflexivity.
Qed.

Lemma recordPayment_id (host : Host) (l : InvoiceLink) (p : PaymentRecord) :
  il_id (recordPayment host l p) = il_id l
  /\ il_billableEventId (recordPayment host l p) = il_billableEventId l.
Proof.
  unfold recordPayment.
  destruct (Qle_bool _ _); [|destruct (negb _)]; split; reflexivity.
Qed.

Lemma recordPayment_status (host : Host) (l : InvoiceLink) (p : PaymentRecord) :
  il_qbStatus (recordPayment host l p)
  = if Qle_bool (il_amount l - (il_totalPaid l + pay_amount p)) 0 then QB_PAID
    else if negb (Qle_bool (il_totalPaid l + pay_amount p) 0) then QB_PARTIAL
         else il_qbStatus l.
Proof.
  unfold recordPayment.
  destruct (Qle_bool _ _); [|destruct (negb _)]; reflexivity.
Qed.

Lemma recordPayment_paidInFullDate (host : Host) (l : InvoiceLink)
  (p : PaymentRecord) :
  il_paidInFullDate (recordPayment host l p)
  = if Qle_bool (il_amount l - (il_totalPaid l + pay_amount p)) 0
    then Some (pay_paymentDate p)
    else il_paidInFullDate l.
Proof.
  unfold recordPayment.
  destruct (Qle_bool _ _); [|destruct (negb _)]; reflexivity.
Qed.

Lemma recordPayment_history (host : Host) (l : InvoiceLink) (p : PaymentRecord) :
  il_statusHistory (recordPayment host l p)
  = (il_statusHistory l
     ++ [ {| ls_status := il_qbStatus (recordPayment host l p);
             ls_timestamp := host_now host;
             ls_source := QB_SYNC |} ])%list
  /\ il_payments (recordPayment host l p) = (il_payments l ++ [p])%list.
Proof.
  unfold recordPayment.
  destruct (Qle_bool _ _); [|destruct (negb _)]; split; reflexivity.
Qed.


Lemma applyPayments_snoc (link : InvoiceLink) (calls : list (Host * PaymentRecord))
  (host : Host) (p : PaymentRecord) :
  applyPayments link (calls ++ [(host, p)])%list
  = recordPayment host (applyPayments link calls) p.
Proof. unfold applyPayments. now rewrite fold_left_app. Qed.

Lemma applyPayments_amount (calls : list (Host * PaymentRecord)) :
  forall link, il_amount (applyPayments link calls) = il_amount link.
Proof.
  induction calls as [|[h p] calls IH]; intros link; [reflexivity|].
  unfold applyPayments in *. simpl. rewrite IH. apply recordPayment_amount.
Qed.

Lemma applyPayments_totalPaid_grows (calls : list (Host * PaymentRecord)) :
  forall link,
    (forall call, In call calls -> 0 <= pay_amount (snd call)) ->
    il_totalPaid link <= il_totalPaid (applyPayments link calls).
Proof.
  induction calls as [|[h p] calls IH]; intros link Hpos.
  - apply Qle_refl.
  - unfold applyPayments in *. simpl.
    eapply Qle_trans; [|apply IH; intros c Hc; apply Hpos; now right].
    rewrite recordPayment_totalPaid.
    pose proof (Hpos (h, p) (or_introl eq_refl)) as H0. simpl in H0. lra.
Qed.

(** A negative amount is accepted like any other and lowers
    [totalPaid]: 400 paid, then -100, leaves 300. *)
Lemma totalPaid_decreases_counterexample :
  (let paid400 := recordPayment host3 openLink (paymentRecordOf host3 payment400) in
   il_totalPaid paid400 == 400
   /\ il_totalPaid (recordPayment host4 paid400 reversal100) == 300)
  /\ ~ (forall (host : Host) (link : InvoiceLink) (payment : PaymentRecord),
          il_totalPaid link <= il_totalPaid (recordPayment host link payment)).
Proof.
  split.
  - split; vm_compute; reflexivity.
  - intros H.
    specialize (H host4
                  (recordPayment host3 openLink (paymentRecordOf host3 payment400))
                  reversal100).
    vm_compute in H. apply H. reflexivity.
Qed.

(** C4, as the code has it. After every call in a sequence of payments
    on a link the balance is max(0, amount - totalPaid), and so never
    negative, the amount being the one the link was created with;
    totalPaid does not decrease across the calls as long as no payment
    amount is negative. *)
Theorem payments_keep_balance_invariant
  (link : InvoiceLink) (calls : list (Host * PaymentRecord)) :
  calls <> [] ->
  let after := applyPayments link calls in
  il_balance after = Qmax 0 (il_amount after - il_totalPaid after)
  /\ 0 <= il_balance after
  /\ il_amount after = il_amount link
  /\ ((forall call, In call calls -> 0 <= pay_amount (snd call)) ->
      il_totalPaid link <= il_totalPaid after)
  /\ (forall host payment,
        il_totalPaid (recordPayment host after payment)
        = il_totalPaid after + pay_amount payment).
Proof.
  intros Hne after.
  destruct (exists_last Hne) as [init [[h p] Hcalls]].
  assert (Hbal : il_balance after = Qmax 0 (il_amount after - il_totalPaid after)).
  { unfold after. rewrite Hcalls, applyPayments_snoc.
    now rewrite recordPayment_balance, recordPayment_amount,
      recordPayment_totalPaid. }
  split; [exact Hbal|]. split; [rewrite Hbal; apply Q.le_max_l|].
  split; [apply applyPayments_amount|].
  split; [apply applyPayments_totalPaid_grows|].
  intros host payment. apply recordPayment_totalPaid.
Qed.

Lemma payments_keep_balance_invariant_witness :
  let after := applyPayments openLink
                 [(host3, paymentRecordOf host3 payment400);
                  (host4, paymentRecordOf host4 payment600)] in
  il_balance after = Qmax 0 (il_amount after - il_totalPaid after)
  /\ 0 <= il_balance after
  /\ il_totalPaid openLink <= il_totalPaid after.
Proof.
  destruct (payments_keep_balance_invariant openLink
              [(host3, paymentRecordOf host3 payment400);
               (host4, paymentRecordOf host4 payment600)])
    as [Hbal [Hpos [_ [Hgrow _]]]]; [discriminate|].
  split; [exact Hbal|]. split; [exact Hpos|].
  apply Hgrow. intros call [<-|[<-|[]]]; simpl; discriminate.
Defined.

(** ** Arrays of the store *)

Lemma find_findIndex {A : Type} (p : A -> bool) (l : list A) (x : A) :
  find p l = Some x -> exists i, findIndex p l = Some i.
Proof.
  induction l as [|y l IH]; simpl; [discriminate|].
  destruct (p y); [eexists; reflexivity|].
  intros H. destruct (IH H) as [i Hi]. rewrite Hi. eexists; reflexivity.
Qed.

Lemma find_assignAt {A : Type} (p : A -> bool) (l : list A) (y : A) :
  forall i,
    findIndex p l = Some i -> p y = true ->
    find p (assignAt i y l) = Some y.
Proof.
  induction l as [|x l IH]; intros i Hi Hy; simpl in *; [discriminate|].
  destruct (p x) eqn:Hx.
  - injection Hi as <-. simpl. now rewrite Hy.
  - destruct (findIndex p l) as [j|]; [|discriminate].
    injection Hi as <-. simpl. rewrite Hx. now apply IH.
Qed.

Lemma map_assignAt {A B : Type} (f : A -> B) (p : A -> bool) (l : list A) (y : A) :
  forall i x,
    findIndex p l = Some i -> find p l = Some x -> f y = f x ->
    map f (assignAt i y l) = map f l.
Proof.
  induction l as [|z l IH]; intros i x Hi Hx Hf; simpl in *; [discriminate|].
  destruct (p z).
  - injection Hi as <-. injection Hx as <-. simpl. now rewrite Hf.
  - destruct (findIndex p l) as [j|]; [|discriminate].
    injection Hi as <-. simpl. f_equal. now apply (IH j x).
Qed.

Lemma find_eqb_id {A : Type} (key : A -> string) (id : string) (l : list A) (x : A) :
  find (fun y => String.eqb (key y) id) l = Some x -> key x = id.
Proof.
  intros H. apply find_some in H as [_ H]. now apply String.eqb_eq.
Qed.

(** ** Status transitions of a billable event *)

Lemma storage_updateEvent_found (host : Host) (id : string)
  (updates event : BillableEvent) (s : StorageData) :
  find (fun e => String.eqb (ev_id e) id) (billableEvents s) = Some event ->
  ev_id updates = id ->
  exists s',
    storage_updateEvent host id updates s = (Ok (mergeEvent host updates), s')
    /\ find (fun e => String.eqb (ev_id e) id) (billableEvents s')
       = Some (mergeEvent host updates)
    /\ (ev_idempotencyKey updates = ev_idempotencyKey event ->
        map ev_idempotencyKey (billableEvents s')
        = map ev_idempotencyKey (billableEvents s))
    /\ clientPolicies s' = clientPolicies s
    /\ invoiceLinks s' = invoiceLinks s
    /\ auditLogs s' = auditLogs s.
Proof.
  intros Hfind Hid. unfold storage_updateEvent.
  destruct (find_findIndex _ _ _ Hfind) as [i Hi]. rewrite Hi.
  eexists. split; [reflexivity|]. cbn [billableEvents setBillableEvents
    clientPolicies invoiceLinks auditLogs].
  split; [|split; [|repeat split]].
  - apply find_assignAt; [exact Hi|].
    cbn [mergeEvent ev_id]. rewrite Hid. apply String.eqb_refl.
  - intros Hkey. eapply map_assignAt; [exact Hi | exact Hfind | exact Hkey].
Qed.

Lemma getEventById_found (id : string) (event : BillableEvent) (s : StorageData) :
  find (fun e => String.eqb (ev_id e) id) (billableEvents s) = Some event ->
  getEventById id s = (Ok event, s).
Proof.
  intros H. unfold getEventById, bind, storage_getEventById. now rewrite H.
Qed.

Lemma markAsPaid_found (host : Host) (context : RequestContext) (id : string)
  (event : BillableEvent) (s : StorageData) :
  find (fun e => String.eqb (ev_id e) id) (billableEvents s) = Some event ->
  let updated := updateEventStatus host event EV_PAID (userId context)
                   (Some "Payment received") in
  exists s',
    markAsPaid host context id s = (Ok updated, s')
    /\ find (fun e => String.eqb (ev_id e) id) (billableEvents s')
       = Some (mergeEvent host updated)
    /\ map ev_idempotencyKey (billableEvents s')
       = map ev_idempotencyKey (billableEvents s)
    /\ clientPolicies s' = clientPolicies s
    /\ invoiceLinks s' = invoiceLinks s
    /\ auditLogs s' = auditLogs s.
Proof.
  intros Hfind updated.
  destruct (storage_updateEvent_found host id updated event s Hfind)
    as [s' [Hup [Hf [Hk Hrest]]]].
  { cbn [updated updateEventStatus ev_id]. now apply (find_eqb_id ev_id id _ _ Hfind). }
  exists s'. unfold markAsPaid, bind. rewrite (getEventById_found _ _ _ Hfind).
  fold updated. rewrite Hup. cbn [ret].
  split; [reflexivity|]. split; [exact Hf|]. split; [now apply Hk | exact Hrest].
Qed.

Lemma holdEvent_rejects (host : Host) (context : RequestContext)
  (id reason : string) (event : BillableEvent) (s : StorageData) :
  find (fun e => String.eqb (ev_id e) id) (billableEvents s) = Some event ->
  ev_status event <> EV_PENDING ->
  ev_status event <> EV_APPROVED ->
  holdEvent host context id reason s
  = (Err (ValidationError "Event cannot be put on hold"
            [("status", "Current status is "
                        ++ BillableEventStatus_name (ev_status event))]), s).
Proof.
  intros Hfind Hp Ha. unfold holdEvent, bind.
  rewrite (getEventById_found _ _ _ Hfind).
  destruct (ev_status event); try congruence; reflexivity.
Qed.

Lemma markAsInvoiced_rejects (host : Host) (context : RequestContext)
  (id : string) (event : BillableEvent) (s : StorageData) :
  find (fun e => String.eqb (ev_id e) id) (billableEvents s) = Some event ->
  ev_status event <> EV_APPROVED ->
  markAsInvoiced host context id s
  = (Err (ValidationError "Only approved events can be marked as invoiced"
            [("status", BillableEventStatus_name (ev_status event))]), s).
Proof.
  intros Hfind Ha. unfold markAsInvoiced, bind.
  rewrite (getEventById_found _ _ _ Hfind).
  destruct (ev_status event); try congruence; reflexivity.
Qed.

Lemma approveEvent_rejects (host : Host) (context : RequestContext)
  (id : string) (notes : option string) (event : BillableEvent)
  (s : StorageData) :
  find (fun e => String.eqb (ev_id e) id) (billableEvents s) = Some event ->
  ev_status event <> EV_PENDING ->
  ev_status event <> EV_HOLD ->
  approveEvent host context id notes s
  = (Err (ValidationError "Event cannot be approved"
            [("status", "Current status is "
                        ++ BillableEventStatus_name (ev_status event)
                        ++ ", expected PENDING or HOLD")]), s).
Proof.
  intros Hfind Hp Hh. unfold approveEvent, bind.
  rewrite (getEventById_found _ _ _ Hfind).
  destruct (ev_status event); try congruence; reflexivity.
Qed.

(** C10. [markAsPaid] asks nothing of the status the event is in: for
    every event in the store, whatever its status, the call returns
    the event with status PAID and one more history entry, and stores
    it.  [approveEvent], [holdEvent] and [markAsInvoiced] do refuse:
    on an event that is already PAID each of them fails and leaves the
    store alone. *)
Theorem markAsPaid_any_status :
  (forall (host : Host) (context : RequestContext) (id : string)
          (event : BillableEvent) (s : StorageData),
      find (fun e => String.eqb (ev_id e) id) (billableEvents s) = Some event ->
      exists updated s',
        markAsPaid host context id s = (Ok updated, s')
        /\ ev_status updated = EV_PAID
        /\ ev_statusHistory updated
           = (ev_statusHistory event
              ++ [ {| se_status := EV_PAID;
                      se_timestamp := host_now host;
                      se_userId := userId context;
                      se_reason := Some "Payment received" |} ])%list
        /\ exists stored,
             find (fun e => String.eqb (ev_id e) id) (billableEvents s')
             = Some stored
             /\ ev_status stored = EV_PAID
             /\ ev_statusHistory stored = ev_statusHistory updated)
  /\ (forall (host : Host) (context : RequestContext) (id : string)
             (event : BillableEvent) (s : StorageData),
         find (fun e => String.eqb (ev_id e) id) (billableEvents s) = Some event ->
         ev_status event = EV_PAID ->
         isOk (fst (markAsPaid host context id s)) = true
         /\ (forall notes,
               isOk (fst (approveEvent host context id notes s)) = false
               /\ snd (approveEvent host context id notes s) = s)
         /\ (forall reason,
               isOk (fst (holdEvent host context id reason s)) = false
               /\ snd (holdEvent host context id reason s) = s)
         /\ isOk (fst (markAsInvoiced host context id s)) = false
         /\ snd (markAsInvoiced host context id s) = s).
Proof.
  split.
  - intros host context id event s Hfind.
    destruct (markAsPaid_found host context id event s Hfind)
      as [s' [Hrun [Hstored _]]].
    eexists. exists s'. split; [exact Hrun|].
    split; [reflexivity|]. split; [reflexivity|].
    eexists. split; [exact Hstored|]. split; reflexivity.
  - intros host context id event s Hfind Hpaid.
    destruct (markAsPaid_found host context id event s Hfind) as [s' [Hrun _]].
    rewrite Hrun. split; [reflexivity|]. split; [|split].
    + intros notes.
      rewrite (approveEvent_rejects host context id notes event s Hfind);
        [split; reflexivity | congruence | congruence].
    + intros reason.
      rewrite (holdEvent_rejects host context id reason event s Hfind);
        [split; reflexivity | congruence | congruence].
    + rewrite (markAsInvoiced_rejects host context id event s Hfind);
        [split; reflexivity | congruence].
Qed.

Lemma markAsPaid_any_status_witness :
  exists updated s',
    markAsPaid host4 alice (host_uuid host1) pendingStore = (Ok updated, s')
    /\ ev_status updated = EV_PAID.
Proof.
  destruct (proj1 markAsPaid_any_status host4 alice (host_uuid host1) _
              pendingStore eq_refl) as [updated [s' [Hrun [Hstatus _]]]].
  exists updated, s'. split; assumption.
Defined.

Lemma approveEvent_accepts (host : Host) (context : RequestContext)
  (id : string) (notes : option string) (event : BillableEvent)
  (s : StorageData) :
  find (fun e => String.eqb (ev_id e) id) (billableEvents s) = Some event ->
  ev_status event = EV_PENDING \/ ev_status event = EV_HOLD ->
  let updated :=
    setApproval (updateEventStatus host event EV_APPROVED (userId context) notes)
      (host_now host) (userId context) notes in
  exists s',
    approveEvent host context id notes s = (Ok updated, s')
    /\ find (fun e => String.eqb (ev_id e) id) (billableEvents s')
       = Some (mergeEvent host updated)
    /\ map ev_idempotencyKey (billableEvents s')
       = map ev_idempotencyKey (billableEvents s).
Proof.
  intros Hfind Hstatus updated.
  destruct (storage_updateEvent_found host id updated event s Hfind)
    as [s' [Hup [Hf [Hk _]]]].
  { cbn [updated setApproval updateEventStatus ev_id].
    now apply (find_eqb_id ev_id id _ _ Hfind). }
  eexists. unfold approveEvent, bind.
  rewrite (getEventById_found _ _ _ Hfind).
  assert (Hgate : negb (BillableEventStatus_eqb (ev_status event) EV_PENDING)
                  && negb (BillableEventStatus_eqb (ev_status event) EV_HOLD)
                  = false).
  { destruct Hstatus as [-> | ->]; reflexivity. }
  rewrite Hgate. fold updated. rewrite Hup.
  unfold logEventApprove, auditService_log, storage_saveAuditLog, ret.
  split; [reflexivity|]. cbn [billableEvents setAuditLogs].
  split; [exact Hf | now apply Hk].
Qed.

(** The refusal has no kind of its own.  Approving an INVOICED event
    throws a [ValidationError]: its code is VALIDATION_ERROR and its
    status code 400, those of the error for a client without policy, so
    that a caller branching on the code cannot tell a refused transition
    from invalid input. *)
Lemma approve_refusal_kind_counterexample :
  (exists err,
     approveEvent host4 alice (host_uuid host1) None invoicedStore
     = (Err err, invoicedStore)
     /\ option_map ev_status
          (find (fun e => String.eqb (ev_id e) (host_uuid host1))
             (billableEvents invoicedStore))
        = Some EV_INVOICED
     /\ errorCode err = Some "VALIDATION_ERROR"
     /\ errorCode err = errorCode noPolicyError
     /\ errorStatusCode err = errorStatusCode noPolicyError)
  /\ ~ (forall (host : Host) (context : RequestContext) (id : string)
               (notes : option string) (event : BillableEvent) (s : StorageData),
          find (fun e => String.eqb (ev_id e) id) (billableEvents s) = Some event ->
          ev_status event <> EV_PENDING -> ev_status event <> EV_HOLD ->
          exists err,
            fst (approveEvent host context id notes s) = Err err
            /\ errorCode err <> Some "VALIDATION_ERROR").
Proof.
  split.
  - eexists. split; [vm_compute; reflexivity|]. repeat split.
  - intros H.
    destruct (H host4 alice (host_uuid host1) None _ invoicedStore eq_refl)
      as [err [Hrun Hcode]]; try discriminate.
    vm_compute in Hrun. injection Hrun as <-. now apply Hcode.
Qed.

(** C8, as the code has it. [approve] goes through exactly when the
    event is PENDING or on HOLD: the event becomes APPROVED,
    [approvedAt] and [approvedBy] are stamped, one history entry is
    appended and the result is stored.  From any other status,
    INVOICED for one, the call is refused with the [ValidationError]
    "Event cannot be approved" and the store, and with it the status
    of the event, stays as it was. *)
Theorem approveEvent_only_from_pending_or_hold
  (host : Host) (context : RequestContext) (id : string)
  (notes : option string) (event : BillableEvent) (s : StorageData) :
  find (fun e => String.eqb (ev_id e) id) (billableEvents s) = Some event ->
  (ev_status event = EV_PENDING \/ ev_status event = EV_HOLD ->
   exists updated s',
     approveEvent host context id notes s = (Ok updated, s')
     /\ ev_status updated = EV_APPROVED
     /\ ev_approvedAt updated = Some (host_now host)
     /\ ev_approvedBy updated = Some (userId context)
     /\ ev_statusHistory updated
        = (ev_statusHistory event
           ++ [ {| se_status := EV_APPROVED;
                   se_timestamp := host_now host;
                   se_userId := userId context;
                   se_reason := notes |} ])%list
     /\ exists stored,
          find (fun e => String.eqb (ev_id e) id) (billableEvents s')
          = Some stored
          /\ ev_status stored = EV_APPROVED
          /\ ev_statusHistory stored = ev_statusHistory updated)
  /\ (ev_status event <> EV_PENDING -> ev_status event <> EV_HOLD ->
      exists fields,
        approveEvent host context id notes s
        = (Err (ValidationError "Event cannot be approved" fields), s)
        /\ find (fun e => String.eqb (ev_id e) id) (billableEvents s)
           = Some event)
  /\ (isOk (fst (approveEvent host context id notes s)) = true
      <-> ev_status event = EV_PENDING \/ ev_status event = EV_HOLD).
Proof.
  intros Hfind. split; [|split].
  - intros Hstatus.
    destruct (approveEvent_accepts host context id notes event s Hfind Hstatus)
      as [s' [Hrun [Hstored _]]].
    eexists. exists s'. split; [exact Hrun|].
    repeat (split; [reflexivity|]).
    eexists. split; [exact Hstored|]. split; reflexivity.
  - intros Hp Hh. eexists. split; [|exact Hfind].
    exact (approveEvent_rejects host context id notes event s Hfind Hp Hh).
  - split.
    + intros Hok.
      destruct (ev_status event) eqn:Hs; try (now left); try (now right);
        rewrite (approveEvent_rejects host context id notes event s Hfind)
          in Hok; rewrite ?Hs; try discriminate.
    + intros Hstatus.
      destruct (approveEvent_accepts host context id notes event s Hfind Hstatus)
        as [s' [Hrun _]].
      now rewrite Hrun.
Qed.

Lemma approveEvent_only_from_pending_or_hold_witness :
  exists fields,
    approveEvent host4 alice (host_uuid host1) None invoicedStore
    = (Err (ValidationError "Event cannot be approved" fields), invoicedStore)
    /\ option_map ev_status
         (find (fun e => String.eqb (ev_id e) (host_uuid host1))
            (billableEvents invoicedStore))
       = Some EV_INVOICED.
Proof.
  destruct (approveEvent_only_from_pending_or_hold host4 alice (host_uuid host1)
              None _ invoicedStore eq_refl) as [_ [Hrej _]].
  destruct Hrej as [fields [Hrun Hfind]]; [discriminate | discriminate |].
  exists fields. split; [exact Hrun|]. now rewrite Hfind.
Defined.

(** ** Applying a payment through the service *)


Lemma getInvoiceLinkById_found (id : string) (link : InvoiceLink)
  (s : StorageData) :
  find (fun l => String.eqb (il_id l) id) (invoiceLinks s) = Some link ->
  getInvoiceLinkById id s = (Ok link, s).
Proof.
  intros H. unfold getInvoiceLinkById, bind, storage_getInvoiceLinkById.
  now rewrite H.
Qed.

Lemma QBInvoiceStatus_eqb_eq (a b : QBInvoiceStatus) :
  QBInvoiceStatus_eqb a b = true <-> a = b.
Proof. destruct a, b; simpl; split; congruence. Qed.






(** ** Overdue invoices and aging *)

Lemma ceilDays_positive (host : Host) (dueDate : Z) :
  (0 < ceilDays host dueDate)%Z <-> (dueDate < host_nowMs host)%Z.
Proof.
  unfold ceilDays, Math_ceil.
  set (d := (host_nowMs host - dueDate)%Z).
  change (inject_Z d / inject_Z msPerDay) with (inject_Z d * (1 # 86400000)).
  pose proof (Qle_ceiling (inject_Z d * (1 # 86400000))) as Hle.
  pose proof (Qceiling_lt (inject_Z d * (1 # 86400000))) as Hlt.
  set (c := Qceiling (inject_Z d * (1 # 86400000))) in *.
  assert (Hd : (0 < d)%Z <-> (dueDate < host_nowMs host)%Z) by (unfold d; lia).
  rewrite <- Hd.
  assert (Hq : (0 < d)%Z <-> 0 < inject_Z d).
  { change 0 with (inject_Z 0). now rewrite <- Zlt_Qlt. }
  rewrite Hq. split; intros H.
  - assert (H1 : 0 <= inject_Z (c - 1)).
    { change 0 with (inject_Z 0). rewrite <- Zle_Qle. lia. }
    lra.
  - assert (H1 : 0 < inject_Z c) by lra.
    change 0 with (inject_Z 0) in H1. rewrite <- Zlt_Qlt in H1. exact H1.
Qed.

(** Reported PAID with 500 still open and 45 days past due, a link is
    not overdue and counts 0 days. *)
Lemma overdue_iff_counterexample :
  (il_qbStatus paidStatusLink = QB_PAID
   /\ il_balance paidStatusLink == 500
   /\ (host_nowMs host1 - il_dueDate paidStatusLink = 45 * msPerDay)%Z
   /\ isOverdue host1 paidStatusLink = false
   /\ getDaysOverdue host1 paidStatusLink = 0%Z
   /\ Z.max 0 (ceilDays host1 (il_dueDate paidStatusLink)) = 45%Z)
  /\ ~ (forall (host : Host) (link : InvoiceLink),
          isOverdue host link = true
          <-> 0 < il_balance link /\ (il_dueDate link < host_nowMs host)%Z).
Proof.
  split.
  - repeat split.
  - intros H. destruct (H host1 paidStatusLink) as [_ Hback].
    discriminate Hback. split; reflexivity.
Qed.

(** C7, as the code has it. A link is overdue exactly when it is not in
    status PAID, its balance is above 0 and the clock is past its due
    date.  The days overdue are 0 for a link that is PAID or has no
    balance left, and otherwise the ceiling of (now - dueDate) in whole
    days, but not below 0.  An overdue link is reported with at least
    one day, under 1-30 up to 30 days, 31-60 up to 60, 61-90 up to 90
    and 90+ beyond; 45 days past due with a balance and not PAID is
    31-60; a link without balance is never overdue. *)
Theorem overdue_and_aging_buckets (host : Host) (link : InvoiceLink) :
  (isOverdue host link = true
   <-> il_qbStatus link <> QB_PAID
       /\ 0 < il_balance link
       /\ (il_dueDate link < host_nowMs host)%Z)
  /\ getDaysOverdue host link
     = (if QBInvoiceStatus_eqb (il_qbStatus link) QB_PAID
           || Qle_bool (il_balance link) 0
        then 0
        else Z.max 0 (Qceiling (inject_Z (host_nowMs host - il_dueDate link)
                                / inject_Z (1000 * 60 * 60 * 24))))%Z
  /\ (isOverdue host link = true ->
      let days := getDaysOverdue host link in
      (1 <= days)%Z
      /\ row_daysOverdue (overdueRow host link) = days
      /\ ((days <= 30)%Z -> reportedBucket host link = Some B_1_30)
      /\ ((30 < days <= 60)%Z -> reportedBucket host link = Some B_31_60)
      /\ ((60 < days <= 90)%Z -> reportedBucket host link = Some B_61_90)
      /\ ((90 < days)%Z -> reportedBucket host link = Some B_90_PLUS))
  /\ (il_qbStatus link <> QB_PAID -> 0 < il_balance link ->
      (host_nowMs host - il_dueDate link = 45 * msPerDay)%Z ->
      isOverdue host link = true
      /\ getDaysOverdue host link = 45%Z
      /\ reportedBucket host link = Some B_31_60)
  /\ (il_balance link <= 0 ->
      isOverdue host link = false /\ reportedBucket host link = None)
  /\ (forall s report s',
        getOverdueReport host s = (Ok report, s') ->
        s' = s
        /\ snd report = map (overdueRow host) (filter (isOverdue host) (invoiceLinks s))
        /\ count (fst report) = List.length (snd report)).
Proof.
  assert (Hiff : isOverdue host link = true
                 <-> il_qbStatus link <> QB_PAID
                     /\ 0 < il_balance link
                     /\ (il_dueDate link < host_nowMs host)%Z).
  { unfold isOverdue, getDaysOverdue.
    destruct (QBInvoiceStatus_eqb (il_qbStatus link) QB_PAID) eqn:Hp; simpl.
    { apply QBInvoiceStatus_eqb_eq in Hp. split; [discriminate | tauto]. }
    assert (Hnp : il_qbStatus link <> QB_PAID).
    { intros H. apply QBInvoiceStatus_eqb_eq in H. congruence. }
    destruct (Qle_bool (il_balance link) 0) eqn:Hb.
    { apply Qle_bool_iff in Hb. split; [discriminate|].
      intros [_ [Hpos _]]. lra. }
    assert (Hpos : 0 < il_balance link).
    { apply Qnot_le_lt. intros H. apply Qle_bool_iff in H. congruence. }
    rewrite Z.ltb_lt, <- ceilDays_positive. split.
    - intros H. repeat split; try assumption. lia.
    - intros [_ [_ H]]. lia. }
  assert (Hdays : isOverdue host link = true ->
                  getDaysOverdue host link = ceilDays host (il_dueDate link)
                  /\ (1 <= getDaysOverdue host link)%Z).
  { intros Hov. pose proof Hov as Hov'. apply Hiff in Hov' as [Hnp [Hpos Hdue]].
    unfold isOverdue in Hov. apply Z.ltb_lt in Hov.
    unfold getDaysOverdue in *.
    destruct (QBInvoiceStatus_eqb (il_qbStatus link) QB_PAID
              || Qle_bool (il_balance link) 0); lia. }
  split; [exact Hiff|]. split; [reflexivity|]. split; [|split; [|split]].
  - intros Hov days. destruct (Hdays Hov) as [Hd H1].
    unfold reportedBucket. rewrite Hov. cbn [overdueRow row_daysOverdue row_agingBucket].
    fold days in Hd, H1. rewrite <- Hd. unfold agingBucketOf.
    split; [exact H1|]. split; [reflexivity|].
    repeat split; intros Hrange;
      repeat match goal with
             | |- context [(?a <=? ?b)%Z] => destruct (Z.leb_spec a b); try lia
             end; reflexivity.
  - intros Hnp Hpos H45.
    assert (Hov : isOverdue host link = true).
    { apply Hiff. repeat split; try assumption.
      unfold msPerDay in H45. lia. }
    destruct (Hdays Hov) as [Hd _].
    assert (H45' : ceilDays host (il_dueDate link) = 45%Z).
    { unfold ceilDays. rewrite H45. reflexivity. }
    split; [exact Hov|]. split; [congruence|].
    unfold reportedBucket. rewrite Hov.
    cbn [overdueRow row_agingBucket]. now rewrite H45'.
  - intros Hle.
    assert (Hno : isOverdue host link = false).
    { destruct (isOverdue host link) eqn:Hov; [|reflexivity].
      destruct (proj1 Hiff eq_refl) as [_ [Hpos _]]. lra. }
    split; [exact Hno|]. unfold reportedBucket. now rewrite Hno.
  - intros s report s' Hrun.
    unfold getOverdueReport, bind, getOverdueInvoices,
      storage_getOverdueInvoiceLinks, ret in Hrun.
    injection Hrun as <- <-. cbn [fst snd].
    split; [reflexivity|]. split; [reflexivity|].
    assert (Hcount : forall rows summary,
               count (fold_left addToSummary rows summary) = count summary).
    { induction rows as [|r rows IH]; intros summary; [reflexivity|].
      simpl. now rewrite IH. }
    rewrite Hcount. cbn [count]. now rewrite length_map.
Qed.

Lemma overdue_and_aging_buckets_witness :
  isOverdue host1 dueLink = true
  /\ getDaysOverdue host1 dueLink = 45%Z
  /\ reportedBucket host1 dueLink = Some B_31_60.
Proof.
  apply (proj1 (proj2 (proj2 (proj2 (overdue_and_aging_buckets host1 dueLink))))).
  - discriminate.
  - reflexivity.
  - reflexivity.
Defined.

(** ** Creating events *)

Section CreateEventProofs.
Context {ext : External}.

Lemma createBillableEvent_key (host : Host) (input : NewEvent) (e : BillableEvent) :
  createBillableEvent host input = Ok e ->
  generateIdempotencyKey (ne_clientCode input) (ne_controlNumber input)
    (DateString (ne_triggerDate input)) (ne_feeType input)
  = Ok (ev_idempotencyKey e).
Proof.
  unfold createBillableEvent.
  destruct (generateIdempotencyKey _ _ _ _) as [key|err]; [|discriminate].
  unfold BillableEventSchema_parse.
  repeat match goal with
         | |- (if ?b then _ else _) = _ -> _ => destruct b; [discriminate|]
         end.
  intros H. injection H as <-. reflexivity.
Qed.

(** What one call of [createEvent] does to the store. *)
Lemma createEvent_outcome (host : Host) (context : RequestContext)
  (input : CreateEventInput) (s : StorageData) :
  match createEvent host context input s with
  | (Ok e, s') =>
      exists policy,
        find (fun p => String.eqb (cp_clientId p) (in_clientId input)
                       && cp_isActive p) (clientPolicies s) = Some policy
        /\ generateIdempotencyKey (cp_clientCode policy) (in_controlNumber input)
             (DateString (in_triggerDate input)) (in_feeType input)
           = Ok (ev_idempotencyKey e)
        /\ existsb (fun x => String.eqb (ev_idempotencyKey x) (ev_idempotencyKey e))
             (billableEvents s) = false
        /\ billableEvents s' = (billableEvents s ++ [e])%list
        /\ clientPolicies s' = clientPolicies s
        /\ invoiceLinks s' = invoiceLinks s
  | (Err _, s') => s' = s
  end.
Proof.
  unfold createEvent, bind, storage_getPolicyByClientId.
  destruct (find _ (clientPolicies s)) as [policy|] eqn:Hp; [|reflexivity].
  unfold validateBeforeCreate, bind, keyExists, storage_idempotencyKeyExists.
  destruct (generateIdempotencyKey _ _ _ _) as [key|err] eqn:Hk; [|reflexivity].
  cbn [liftResult ret].
  destruct (existsb _ (billableEvents s)) eqn:Hex; [reflexivity|].
  cbn [ret].
  destruct (resolveAmount policy input) as [amount|err] eqn:Ha; [|reflexivity].
  cbn [liftResult ret].
  destruct (createBillableEvent host _) as [event|err] eqn:Hc; [|reflexivity].
  cbn [liftResult ret].
  unfold storage_saveEvent, bind, storage_getEventByIdempotencyKey.
  destruct (find _ (billableEvents s)) as [existing|] eqn:Hf; [reflexivity|].
  unfold storage_pushEvent, ret, logEventCreate, auditService_log,
    storage_saveAuditLog.
  apply createBillableEvent_key in Hc. cbn [newEventOf ne_clientCode
    ne_controlNumber ne_triggerDate ne_feeType] in Hc.
  assert (Hkey : key = ev_idempotencyKey event) by congruence.
  exists policy. rewrite <- Hkey. repeat split; assumption.
Qed.

Lemma createEvent_duplicate (host : Host) (context : RequestContext)
  (input : CreateEventInput) (s : StorageData) (key : string) :
  derivedKey s input = Some key ->
  In key (map ev_idempotencyKey (billableEvents s)) ->
  createEvent host context input s = (Err (DuplicateError key), s).
Proof.
  unfold derivedKey, createEvent, bind, storage_getPolicyByClientId.
  destruct (find _ (clientPolicies s)) as [policy|]; [|discriminate].
  unfold validateBeforeCreate, bind, keyExists, storage_idempotencyKeyExists.
  destruct (generateIdempotencyKey _ _ _ _) as [k|err]; [|discriminate].
  intros H Hin. injection H as ->. cbn [liftResult ret].
  assert (Hex : existsb (fun x => String.eqb (ev_idempotencyKey x) key)
                  (billableEvents s) = true).
  { apply in_map_iff in Hin as [x [Hx Hin]].
    apply existsb_exists. exists x. split; [exact Hin|].
    rewrite Hx. apply String.eqb_refl. }
  now rewrite Hex.
Qed.

End CreateEventProofs.

Lemma existsb_key_false (key : string) (events : list BillableEvent) :
  existsb (fun x => String.eqb (ev_idempotencyKey x) key) events = false ->
  ~ In key (map ev_idempotencyKey events).
Proof.
  intros Hex Hin. apply in_map_iff in Hin as [x [Hx Hin]].
  assert (H : existsb (fun x => String.eqb (ev_idempotencyKey x) key) events = true).
  { apply existsb_exists. exists x. split; [exact Hin|].
    rewrite Hx. apply String.eqb_refl. }
  congruence.
Qed.

Lemma NoDup_snoc {A : Type} (l : list A) (x : A) :
  NoDup l -> ~ In x l -> NoDup (l ++ [x])%list.
Proof.
  induction l as [|y l IH]; intros Hnd Hx; simpl.
  - constructor; [intros [] | constructor].
  - inversion Hnd as [|? ? Hy Hl]; subst. constructor.
    + intros Hin. apply in_app_or in Hin as [Hin | [-> | []]].
      * contradiction.
      * apply Hx. now left.
    + apply IH; [exact Hl|]. intros Hin. apply Hx. now right.
Qed.

Lemma createEvent_keeps_uniqueKeys {ext : External} (host : Host)
  (context : RequestContext) (input : CreateEventInput) (s : StorageData) :
  uniqueKeys s -> uniqueKeys (snd (createEvent host context input s)).
Proof.
  intros Hu. pose proof (createEvent_outcome host context input s) as H.
  destruct (createEvent host context input s) as [[e|err] s']; cbn [snd].
  - destruct H as [policy [_ [_ [Hex [Hev _]]]]].
    unfold uniqueKeys. rewrite Hev, map_app. cbn [map].
    apply NoDup_snoc; [exact Hu | now apply existsb_key_false].
  - now subst s'.
Qed.

(** C1. When a first [create] goes through, it adds exactly one event,
    stored under the key its inputs derive; a second [create] whose
    inputs derive the same key, run after it, fails with the Duplicate
    error carrying that key and leaves the store, and so the first
    event, as it was.  A store whose events have pairwise different
    keys keeps that property through every [create], one after the
    other. *)
Theorem create_twice_is_rejected {ext : External}
  (hostA hostB : Host) (contextA contextB : RequestContext)
  (inputA inputB : CreateEventInput) (s sA : StorageData) (eA : BillableEvent) :
  createEvent hostA contextA inputA s = (Ok eA, sA) ->
  derivedKey s inputB = derivedKey s inputA ->
  derivedKey s inputA = Some (ev_idempotencyKey eA)
  /\ billableEvents sA = (billableEvents s ++ [eA])%list
  /\ createEvent hostB contextB inputB sA
     = (Err (DuplicateError (ev_idempotencyKey eA)), sA)
  /\ (uniqueKeys s ->
      uniqueKeys sA
      /\ uniqueKeys (snd (createEvent hostB contextB inputB sA)))
  /\ (forall host context input s0,
        uniqueKeys s0 -> uniqueKeys (snd (createEvent host context input s0))).
Proof.
  intros Hrun Hsame.
  pose proof (createEvent_outcome hostA contextA inputA s) as H.
  rewrite Hrun in H. destruct H as [policy [Hp [Hk [Hex [Hev [Hpol _]]]]]].
  assert (HkeyA : derivedKey s inputA = Some (ev_idempotencyKey eA)).
  { unfold derivedKey. now rewrite Hp, Hk. }
  assert (Hdup : createEvent hostB contextB inputB sA
                 = (Err (DuplicateError (ev_idempotencyKey eA)), sA)).
  { apply createEvent_duplicate.
    - unfold derivedKey in *. rewrite Hpol. congruence.
    - rewrite Hev, map_app. apply in_or_app. right. now left. }
  split; [exact HkeyA|]. split; [exact Hev|]. split; [exact Hdup|]. split.
  - intros Hu.
    assert (HuA : uniqueKeys sA).
    { pose proof (createEvent_keeps_uniqueKeys hostA contextA inputA s Hu) as H.
      now rewrite Hrun in H. }
    split; [exact HuA|]. now rewrite Hdup.
  - intros host context input s0. apply createEvent_keeps_uniqueKeys.
Qed.

Lemma create_twice_is_rejected_witness :
  exists eA sA,
    createEvent host1 alice placement acmeStore = (Ok eA, sA)
    /\ billableEvents sA = [eA]
    /\ createEvent host2 alice placementAgain sA
       = (Err (DuplicateError "ACME-PL-12345-20231215-ONBOARD_FEE"), sA).
Proof.
  destruct (createEvent host1 alice placement acmeStore) as [[eA|err] sA] eqn:Hrun.
  - destruct (create_twice_is_rejected host1 host2 alice alice placement
                placementAgain acmeStore sA eA Hrun eq_refl)
      as [Hkey [Hev [Hdup _]]].
    exists eA, sA. split; [reflexivity|]. split; [exact Hev|].
    vm_compute in Hkey. injection Hkey as Hkey. rewrite Hkey. exact Hdup.
  - vm_compute in Hrun. discriminate.
Defined.

(** ** Two calls of [createEvent] in flight *)

Section CreateTaskProofs.
Context {ext : External}.

(** Run without interruption, the task is the method. *)
Lemma runAlone_is_createEvent (c : Caller) (s : StorageData) :
  runAlone 5 c T_start s
  = (T_done (fst (createEvent (c_host c) (c_context c) (c_input c) s)),
     snd (createEvent (c_host c) (c_context c) (c_input c) s)).
Proof.
  unfold createEvent, bind, storage_getPolicyByClientId.
  cbn [runAlone stepCreate]. unfold storage_getPolicyByClientId.
  destruct (find _ (clientPolicies s)) as [policy|]; [|reflexivity].
  unfold validateBeforeCreate, bind, keyExists, storage_idempotencyKeyExists.
  cbn [stepCreate]. unfold storage_idempotencyKeyExists.
  destruct (generateIdempotencyKey _ _ _ _) as [key|err]; [|reflexivity].
  cbn [liftResult ret stepCreate].
  destruct (existsb _ (billableEvents s)); [reflexivity|].
  cbn [ret].
  destruct (resolveAmount policy (c_input c)) as [amount|err]; [|reflexivity].
  cbn [liftResult ret].
  destruct (createBillableEvent (c_host c) _) as [event|err]; [|reflexivity].
  cbn [liftResult ret].
  unfold storage_saveEvent, bind, storage_getEventByIdempotencyKey.
  cbn [stepCreate].
  destruct (find _ (billableEvents s)) as [existing|]; reflexivity.
Qed.

(** The steps a successful call went through. *)
Lemma createEvent_ok_steps (host : Host) (context : RequestContext)
  (input : CreateEventInput) (s s' : StorageData) (e : BillableEvent) :
  createEvent host context input s = (Ok e, s') ->
  exists policy amount,
    find (fun p => String.eqb (cp_clientId p) (in_clientId input)
                   && cp_isActive p) (clientPolicies s) = Some policy
    /\ generateIdempotencyKey (cp_clientCode policy) (in_controlNumber input)
         (DateString (in_triggerDate input)) (in_feeType input)
       = Ok (ev_idempotencyKey e)
    /\ existsb (fun x => String.eqb (ev_idempotencyKey x) (ev_idempotencyKey e))
         (billableEvents s) = false
    /\ resolveAmount policy input = Ok amount
    /\ createBillableEvent host (newEventOf context policy input amount) = Ok e
    /\ find (fun x => String.eqb (ev_idempotencyKey x) (ev_idempotencyKey e))
         (billableEvents s) = None.
Proof.
  unfold createEvent, bind, storage_getPolicyByClientId.
  destruct (find _ (clientPolicies s)) as [policy|] eqn:Hp; [|discriminate].
  unfold validateBeforeCreate, bind, keyExists, storage_idempotencyKeyExists.
  destruct (generateIdempotencyKey _ _ _ _) as [key|err] eqn:Hk; [|discriminate].
  cbn [liftResult ret].
  destruct (existsb _ (billableEvents s)) eqn:Hex; [discriminate|].
  cbn [ret].
  destruct (resolveAmount policy input) as [amount|err] eqn:Ha; [|discriminate].
  cbn [liftResult ret].
  destruct (createBillableEvent host _) as [event|err] eqn:Hc; [|discriminate].
  cbn [liftResult ret].
  unfold storage_saveEvent, bind, storage_getEventByIdempotencyKey.
  destruct (find _ (billableEvents s)) as [existing|] eqn:Hf; [discriminate|].
  unfold storage_pushEvent, ret, logEventCreate, auditService_log,
    storage_saveAuditLog.
  intros H. injection H as <- _.
  pose proof (createBillableEvent_key _ _ _ Hc) as Hkey.
  cbn [newEventOf ne_clientCode ne_controlNumber ne_triggerDate ne_feeType] in Hkey.
  assert (key = ev_idempotencyKey event) by congruence. subst key.
  exists policy, amount. repeat split; assumption.
Qed.

(** Two calls that would each succeed on the store, run in lockstep,
    both succeed: each has looked for its key before the other has
    pushed. *)
Lemma lockstep_both_succeed (c1 c2 : Caller) (s s1 s2 : StorageData)
  (e1 e2 : BillableEvent) :
  createEvent (c_host c1) (c_context c1) (c_input c1) s = (Ok e1, s1) ->
  createEvent (c_host c2) (c_context c2) (c_input c2) s = (Ok e2, s2) ->
  exists s',
    interleave [First; Second; First; Second; First; Second; First; Second;
                First; Second] c1 c2 T_start T_start s
    = (T_done (Ok e1), T_done (Ok e2), s')
    /\ billableEvents s' = (billableEvents s ++ [e1; e2])%list.
Proof.
  intros H1 H2.
  destruct (createEvent_ok_steps _ _ _ _ _ _ H1)
    as [p1 [a1 [Hp1 [Hk1 [Hx1 [Ha1 [Hc1 Hf1]]]]]]].
  destruct (createEvent_ok_steps _ _ _ _ _ _ H2)
    as [p2 [a2 [Hp2 [Hk2 [Hx2 [Ha2 [Hc2 Hf2]]]]]]].
  eexists.
  cbn [interleave stepCreate]. unfold storage_getPolicyByClientId.
  rewrite Hp1, Hp2. cbn [interleave stepCreate].
  rewrite Hk1, Hk2. unfold storage_idempotencyKeyExists.
  rewrite Hx1, Hx2. cbn [interleave stepCreate].
  rewrite Ha1, Ha2, Hc1, Hc2. unfold storage_getEventByIdempotencyKey.
  rewrite Hf1, Hf2. cbn [interleave stepCreate].
  unfold storage_pushEvent, logEventCreate, auditService_log,
    storage_saveAuditLog.
  cbn [interleave stepCreate].
  split; [reflexivity|].
  cbn [billableEvents setBillableEvents setAuditLogs].
  now rewrite <- app_assoc.
Qed.

End CreateTaskProofs.

Lemma not_NoDup_twice {A : Type} (l : list A) (x : A) :
  ~ NoDup (l ++ [x; x])%list.
Proof.
  induction l as [|y l IH]; simpl; intros H; inversion H as [|? ? Hnotin Hrest].
  - apply Hnotin. now left.
  - now apply IH.
Qed.

(** C2, against the code. The existence check and the insert of
    [createEvent] are separate reads and a write with [await]s between
    them.  Two calls that derive the same key and would each succeed
    on the store, run with their steps alternating, both return an
    event, and the store ends up with two events under one idempotency
    key; so it goes for the same placement submitted twice to the
    sample store. *)
Theorem concurrent_creates_both_insert :
  (forall (ext : External) (c1 c2 : Caller) (s s1 s2 : StorageData)
          (e1 e2 : BillableEvent),
      createEvent (c_host c1) (c_context c1) (c_input c1) s = (Ok e1, s1) ->
      createEvent (c_host c2) (c_context c2) (c_input c2) s = (Ok e2, s2) ->
      derivedKey s (c_input c1) = derivedKey s (c_input c2) ->
      exists s',
        interleave lockstep c1 c2 T_start T_start s
        = (T_done (Ok e1), T_done (Ok e2), s')
        /\ billableEvents s' = (billableEvents s ++ [e1; e2])%list
        /\ ev_idempotencyKey e1 = ev_idempotencyKey e2
        /\ ~ uniqueKeys s')
  /\ derivedKey acmeStore (c_input caller1) = derivedKey acmeStore (c_input caller2)
  /\ match interleave lockstep caller1 caller2 T_start T_start acmeStore with
     | (T_done (Ok eA), T_done (Ok eB), s') =>
         billableEvents s' = [eA; eB]
         /\ ev_idempotencyKey eA = "ACME-PL-12345-20231215-ONBOARD_FEE"
         /\ ev_idempotencyKey eB = "ACME-PL-12345-20231215-ONBOARD_FEE"
         /\ ~ uniqueKeys s'
     | _ => False
     end.
Proof.
  split; [|split; [reflexivity|]].
  - intros ext c1 c2 s s1 s2 e1 e2 H1 H2 Hsame.
    destruct (lockstep_both_succeed c1 c2 s s1 s2 e1 e2 H1 H2) as [s' [Hrun Hev]].
    assert (Hkey : ev_idempotencyKey e1 = ev_idempotencyKey e2).
    { destruct (createEvent_ok_steps _ _ _ _ _ _ H1) as [p1 [a1 [Hp1 [Hk1 _]]]].
      destruct (createEvent_ok_steps _ _ _ _ _ _ H2) as [p2 [a2 [Hp2 [Hk2 _]]]].
      unfold derivedKey in Hsame. rewrite Hp1, Hk1, Hp2, Hk2 in Hsame.
      congruence. }
    exists s'. split; [exact Hrun|]. split; [exact Hev|]. split; [exact Hkey|].
    unfold uniqueKeys. rewrite Hev, map_app. cbn [map]. rewrite Hkey.
    apply not_NoDup_twice.
  - vm_compute. repeat split.
    intros H. inversion H as [|? ? Hnotin _]. apply Hnotin. now left.
Qed.

Lemma concurrent_creates_both_insert_witness :
  exists e1 e2 s',
    interleave lockstep caller1 caller2 T_start T_start acmeStore
    = (T_done (Ok e1), T_done (Ok e2), s')
    /\ ev_idempotencyKey e1 = ev_idempotencyKey e2
    /\ ~ uniqueKeys s'.
Proof.
  destruct (createEvent host1 alice placement acmeStore) as [[e1|err1] s1] eqn:H1;
    [|vm_compute in H1; discriminate].
  destruct (createEvent host2 alice placementAgain acmeStore) as [[e2|err2] s2] eqn:H2;
    [|vm_compute in H2; discriminate].
  destruct (proj1 concurrent_creates_both_insert utcExternal caller1 caller2
              acmeStore s1 s2 e1 e2 H1 H2 eq_refl)
    as [s' [Hrun [_ [Hkey Hdup]]]].
  exists e1, e2, s'. repeat split; assumption.
Defined.

(* ================================================================== *)
(** * Further properties of the ledger *)

(** ** The life cycle of an event *)

Lemma Forall_assignAt {A : Type} (P : A -> Prop) (l : list A) (y : A) :
  forall i, Forall P l -> P y -> Forall P (assignAt i y l).
Proof.
  induction l as [|x l IH]; intros i Hl Hy.
  - destruct i; constructor.
  - inversion Hl as [|? ? Hx Hrest]; subst.
    destruct i as [|i]; simpl; constructor; try assumption. now apply IH.
Qed.

Lemma length_assignAt {A : Type} (l : list A) (y : A) :
  forall i, List.length (assignAt i y l) = List.length l.
Proof.
  induction l as [|x l IH]; intros i.
  - destruct i; reflexivity.
  - destruct i as [|i]; simpl; [reflexivity | now rewrite IH].
Qed.

Lemma sameEventKeys_refl (s : StorageData) : sameEventKeys s s.
Proof. repeat split. Qed.

Lemma sameEventKeys_uniqueKeys (s s' : StorageData) :
  sameEventKeys s s' -> uniqueKeys s -> uniqueKeys s'.
Proof. intros [_ [Hk _]] Hu. unfold uniqueKeys. now rewrite Hk. Qed.

Lemma historyTracksStatus_updateEventStatus (host : Host) (e : BillableEvent)
  (status : BillableEventStatus) (user : string) (reason : option string) :
  historyTracksStatus (updateEventStatus host e status user reason).
Proof.
  unfold historyTracksStatus. cbn [updateEventStatus ev_statusHistory ev_status].
  rewrite map_app. cbn [map]. now rewrite last_last.
Qed.

(** Writing back an event that kept its id and key changes nothing
    else in the store. *)
Lemma storage_updateEvent_frame (host : Host) (id : string)
  (updates event : BillableEvent) (s : StorageData) :
  find (fun e => String.eqb (ev_id e) id) (billableEvents s) = Some event ->
  ev_id updates = ev_id event ->
  ev_idempotencyKey updates = ev_idempotencyKey event ->
  exists s',
    storage_updateEvent host id updates s = (Ok (mergeEvent host updates), s')
    /\ find (fun e => String.eqb (ev_id e) id) (billableEvents s')
       = Some (mergeEvent host updates)
    /\ sameEventKeys s s'
    /\ auditLogs s' = auditLogs s
    /\ (forall P : BillableEvent -> Prop,
          Forall P (billableEvents s) -> P (mergeEvent host updates) ->
          Forall P (billableEvents s')).
Proof.
  intros Hfind Hid Hkey. unfold storage_updateEvent.
  destruct (find_findIndex _ _ _ Hfind) as [i Hi]. rewrite Hi.
  eexists. split; [reflexivity|].
  unfold sameEventKeys.
  cbn [billableEvents setBillableEvents clientPolicies invoiceLinks auditLogs].
  split; [|split; [split; [|split; [|split]]|split]]; try reflexivity.
  - apply find_assignAt; [exact Hi|].
    cbn [mergeEvent ev_id]. rewrite Hid.
    rewrite (find_eqb_id ev_id id _ _ Hfind). apply String.eqb_refl.
  - eapply map_assignAt; [exact Hi | exact Hfind | exact Hid].
  - eapply map_assignAt; [exact Hi | exact Hfind | exact Hkey].
  - intros P Hall Hy. now apply Forall_assignAt.
Qed.

Lemma getEventById_missing (id : string) (s : StorageData) :
  find (fun e => String.eqb (ev_id e) id) (billableEvents s) = None ->
  getEventById id s = (Err (NotFoundError "BillableEvent" id), s).
Proof.
  intros H. unfold getEventById, bind, storage_getEventById. now rewrite H.
Qed.

Ltac finish_transition Hfind :=
  match goal with
  | |- context [storage_updateEvent ?host ?id ?updated ?s] =>
      let s' := fresh "s'" in
      let Hup := fresh "Hup" in
      let Hsame := fresh "Hsame" in
      let Hall := fresh "Hall" in
      destruct (storage_updateEvent_frame host id updated _ s Hfind eq_refl eq_refl)
        as [s' [Hup [_ [Hsame [_ Hall]]]]];
      rewrite Hup;
      unfold logEventApprove, logEventHold, auditService_log,
        storage_saveAuditLog, ret, sameEventKeys in *;
      cbn [fst snd isOk billableEvents clientPolicies invoiceLinks setAuditLogs];
      split; [exact Hsame|]; split; [discriminate|];
      intros HP; apply (Hall historyTracksStatus HP);
      unfold historyTracksStatus;
      cbn [mergeEvent setApproval setHold updateEventStatus
             ev_statusHistory ev_status];
      rewrite map_app; cbn [map]; now rewrite last_last
  end.

Lemma approveEvent_keepsLedger (host : Host) (context : RequestContext)
  (id : string) (notes : option string) :
  keepsLedger (approveEvent host context id notes).
Proof.
  intros s. unfold approveEvent, bind.
  destruct (find (fun e => String.eqb (ev_id e) id) (billableEvents s))
    as [event|] eqn:Hfind.
  - rewrite (getEventById_found _ _ _ Hfind).
    destruct (negb _ && negb _).
    + cbn. split; [apply sameEventKeys_refl | tauto].
    + finish_transition Hfind.
  - rewrite (getEventById_missing _ _ Hfind). cbn.
    split; [apply sameEventKeys_refl | tauto].
Qed.

Lemma holdEvent_keepsLedger (host : Host) (context : RequestContext)
  (id reason : string) :
  keepsLedger (holdEvent host context id reason).
Proof.
  intros s. unfold holdEvent, bind.
  destruct (find (fun e => String.eqb (ev_id e) id) (billableEvents s))
    as [event|] eqn:Hfind.
  - rewrite (getEventById_found _ _ _ Hfind).
    destruct (negb _ && negb _).
    + cbn. split; [apply sameEventKeys_refl | tauto].
    + finish_transition Hfind.
  - rewrite (getEventById_missing _ _ Hfind). cbn.
    split; [apply sameEventKeys_refl | tauto].
Qed.

Lemma markAsInvoiced_keepsLedger (host : Host) (context : RequestContext)
  (id : string) :
  keepsLedger (markAsInvoiced host context id).
Proof.
  intros s. unfold markAsInvoiced, bind.
  destruct (find (fun e => String.eqb (ev_id e) id) (billableEvents s))
    as [event|] eqn:Hfind.
  - rewrite (getEventById_found _ _ _ Hfind).
    destruct (negb _).
    + cbn. split; [apply sameEventKeys_refl | tauto].
    + finish_transition Hfind.
  - rewrite (getEventById_missing _ _ Hfind). cbn.
    split; [apply sameEventKeys_refl | tauto].
Qed.

Lemma markAsPaid_keepsLedger (host : Host) (context : RequestContext)
  (id : string) :
  keepsLedger (markAsPaid host context id).
Proof.
  intros s. unfold markAsPaid, bind.
  destruct (find (fun e => String.eqb (ev_id e) id) (billableEvents s))
    as [event|] eqn:Hfind.
  - rewrite (getEventById_found _ _ _ Hfind). finish_transition Hfind.
  - rewrite (getEventById_missing _ _ Hfind). cbn.
    split; [apply sameEventKeys_refl | tauto].
Qed.

Lemma BillableEventStatus_eqb_eq (a b : BillableEventStatus) :
  BillableEventStatus_eqb a b = true <-> a = b.
Proof. destruct a, b; simpl; split; congruence. Qed.

(** X1. [holdEvent] goes through exactly from PENDING or APPROVED, with any
    reason, the empty one included: the event is put on HOLD, the
    reason, the time and the user are recorded, and the history gets
    one entry carrying the reason.  From any other status the call
    fails with "Event cannot be put on hold" and the store is left as
    it was. *)
Theorem holdEvent_only_from_pending_or_approved
  (host : Host) (context : RequestContext) (id reason : string)
  (event : BillableEvent) (s : StorageData) :
  find (fun e => String.eqb (ev_id e) id) (billableEvents s) = Some event ->
  (ev_status event = EV_PENDING \/ ev_status event = EV_APPROVED ->
   exists updated s' stored,
     holdEvent host context id reason s = (Ok updated, s')
     /\ ev_status updated = EV_HOLD
     /\ ev_holdReason updated = Some reason
     /\ ev_holdAt updated = Some (host_now host)
     /\ ev_holdBy updated = Some (userId context)
     /\ ev_statusHistory updated
        = (ev_statusHistory event
           ++ [ {| se_status := EV_HOLD;
                   se_timestamp := host_now host;
                   se_userId := userId context;
                   se_reason := Some reason |} ])%list
     /\ find (fun e => String.eqb (ev_id e) id) (billableEvents s') = Some stored
     /\ ev_status stored = EV_HOLD
     /\ ev_holdReason stored = Some reason
     /\ ev_statusHistory stored = ev_statusHistory updated)
  /\ (ev_status event <> EV_PENDING -> ev_status event <> EV_APPROVED ->
      exists fields,
        holdEvent host context id reason s
        = (Err (ValidationError "Event cannot be put on hold" fields), s))
  /\ (isOk (fst (holdEvent host context id reason s)) = true
      <-> ev_status event = EV_PENDING \/ ev_status event = EV_APPROVED).
Proof.
  intros Hfind.
  assert (Hacc : ev_status event = EV_PENDING \/ ev_status event = EV_APPROVED ->
                 exists s',
                   holdEvent host context id reason s
                   = (Ok (setHold (updateEventStatus host event EV_HOLD
                                     (userId context) (Some reason))
                            reason (host_now host) (userId context)), s')
                   /\ find (fun e => String.eqb (ev_id e) id) (billableEvents s')
                      = Some (mergeEvent host
                                (setHold (updateEventStatus host event EV_HOLD
                                            (userId context) (Some reason))
                                   reason (host_now host) (userId context)))).
  { intros Hstatus. unfold holdEvent, bind.
    rewrite (getEventById_found _ _ _ Hfind).
    assert (Hgate : negb (BillableEventStatus_eqb (ev_status event) EV_PENDING)
                    && negb (BillableEventStatus_eqb (ev_status event) EV_APPROVED)
                    = false).
    { destruct Hstatus as [-> | ->]; reflexivity. }
    rewrite Hgate.
    match goal with
    | |- context [storage_updateEvent ?h ?i ?u ?st] =>
        destruct (storage_updateEvent_frame h i u event st Hfind eq_refl eq_refl)
          as [s' [Hup [Hstored _]]]
    end.
    rewrite Hup. unfold logEventHold, auditService_log, storage_saveAuditLog, ret.
    eexists. split; [reflexivity|]. exact Hstored. }
  split; [|split].
  - intros Hstatus. destruct (Hacc Hstatus) as [s' [Hrun Hstored]].
    eexists. exists s'. eexists. split; [exact Hrun|].
    repeat (split; [reflexivity|]).
    split; [exact Hstored|]. repeat split.
  - intros Hp Ha. eexists.
    exact (holdEvent_rejects host context id reason event s Hfind Hp Ha).
  - split.
    + intros Hok.
      destruct (ev_status event) eqn:Hs; try (now left); try (now right);
        rewrite (holdEvent_rejects host context id reason event s Hfind)
          in Hok; rewrite ?Hs; try discriminate.
    + intros Hstatus. destruct (Hacc Hstatus) as [s' [Hrun _]]. now rewrite Hrun.
Qed.

Lemma holdEvent_only_from_pending_or_approved_witness :
  exists updated s',
    holdEvent host2 alice (host_uuid host1) EmptyString pendingStore
    = (Ok updated, s')
    /\ ev_status updated = EV_HOLD
    /\ ev_holdReason updated = Some EmptyString.
Proof.
  destruct (holdEvent_only_from_pending_or_approved host2 alice (host_uuid host1)
              EmptyString _ pendingStore eq_refl) as [Hacc _].
  destruct Hacc as [updated [s' [stored [Hrun [Hst [Hreason _]]]]]];
    [now left|].
  exists updated, s'. repeat split; assumption.
Defined.

(** X2. [markAsInvoiced] goes through exactly from APPROVED: the event
    becomes INVOICED with one more history entry, and is stored.  From
    any other status it fails with "Only approved events can be marked
    as invoiced" and the store is left as it was. *)
Theorem markAsInvoiced_only_from_approved
  (host : Host) (context : RequestContext) (id : string)
  (event : BillableEvent) (s : StorageData) :
  find (fun e => String.eqb (ev_id e) id) (billableEvents s) = Some event ->
  (ev_status event = EV_APPROVED ->
   exists updated s' stored,
     markAsInvoiced host context id s = (Ok updated, s')
     /\ ev_status updated = EV_INVOICED
     /\ ev_statusHistory updated
        = (ev_statusHistory event
           ++ [ {| se_status := EV_INVOICED;
                   se_timestamp := host_now host;
                   se_userId := userId context;
                   se_reason := Some "Invoice created in QuickBooks" |} ])%list
     /\ find (fun e => String.eqb (ev_id e) id) (billableEvents s') = Some stored
     /\ ev_status stored = EV_INVOICED
     /\ ev_amount stored = ev_amount event
     /\ auditLogs s' = auditLogs s)
  /\ (ev_status event <> EV_APPROVED ->
      markAsInvoiced host context id s
      = (Err (ValidationError "Only approved events can be marked as invoiced"
                [("status", BillableEventStatus_name (ev_status event))]), s))
  /\ (isOk (fst (markAsInvoiced host context id s)) = true
      <-> ev_status event = EV_APPROVED).
Proof.
  intros Hfind.
  assert (Hacc : ev_status event = EV_APPROVED ->
                 exists s',
                   markAsInvoiced host context id s
                   = (Ok (updateEventStatus host event EV_INVOICED (userId context)
                            (Some "Invoice created in QuickBooks")), s')
                   /\ find (fun e => String.eqb (ev_id e) id) (billableEvents s')
                      = Some (mergeEvent host
                                (updateEventStatus host event EV_INVOICED
                                   (userId context)
                                   (Some "Invoice created in QuickBooks")))
                   /\ auditLogs s' = auditLogs s).
  { intros Hstatus. unfold markAsInvoiced, bind.
    rewrite (getEventById_found _ _ _ Hfind). rewrite Hstatus.
    cbn [BillableEventStatus_eqb negb].
    match goal with
    | |- context [storage_updateEvent ?h ?i ?u ?st] =>
        destruct (storage_updateEvent_frame h i u event st Hfind eq_refl eq_refl)
          as [s' [Hup [Hstored [_ [Haudit _]]]]]
    end.
    rewrite Hup. unfold ret.
    eexists. split; [reflexivity|]. split; assumption. }
  split; [|split].
  - intros Hstatus. destruct (Hacc Hstatus) as [s' [Hrun [Hstored Haudit]]].
    eexists. exists s'. eexists. split; [exact Hrun|].
    repeat (split; [reflexivity|]).
    split; [exact Hstored|]. repeat split. exact Haudit.
  - intros Ha. exact (markAsInvoiced_rejects host context id event s Hfind Ha).
  - split.
    + intros Hok.
      destruct (ev_status event) eqn:Hs; try reflexivity;
        rewrite (markAsInvoiced_rejects host context id event s Hfind)
          in Hok; rewrite ?Hs; try discriminate.
    + intros Hstatus. destruct (Hacc Hstatus) as [s' [Hrun _]]. now rewrite Hrun.
Qed.

Lemma markAsInvoiced_only_from_approved_witness :
  exists updated s',
    markAsInvoiced host3 alice (host_uuid host1) approvedStore = (Ok updated, s')
    /\ ev_status updated = EV_INVOICED.
Proof.
  destruct (markAsInvoiced_only_from_approved host3 alice (host_uuid host1)
              _ approvedStore eq_refl) as [Hacc _].
  destruct Hacc as [updated [s' [stored [Hrun [Hst _]]]]]; [reflexivity|].
  exists updated, s'. split; assumption.
Defined.

(** X3. The four transitions never add, drop or re-key an event: the ids
    and idempotency keys of the store stay the same in the same order,
    policies and invoice links are untouched, so keys that were
    pairwise different stay so; and a call that fails leaves the whole
    store as it found it. *)
Theorem transitions_keep_ids_and_keys
  (host : Host) (context : RequestContext) (id : string)
  (notes : option string) (reason : string) (s : StorageData) :
  let after := fun (op : M BillableEvent) => snd (op s) in
  let failed := fun (op : M BillableEvent) => isOk (fst (op s)) = false in
  (sameEventKeys s (after (approveEvent host context id notes))
   /\ sameEventKeys s (after (holdEvent host context id reason))
   /\ sameEventKeys s (after (markAsInvoiced host context id))
   /\ sameEventKeys s (after (markAsPaid host context id)))
  /\ (uniqueKeys s ->
      uniqueKeys (after (approveEvent host context id notes))
      /\ uniqueKeys (after (holdEvent host context id reason))
      /\ uniqueKeys (after (markAsInvoiced host context id))
      /\ uniqueKeys (after (markAsPaid host context id)))
  /\ (failed (approveEvent host context id notes) ->
      after (approveEvent host context id notes) = s)
  /\ (failed (holdEvent host context id reason) ->
      after (holdEvent host context id reason) = s)
  /\ (failed (markAsInvoiced host context id) ->
      after (markAsInvoiced host context id) = s)
  /\ (failed (markAsPaid host context id) ->
      after (markAsPaid host context id) = s).
Proof.
  intros after failed. unfold after, failed.
  destruct (approveEvent_keepsLedger host context id notes s) as [Ha [Hfa _]].
  destruct (holdEvent_keepsLedger host context id reason s) as [Hh [Hfh _]].
  destruct (markAsInvoiced_keepsLedger host context id s) as [Hi [Hfi _]].
  destruct (markAsPaid_keepsLedger host context id s) as [Hp [Hfp _]].
  split; [split; [exact Ha|]; split; [exact Hh|]; split; [exact Hi | exact Hp]|].
  split.
  - intros Hu.
    split; [|split; [|split]]; eapply sameEventKeys_uniqueKeys; eassumption.
  - split; [exact Hfa|]. split; [exact Hfh|]. split; [exact Hfi | exact Hfp].
Qed.

Lemma transitions_keep_ids_and_keys_witness :
  uniqueKeys (snd (holdEvent host2 alice (host_uuid host1) "dispute" pendingStore)).
Proof.
  apply (transitions_keep_ids_and_keys host2 alice (host_uuid host1) None
           "dispute" pendingStore).
  unfold uniqueKeys. cbn. constructor; [intros [] | constructor].
Defined.

(** X4. An id that no event or link carries is answered with NotFound by
    every operation that takes one, and nothing is written. *)
Theorem unknown_id_is_not_found
  (host : Host) (context : RequestContext) (id : string)
  (notes : option string) (reason : string) (payment : PaymentInput)
  (status : QBInvoiceStatus) (s : StorageData) :
  (find (fun e => String.eqb (ev_id e) id) (billableEvents s) = None ->
   approveEvent host context id notes s
   = (Err (NotFoundError "BillableEvent" id), s)
   /\ holdEvent host context id reason s
      = (Err (NotFoundError "BillableEvent" id), s)
   /\ markAsInvoiced host context id s
      = (Err (NotFoundError "BillableEvent" id), s)
   /\ markAsPaid host context id s
      = (Err (NotFoundError "BillableEvent" id), s))
  /\ (find (fun l => String.eqb (il_id l) id) (invoiceLinks s) = None ->
      recordPaymentFromQb host context id payment s
      = (Err (NotFoundError "InvoiceLink" id), s)
      /\ updateStatusFromQb host id status s
         = (Err (NotFoundError "InvoiceLink" id), s)).
Proof.
  split.
  - intros H. pose proof (getEventById_missing id s H) as Hg.
    unfold approveEvent, holdEvent, markAsInvoiced, markAsPaid, bind.
    rewrite Hg. repeat split.
  - intros H.
    unfold recordPaymentFromQb, updateStatusFromQb, bind, getInvoiceLinkById,
      bind, storage_getInvoiceLinkById.
    rewrite H. split; reflexivity.
Qed.

Lemma unknown_id_is_not_found_witness :
  approveEvent host1 alice "no-such-id" None pendingStore
  = (Err (NotFoundError "BillableEvent" "no-such-id"), pendingStore).
Proof.
  apply (proj1 (unknown_id_is_not_found host1 alice "no-such-id" None
                  EmptyString payment400 QB_PAID pendingStore)).
  reflexivity.
Defined.

Section CreateEventContents.
Context {ext : External}.

Lemma createBillableEvent_ok_inv (host : Host) (input : NewEvent)
  (e : BillableEvent) :
  createBillableEvent host input = Ok e ->
  ev_id e = host_uuid host
  /\ ev_status e = EV_PENDING
  /\ ev_statusHistory e
     = [ {| se_status := EV_PENDING;
            se_timestamp := host_now host;
            se_userId := ne_createdBy input;
            se_reason := Some "Created from Smartsheet data" |} ]
  /\ ev_amount e = ne_amount input
  /\ ev_currency e = ne_currency input
  /\ ev_clientCode e = ne_clientCode input
  /\ ev_policyId e = ne_policyId input
  /\ ev_policyVersion e = ne_policyVersion input
  /\ ev_feeType e = ne_feeType input
  /\ ev_approvedAt e = None
  /\ IdempotencyKeySchema (ev_idempotencyKey e) = true
  /\ memberOf FeeType (ev_feeType e) = true
  /\ memberOf CurrencyCode (ev_currency e) = true.
Proof.
  unfold createBillableEvent.
  destruct (generateIdempotencyKey _ _ _ _) as [key|err]; [|discriminate].
  unfold BillableEventSchema_parse.
  cbn [ev_idempotencyKey ev_candidateEmail ev_feeType ev_currency ev_sourceData].
  destruct (IdempotencyKeySchema key) eqn:Hk; [|discriminate].
  cbn [negb].
  destruct (optionAll zod_email _); [|discriminate]. cbn [negb].
  destruct (memberOf FeeType _) eqn:Hf; [|discriminate]. cbn [negb].
  destruct (memberOf CurrencyCode _) eqn:Hc; [|discriminate]. cbn [negb].
  destruct (optionAll SourceDataSchema _); [|discriminate]. cbn [negb].
  intros H. injection H as <-.
  cbn. repeat split; assumption.
Qed.

(** What a successful [createEvent] returns and writes. *)
Lemma createEvent_ok_contents (host : Host) (context : RequestContext)
  (input : CreateEventInput) (s s' : StorageData) (e : BillableEvent) :
  createEvent host context input s = (Ok e, s') ->
  exists policy,
    find (fun p => String.eqb (cp_clientId p) (in_clientId input)
                   && cp_isActive p) (clientPolicies s) = Some policy
    /\ resolveAmount policy input = Ok (ev_amount e)
    /\ ev_currency e = cp_currency policy
    /\ ev_clientCode e = cp_clientCode policy
    /\ ev_policyId e = cp_id policy
    /\ ev_policyVersion e = cp_version policy
    /\ ev_id e = host_uuid host
    /\ ev_status e = EV_PENDING
    /\ ev_statusHistory e
       = [ {| se_status := EV_PENDING;
              se_timestamp := host_now host;
              se_userId := userId context;
              se_reason := Some "Created from Smartsheet data" |} ]
    /\ IdempotencyKeySchema (ev_idempotencyKey e) = true
    /\ memberOf FeeType (ev_feeType e) = true
    /\ memberOf CurrencyCode (ev_currency e) = true
    /\ auditLogs s'
       = (auditLogs s
          ++ [ {| al_id := host_auditUuid host;
                  al_action := A_CREATE;
                  al_entityType := BILLABLE_EVENT;
                  al_entityId := Some (ev_id e);
                  al_userId := userId context;
                  al_timestamp := host_now host |} ])%list.
Proof.
  intros Hrun.
  destruct (createEvent_ok_steps _ _ _ _ _ _ Hrun)
    as [policy [amount [Hp [Hk [Hx [Ha [Hc Hf]]]]]]].
  destruct (createBillableEvent_ok_inv _ _ _ Hc)
    as [Hid [Hst [Hh [Ham [Hcur [Hcc [Hpi [Hpv [_ [_ [Hks [Hft Hcu]]]]]]]]]]]].
  cbn [newEventOf ne_amount ne_currency ne_clientCode ne_policyId
         ne_policyVersion ne_createdBy] in *.
  exists policy. rewrite Ham.
  repeat (split; [assumption|]).
  revert Hrun. unfold createEvent, bind, storage_getPolicyByClientId.
  rewrite Hp.
  unfold validateBeforeCreate, bind, keyExists, storage_idempotencyKeyExists.
  rewrite Hk. cbn [liftResult ret]. rewrite Hx. cbn [ret].
  rewrite Ha. cbn [liftResult ret]. rewrite Hc. cbn [liftResult ret].
  unfold storage_saveEvent, bind, storage_getEventByIdempotencyKey.
  rewrite Hf.
  unfold storage_pushEvent, ret, logEventCreate, auditService_log,
    storage_saveAuditLog.
  intros H. injection H as <-. reflexivity.
Qed.

End CreateEventContents.

(** ** What the key pattern accepts *)

Lemma greedyPlus_sound (cls : ascii -> bool)
  (k : string -> option (list string)) (s : string) :
  forall acc r,
    greedyPlus cls k acc s = Some r ->
    exists m rest r',
      s = m ++ rest
      /\ allChars cls m = true
      /\ nonEmpty (acc ++ m) = true
      /\ k rest = Some r'
      /\ r = (acc ++ m) :: r'.
Proof.
  assert (Hstop : forall acc t r,
             stopHere k acc t = Some r ->
             exists m rest r',
               t = m ++ rest /\ allChars cls m = true
               /\ nonEmpty (acc ++ m) = true /\ k rest = Some r'
               /\ r = (acc ++ m) :: r').
  { intros acc t r H. unfold stopHere in H.
    destruct (nonEmpty acc) eqn:Hne; [|discriminate].
    destruct (k t) as [r'|] eqn:Hk; [|discriminate].
    injection H as <-. exists EmptyString, t, r'.
    rewrite append_empty_r. repeat split; assumption. }
  induction s as [|c s IH]; intros acc r H; simpl in H.
  - now apply Hstop.
  - destruct (cls c) eqn:Hc; [|now apply Hstop].
    destruct (greedyPlus cls k (acc ++ String c EmptyString) s) as [r0|] eqn:Hrec;
      [|now apply Hstop].
    injection H as <-.
    destruct (IH _ _ Hrec) as [m [rest [r' [Hs [Hm [Hne [Hk Hr]]]]]]].
    exists (String c m), rest, r'. rewrite append_assoc in Hne, Hr.
    simpl in *. rewrite Hc, Hm, Hs. repeat split; assumption.
Qed.

Lemma exactly_sound (cls : ascii -> bool) (n : nat) :
  forall s m rest,
    exactly n cls s = Some (m, rest) ->
    s = m ++ rest /\ String.length m = n /\ allChars cls m = true.
Proof.
  induction n as [|n IH]; intros s m rest H; simpl in H.
  - injection H as <- <-. repeat split.
  - destruct s as [|c s]; [discriminate|].
    destruct (cls c) eqn:Hc; [|discriminate].
    destruct (exactly n cls s) as [[m' rest']|] eqn:He; [|discriminate].
    injection H as <- <-.
    destruct (IH _ _ _ He) as [Hs [Hl Hm]].
    simpl. rewrite Hc, Hm, Hl, Hs. repeat split.
Qed.

(** Whatever the key pattern accepts is four parts joined by hyphens:
    a run of [A-Z0-9], a run of [A-Za-z0-9_-], eight digits and a run
    of [A-Z_], none of them empty. *)
Lemma keyPattern_sound (key : string) (captures : list string) :
  matchPieces keyPattern key = Some captures ->
  exists clientCode controlNumber dateStr feeType,
    captures = [clientCode; controlNumber; dateStr; feeType]
    /\ key = clientCode ++ "-" ++ controlNumber ++ "-" ++ dateStr ++ "-" ++ feeType
    /\ nonEmpty clientCode = true /\ allChars isUpperAlnum clientCode = true
    /\ nonEmpty controlNumber = true /\ allChars isKeyChar controlNumber = true
    /\ is_yyyyMMdd dateStr = true
    /\ nonEmpty feeType = true /\ allChars isUpperUnderscore feeType = true.
Proof.
  unfold keyPattern. cbn [matchPieces]. intros H.
  apply greedyPlus_sound in H as [cc [rest1 [r1 [Hkey [Hcc [Hne1 [Hk1 ->]]]]]]].
  destruct rest1 as [|h1 rest1]; [discriminate|].
  destruct (Ascii.eqb h1 "-") eqn:Hh1; [|discriminate].
  apply Ascii.eqb_eq in Hh1. subst h1.
  apply greedyPlus_sound in Hk1 as [cn [rest2 [r2 [Hrest1 [Hcn [Hne2 [Hk2 ->]]]]]]].
  destruct rest2 as [|h2 rest2]; [discriminate|].
  destruct (Ascii.eqb h2 "-") eqn:Hh2; [|discriminate].
  apply Ascii.eqb_eq in Hh2. subst h2.
  destruct (exactly 8 isDigit rest2) as [[d rest3]|] eqn:Hex; [|discriminate].
  apply exactly_sound in Hex as [Hrest2 [Hlen Hd]].
  destruct rest3 as [|h3 rest3]; [discriminate|].
  destruct (Ascii.eqb h3 "-") eqn:Hh3; [|discriminate].
  apply Ascii.eqb_eq in Hh3. subst h3.
  destruct (greedyPlus isUpperUnderscore _ EmptyString rest3) as [r3|] eqn:Hg;
    [|discriminate].
  apply greedyPlus_sound in Hg as [ft [rest4 [r4 [Hrest3 [Hft [Hne4 [Hk4 ->]]]]]]].
  destruct rest4; [|discriminate]. injection Hk4 as <-.
  cbn [option_map] in Hk2. injection Hk2 as <-.
  exists cc, cn, d, ft. cbn [append] in *.
  rewrite append_empty_r in Hrest3. subst.
  repeat split; try assumption.
  unfold is_yyyyMMdd. now rewrite Hlen, Hd.
Qed.

Lemma IdempotencyKeySchema_parses (key : string) :
  IdempotencyKeySchema key = true <-> parseIdempotencyKey key <> None.
Proof.
  unfold IdempotencyKeySchema, parseIdempotencyKey.
  destruct (matchPieces keyPattern key) as [captures|] eqn:Hm.
  - destruct (keyPattern_sound key captures Hm)
      as [cc [cn [d [ft [-> _]]]]].
    split; [discriminate | reflexivity].
  - split; [discriminate | congruence].
Qed.


(** ** Failed creations *)

(** X6. When [createEvent] throws, nothing has been written: neither an
    event nor an audit entry.  The checks run in a fixed order: without
    an active policy the call fails even if an amount is supplied; a key
    already in the store is reported as a duplicate before the fee is
    looked at; a missing fee rule is reported only for a new key; and
    what is left can only be refused by the schema. *)
Theorem createEvent_failure_writes_nothing {ext : External}
  (host : Host) (context : RequestContext) (input : CreateEventInput)
  (s s' : StorageData) (err : AppError) :
  createEvent host context input s = (Err err, s') ->
  s' = s
  /\ (find (fun p => String.eqb (cp_clientId p) (in_clientId input)
                     && cp_isActive p) (clientPolicies s) = None ->
      err = noPolicyError)
  /\ (forall policy key,
        find (fun p => String.eqb (cp_clientId p) (in_clientId input)
                       && cp_isActive p) (clientPolicies s) = Some policy ->
        generateIdempotencyKey (cp_clientCode policy) (in_controlNumber input)
          (DateString (in_triggerDate input)) (in_feeType input) = Ok key ->
        (In key (map ev_idempotencyKey (billableEvents s)) ->
         err = DuplicateError key)
        /\ (~ In key (map ev_idempotencyKey (billableEvents s)) ->
            in_amount input = None ->
            calculateFee policy (in_feeType input)
              (match in_sourceData input with
               | Some sd => sd_salary sd
               | None => None
               end) = None ->
            err = noFeeError (in_feeType input))
        /\ (~ In key (map ev_idempotencyKey (billableEvents s)) ->
            forall amount,
              resolveAmount policy input = Ok amount ->
              exists path, err = ZodError path)).
Proof.
  intros Hrun.
  pose proof (createEvent_outcome host context input s) as Hout.
  rewrite Hrun in Hout. split; [exact Hout|]. clear Hout.
  revert Hrun. unfold createEvent, bind, storage_getPolicyByClientId.
  destruct (find _ (clientPolicies s)) as [policy|] eqn:Hp.
  - intros Hrun. split; [discriminate|].
    intros policy' key Hp' Hkey. injection Hp' as <-.
    revert Hrun.
    unfold validateBeforeCreate, bind, keyExists, storage_idempotencyKeyExists.
    rewrite Hkey. cbn [liftResult ret].
    destruct (existsb _ (billableEvents s)) eqn:Hx.
    + unfold throw. intros Hrun. injection Hrun as <- _.
      split; [reflexivity|].
      assert (Hin : In key (map ev_idempotencyKey (billableEvents s))).
      { apply existsb_exists in Hx as [x [Hin Heq]].
        apply String.eqb_eq in Heq. subst key. now apply in_map. }
      split; intros Hnot; contradiction.
    + cbn [ret]. intros Hrun.
      assert (Hnot : ~ In key (map ev_idempotencyKey (billableEvents s))).
      { intros Hin. apply in_map_iff in Hin as [x [Heq Hin]].
        assert (existsb (fun e => String.eqb (ev_idempotencyKey e) key)
                  (billableEvents s) = true) as Hyes.
        { apply existsb_exists. exists x. split; [exact Hin|].
          now apply String.eqb_eq. }
        congruence. }
      split; [intros Hin; contradiction|].
      split.
      * intros _ Hamount Hfee. revert Hrun. unfold resolveAmount.
        rewrite Hamount, Hfee. cbn [liftResult throw].
        intros Hrun. now injection Hrun as <- _.
      * intros _ amount Hamount. revert Hrun. rewrite Hamount.
        cbn [liftResult ret].
        unfold createBillableEvent.
        cbn [newEventOf ne_clientCode ne_controlNumber ne_triggerDate ne_feeType].
        rewrite Hkey. unfold BillableEventSchema_parse.
        repeat match goal with
               | |- context [if negb ?b then _ else _] =>
                   destruct b; cbn [negb liftResult throw];
                   [|intros Hrun; injection Hrun as <- _; eexists; reflexivity]
               end.
        cbn [liftResult ret].
        unfold storage_saveEvent, bind, storage_getEventByIdempotencyKey.
        cbn [ev_idempotencyKey].
        destruct (find _ (billableEvents s)) as [x|] eqn:Hfind.
        -- exfalso. apply Hnot. apply find_some in Hfind as [Hin Heq].
           apply String.eqb_eq in Heq. rewrite <- Heq. now apply in_map.
        -- unfold storage_pushEvent, ret, logEventCreate, auditService_log,
             storage_saveAuditLog. discriminate.
  - unfold throw. intros Hrun. injection Hrun as <- _.
    split; [reflexivity|]. intros policy key Hp'. discriminate.
Qed.

Lemma createEvent_failure_writes_nothing_witness :
  exists err,
    createEvent host2 alice placementAgain pendingStore = (Err err, pendingStore).
Proof.
  destruct (createEvent host2 alice placementAgain pendingStore)
    as [[e|err] s'] eqn:Hrun; [vm_compute in Hrun; discriminate|].
  exists err.
  destruct (createEvent_failure_writes_nothing host2 alice placementAgain
              pendingStore s' err Hrun) as [-> _].
  reflexivity.
Defined.

(** ** The status history *)

(** X7. If the last entry of every stored event's history names the status
    the event is in, this is still so after a creation or any of the
    four transitions, whether the call succeeds or throws. *)
Theorem history_ends_in_current_status {ext : External}
  (host : Host) (context : RequestContext) (s : StorageData) :
  Forall historyTracksStatus (billableEvents s) ->
  (forall input,
      Forall historyTracksStatus
        (billableEvents (snd (createEvent host context input s))))
  /\ (forall id notes,
        Forall historyTracksStatus
          (billableEvents (snd (approveEvent host context id notes s))))
  /\ (forall id reason,
        Forall historyTracksStatus
          (billableEvents (snd (holdEvent host context id reason s))))
  /\ (forall id,
        Forall historyTracksStatus
          (billableEvents (snd (markAsInvoiced host context id s))))
  /\ (forall id,
        Forall historyTracksStatus
          (billableEvents (snd (markAsPaid host context id s)))).
Proof.
  intros Hall. split.
  { intros input.
    destruct (createEvent host context input s) as [[e|err] s'] eqn:Hrun.
    - destruct (createEvent_ok_contents host context input s s' e Hrun)
        as [policy [_ [_ [_ [_ [_ [_ [_ [Hst [Hh _]]]]]]]]]].
      pose proof (createEvent_outcome host context input s) as Hout.
      rewrite Hrun in Hout. destruct Hout as [policy' [_ [_ [_ [Hev _]]]]].
      cbn [snd]. rewrite Hev. apply Forall_app. split; [exact Hall|].
      constructor; [|constructor].
      unfold historyTracksStatus. now rewrite Hh, Hst.
    - pose proof (createEvent_outcome host context input s) as Hout.
      rewrite Hrun in Hout. cbn [snd]. now rewrite Hout. }
  split; [intros id notes; now apply (approveEvent_keepsLedger host context id notes s)|].
  split; [intros id reason; now apply (holdEvent_keepsLedger host context id reason s)|].
  split; [intros id; now apply (markAsInvoiced_keepsLedger host context id s)|].
  intros id; now apply (markAsPaid_keepsLedger host context id s).
Qed.

Lemma history_ends_in_current_status_witness :
  Forall historyTracksStatus
    (billableEvents (snd (approveEvent host2 alice (host_uuid host1) None
                            pendingStore))).
Proof.
  assert (Hall : Forall historyTracksStatus (billableEvents pendingStore)).
  { repeat constructor. }
  exact (proj1 (proj2 (history_ends_in_current_status host2 alice pendingStore Hall))
           (host_uuid host1) None).
Defined.

(** ** Bulk creation *)

Section BulkCreateProofs.
Context {ext : External}.
Variable zodMessage : string -> string.

(** The only [DuplicateError] a creation throws names a key that is in
    the store. *)
Lemma createEvent_DuplicateError_inv (host : Host) (context : RequestContext)
  (input : CreateEventInput) (s s' : StorageData) (key : string) :
  createEvent host context input s = (Err (DuplicateError key), s') ->
  In key (map ev_idempotencyKey (billableEvents s)).
Proof.
  unfold createEvent, bind, storage_getPolicyByClientId.
  destruct (find _ (clientPolicies s)) as [policy|]; [|discriminate].
  unfold validateBeforeCreate, bind, keyExists, storage_idempotencyKeyExists.
  destruct (generateIdempotencyKey (cp_clientCode policy) _ _ _)
    as [key0|e] eqn:Hk.
  2:{ unfold generateIdempotencyKey, formatTriggerDate in Hk.
      destruct (format_yyyyMMdd _); [discriminate|].
      injection Hk as <-. discriminate. }
  cbn [liftResult ret].
  destruct (existsb _ (billableEvents s)) eqn:Hx.
  - unfold throw. intros H. injection H as <- _.
    apply existsb_exists in Hx as [x [Hin Heq]].
    apply String.eqb_eq in Heq. rewrite <- Heq. now apply in_map.
  - cbn [ret].
    assert (Hrest : forall amount s1,
               bind (liftResult (createBillableEvent host
                                   (newEventOf context policy input amount)))
                 (fun event =>
                    bind (storage_saveEvent event)
                      (fun _ => bind (logEventCreate host context (ev_id event))
                                  (fun _ => ret event))) s
               <> (Err (DuplicateError key), s1)).
    { intros amount s1. unfold bind, createBillableEvent.
      cbn [newEventOf ne_clientCode ne_controlNumber ne_triggerDate ne_feeType].
      rewrite Hk. unfold BillableEventSchema_parse.
      repeat match goal with
             | |- context [if negb ?b then _ else _] =>
                 destruct b; cbn [negb liftResult throw]; [|discriminate]
             end.
      cbn [liftResult ret].
      unfold storage_saveEvent, bind, storage_getEventByIdempotencyKey.
      destruct (find _ (billableEvents s)); [discriminate|].
      unfold storage_pushEvent, ret, logEventCreate, auditService_log,
        storage_saveAuditLog. discriminate. }
    unfold resolveAmount.
    destruct (in_amount input) as [amount|].
    + cbn [liftResult ret]. intros H. now apply Hrest in H.
    + destruct (calculateFee _ _ _) as [fee|]; [|discriminate].
      cbn [liftResult ret]. intros H. now apply Hrest in H.
Qed.

(** What one turn of the loop adds to the three lists and to the store. *)
Lemma bulkStep_outcome (context : RequestContext) (result : BulkResult)
  (s : StorageData) (host : Host) (placement : Placement) :
  let '(result', s') := bulkStep zodMessage context (result, s) (host, placement) in
  (exists e log,
      created result' = (created result ++ [e])%list
      /\ duplicates result' = duplicates result
      /\ errors result' = errors result
      /\ billableEvents s' = (billableEvents s ++ [e])%list
      /\ auditLogs s' = (auditLogs s ++ [log])%list
      /\ al_action log = A_CREATE
      /\ ~ In (ev_idempotencyKey e) (map ev_idempotencyKey (billableEvents s))
      /\ clientPolicies s' = clientPolicies s
      /\ invoiceLinks s' = invoiceLinks s)
  \/ (created result' = created result /\ s' = s
      /\ ((exists key,
              duplicates result'
              = (duplicates result
                 ++ [ {| dup_controlNumber := pl_controlNumber placement;
                         dup_idempotencyKey := key |} ])%list
              /\ errors result' = errors result
              /\ In key (map ev_idempotencyKey (billableEvents s)))
          \/ (exists message,
                 duplicates result' = duplicates result
                 /\ errors result'
                    = (errors result
                       ++ [ {| err_controlNumber := pl_controlNumber placement;
                               err_error := message |} ])%list))).
Proof.
  unfold bulkStep.
  pose proof (createEvent_outcome host context (inputOfPlacement placement) s) as Hout.
  destruct (createEvent host context (inputOfPlacement placement) s)
    as [[e|err] s'] eqn:Hrun.
  - cbv beta iota. left.
    destruct (createEvent_ok_contents host context _ s s' e Hrun)
      as [policy H].
    destruct Hout as [policy' [_ [_ [Hx [Hev [Hpol Hlinks]]]]]].
    eexists e, _. cbn [created duplicates errors].
    repeat (split; [reflexivity|]).
    split; [exact Hev|]. split; [apply H|]. split; [reflexivity|].
    split; [|split; assumption].
    intros Hin. apply in_map_iff in Hin as [x [Heq Hin]].
    assert (existsb (fun x => String.eqb (ev_idempotencyKey x) (ev_idempotencyKey e))
              (billableEvents s) = true) as Hyes.
    { apply existsb_exists. exists x. split; [exact Hin|]. now apply String.eqb_eq. }
    congruence.
  - subst s'.
    destruct err; cbv beta iota; right; cbn [created duplicates errors];
      (split; [reflexivity|]; split; [reflexivity|]);
      try (right; eexists; split; reflexivity).
    left. eexists. split; [reflexivity|]. split; [reflexivity|].
    exact (createEvent_DuplicateError_inv _ _ _ _ _ _ Hrun).
Qed.

(** The loop, started from any lists and any store. *)
Lemma bulkLoop_outcome (context : RequestContext)
  (placements : list (Host * Placement)) :
  forall (result : BulkResult) (s : StorageData),
    let '(result', s') :=
      fold_left (bulkStep zodMessage context) placements (result, s) in
    exists newEvents newDuplicates newErrors,
      created result' = (created result ++ newEvents)%list
      /\ duplicates result' = (duplicates result ++ newDuplicates)%list
      /\ errors result' = (errors result ++ newErrors)%list
      /\ (List.length newEvents + List.length newDuplicates
          + List.length newErrors = List.length placements)%nat
      /\ billableEvents s' = (billableEvents s ++ newEvents)%list
      /\ List.length (auditLogs s')
         = (List.length (auditLogs s) + List.length newEvents)%nat
      /\ (uniqueKeys s -> uniqueKeys s')
      /\ Forall (fun d => In (dup_idempotencyKey d)
                            (map ev_idempotencyKey (billableEvents s')))
           newDuplicates
      /\ clientPolicies s' = clientPolicies s
      /\ invoiceLinks s' = invoiceLinks s.
Proof.
  induction placements as [|[host placement] placements IH]; intros result s.
  - cbn [fold_left]. exists [], [], [].
    rewrite !app_nil_r. repeat split; try reflexivity; auto.
  - cbn [fold_left].
    pose proof (bulkStep_outcome context result s host placement) as Hstep.
    destruct (bulkStep zodMessage context (result, s) (host, placement))
      as [result1 s1].
    specialize (IH result1 s1).
    destruct (fold_left (bulkStep zodMessage context) placements (result1, s1))
      as [result' s'].
    destruct IH as [ne [nd [nx [Hc [Hd [Hx [Hlen [Hev [Haud [Hu [Hdup [Hpol Hlinks]]]]]]]]]]]].
    destruct Hstep as [[e [log [Hc1 [Hd1 [Hx1 [Hev1 [Haud1 [_ [Hnew [Hpol1 Hlinks1]]]]]]]]]]
                      |[Hc1 [-> [[key [Hd1 [Hx1 Hin]]]|[message [Hd1 Hx1]]]]]].
    + exists (e :: ne), nd, nx.
      rewrite Hc, Hc1, Hd, Hd1, Hx, Hx1, Hev, Hev1, Haud, Haud1, <- !app_assoc.
      cbn [app List.length]. rewrite length_app. cbn [List.length].
      split; [reflexivity|]. split; [reflexivity|]. split; [reflexivity|].
      split; [lia|]. split; [reflexivity|]. split; [lia|].
      split.
      { intros Hs. apply Hu. unfold uniqueKeys. rewrite Hev1, map_app.
        cbn [map]. now apply NoDup_snoc. }
      split.
      { revert Hdup. rewrite Hev, Hev1, <- app_assoc. exact (fun H => H). }
      split; congruence.
    + exists ne, ({| dup_controlNumber := pl_controlNumber placement;
                     dup_idempotencyKey := key |} :: nd), nx.
      rewrite Hc, Hc1, Hd, Hd1, Hx, Hx1, <- !app_assoc.
      cbn [app List.length].
      split; [reflexivity|]. split; [reflexivity|]. split; [reflexivity|].
      split; [lia|]. split; [exact Hev|]. split; [exact Haud|].
      split; [exact Hu|].
      split; [|split; assumption].
      constructor; [|exact Hdup]. cbn [dup_idempotencyKey].
      rewrite Hev, map_app. apply in_or_app. now left.
    + exists ne, nd, ({| err_controlNumber := pl_controlNumber placement;
                         err_error := message |} :: nx).
      rewrite Hc, Hc1, Hd, Hd1, Hx, Hx1, <- !app_assoc.
      cbn [app List.length].
      split; [reflexivity|]. split; [reflexivity|]. split; [reflexivity|].
      split; [lia|]. split; [exact Hev|]. split; [exact Haud|].
      split; [exact Hu|].
      split; [exact Hdup|]. split; assumption.
Qed.

End BulkCreateProofs.

(** X8. Every trigger handed to [bulkCreateFromSmartsheet] ends up in
    exactly one of the three lists of the answer.  The store gains the
    created events, in order, at the end of its array and one audit
    entry for each; keys stay unique if they were; and every key
    reported as a duplicate is the key of a stored event. *)
Theorem bulkCreate_accounts_for_every_trigger {ext : External}
  (zodMessage : string -> string) (context : RequestContext)
  (placements : list (Host * Placement)) (s : StorageData) :
  let '(result, s') := bulkCreateFromSmartsheet zodMessage context placements s in
  (List.length (created result) + List.length (duplicates result)
   + List.length (errors result) = List.length placements)%nat
  /\ billableEvents s' = (billableEvents s ++ created result)%list
  /\ List.length (auditLogs s')
     = (List.length (auditLogs s) + List.length (created result))%nat
  /\ (uniqueKeys s -> uniqueKeys s')
  /\ (forall d, In d (duplicates result) ->
        In (dup_idempotencyKey d) (map ev_idempotencyKey (billableEvents s')))
  /\ clientPolicies s' = clientPolicies s
  /\ invoiceLinks s' = invoiceLinks s.
Proof.
  unfold bulkCreateFromSmartsheet.
  pose proof (bulkLoop_outcome zodMessage context placements
                {| created := []; duplicates := []; errors := [] |} s) as H.
  destruct (fold_left _ placements _) as [result s'].
  destruct H as [ne [nd [nx [Hc [Hd [Hx [Hlen [Hev [Haud [Hu [Hdup [Hpol Hlinks]]]]]]]]]]]].
  cbn [created duplicates errors app] in Hc, Hd, Hx. subst ne nd nx.
  repeat (split; [assumption|]).
  split; [|split; assumption].
  intros d Hin. rewrite Forall_forall in Hdup. now apply Hdup.
Qed.

Lemma bulkCreate_accounts_for_every_trigger_witness :
  uniqueKeys (snd (bulkCreateFromSmartsheet (fun path => path) alice batch
                     acmeStore)).
Proof.
  pose proof (bulkCreate_accounts_for_every_trigger (fun path => path) alice
                batch acmeStore) as H.
  destruct (bulkCreateFromSmartsheet (fun path => path) alice batch acmeStore)
    as [result s'].
  destruct H as [_ [_ [_ [Hu _]]]]. cbn [snd]. apply Hu.
  unfold uniqueKeys. constructor.
Defined.

(** ** Checking keys in bulk *)

Lemma checkBulkKeysFrom_filter (s : StorageData) (keys : list string) :
  forall existingKeys,
    checkBulkKeysFrom keys existingKeys s
    = (existingKeys
       ++ filter (fun key =>
                    existsb (fun e => String.eqb (ev_idempotencyKey e) key)
                      (billableEvents s)) keys)%list.
Proof.
  induction keys as [|key keys IH]; intros existingKeys; cbn [checkBulkKeysFrom filter].
  - now rewrite app_nil_r.
  - unfold storage_idempotencyKeyExists.
    destruct (existsb _ (billableEvents s)).
    + rewrite IH, <- app_assoc. reflexivity.
    + apply IH.
Qed.

Lemma existsb_key_In (key : string) (events : list BillableEvent) :
  existsb (fun e => String.eqb (ev_idempotencyKey e) key) events = true
  <-> In key (map ev_idempotencyKey events).
Proof.
  rewrite existsb_exists, in_map_iff.
  split; intros [x [H1 H2]]; exists x.
  - apply String.eqb_eq in H2. now split.
  - split; [exact H2|]. now apply String.eqb_eq.
Qed.

(** X9. [checkBulkKeys] never throws and leaves the store alone.  It
    answers with the keys that some stored event carries, in the order
    and with the repetitions of its argument; on a store without events
    the answer is empty.  A key it reports is one [createEvent] refuses
    as a duplicate, and a key it does not report is never refused as
    one. *)
Theorem checkBulkKeys_reports_stored_keys {ext : External}
  (keys : list string) (s : StorageData) :
  (exists existingKeys,
      checkBulkKeys keys s = (Ok existingKeys, s)
      /\ existingKeys
         = filter (fun key =>
                     existsb (fun e => String.eqb (ev_idempotencyKey e) key)
                       (billableEvents s)) keys
      /\ (forall key,
            In key existingKeys
            <-> In key keys /\ In key (map ev_idempotencyKey (billableEvents s)))
      /\ (billableEvents s = [] -> existingKeys = [])
      /\ (forall host context input key,
            derivedKey s input = Some key ->
            In key keys ->
            (In key existingKeys
             <-> createEvent host context input s = (Err (DuplicateError key), s)))).
Proof.
  eexists. split; [reflexivity|].
  rewrite checkBulkKeysFrom_filter. cbn [app].
  split; [reflexivity|]. split.
  { intros key. rewrite filter_In, existsb_key_In. reflexivity. }
  split.
  { intros Hempty. rewrite Hempty. cbn [existsb].
    induction keys as [|k keys IH]; [reflexivity | exact IH]. }
  intros host context input key Hkey Hin.
  rewrite filter_In, existsb_key_In. split.
  - intros [_ Hstored]. now apply createEvent_duplicate.
  - intros Hrun. split; [exact Hin|].
    exact (createEvent_DuplicateError_inv _ _ _ _ _ _ Hrun).
Qed.

Lemma checkBulkKeys_reports_stored_keys_witness :
  fst (checkBulkKeys ["ACME-PL-12345-20231215-ONBOARD_FEE";
                      "ACME-PL-99999-20231215-ONBOARD_FEE"] pendingStore)
  = Ok ["ACME-PL-12345-20231215-ONBOARD_FEE"].
Proof.
  destruct (checkBulkKeys_reports_stored_keys
              ["ACME-PL-12345-20231215-ONBOARD_FEE";
               "ACME-PL-99999-20231215-ONBOARD_FEE"] pendingStore)
    as [existingKeys [Hrun [Hfilter _]]].
  rewrite Hrun. cbn [fst]. rewrite Hfilter. reflexivity.
Defined.

(** ** Keys and their parts *)

Lemma toUpperCase_append (a b : string) :
  toUpperCase (a ++ b) = toUpperCase a ++ toUpperCase b.
Proof. induction a as [|c a IH]; simpl; [reflexivity | now rewrite IH]. Qed.

Lemma keepChars_append (cls : ascii -> bool) (a b : string) :
  keepChars cls (a ++ b) = keepChars cls a ++ keepChars cls b.
Proof.
  induction a as [|c a IH]; simpl; [reflexivity|].
  destruct (cls c); simpl; now rewrite IH.
Qed.

Lemma keepChars_all (cls : ascii -> bool) (s : string) :
  allChars cls s = true -> keepChars cls s = s.
Proof.
  induction s as [|c s IH]; simpl; [reflexivity|].
  destruct (cls c); [|discriminate]. intros H. now rewrite IH.
Qed.

Lemma upperChar_idempotent (c : ascii) : upperChar (upperChar c) = upperChar c.
Proof.
  destruct c as [[] [] [] [] [] [] [] []]; reflexivity.
Qed.

Lemma toUpperCase_idempotent (s : string) :
  toUpperCase (toUpperCase s) = toUpperCase s.
Proof.
  induction s as [|c s IH]; simpl; [reflexivity|].
  now rewrite upperChar_idempotent, IH.
Qed.

Lemma sanitizeControlNumber_idempotent (controlNumber : string) :
  sanitizeControlNumber (sanitizeControlNumber controlNumber)
  = sanitizeControlNumber controlNumber.
Proof.
  unfold sanitizeControlNumber at 1.
  rewrite (keepChars_all isKeyChar _ (sanitizeControlNumber_keyChars controlNumber)).
  unfold sanitizeControlNumber. apply toUpperCase_idempotent.
Qed.

Lemma feeType_is_upperUnderscore (feeType : string) :
  memberOf FeeType feeType = true ->
  nonEmpty feeType = true /\ allChars isUpperUnderscore feeType = true.
Proof.
  unfold memberOf, FeeType. cbn [existsb].
  repeat match goal with
         | |- context [String.eqb feeType ?v] =>
             destruct (String.eqb_spec feeType v) as [->|_];
             [intros _; split; reflexivity|]
         end.
  discriminate.
Qed.

(** X10. A key determines the parts it was made from, once they are put in
    the form they take inside the key: the client code in upper case,
    the control number sanitised, the date as eight digits and the fee
    type as it is.  Two calls give the same key exactly when these
    agree; in particular the case of the client code and of the
    control number, and any character of the control number outside
    letters, digits, hyphen and underscore, make no difference. *)
Theorem same_key_iff_same_normal_parts {ext : External}
  (clientCode clientCode' controlNumber controlNumber' : string)
  (triggerDate triggerDate' : TriggerDate)
  (feeType feeType' dateStr dateStr' : string) :
  nonEmpty clientCode = true ->
  allChars isUpperAlnum (toUpperCase clientCode) = true ->
  nonEmpty clientCode' = true ->
  allChars isUpperAlnum (toUpperCase clientCode') = true ->
  nonEmpty (keepChars isKeyChar controlNumber) = true ->
  nonEmpty (keepChars isKeyChar controlNumber') = true ->
  formatTriggerDate triggerDate = Ok dateStr ->
  is_yyyyMMdd dateStr = true ->
  formatTriggerDate triggerDate' = Ok dateStr' ->
  is_yyyyMMdd dateStr' = true ->
  nonEmpty feeType = true ->
  allChars isUpperUnderscore feeType = true ->
  nonEmpty feeType' = true ->
  allChars isUpperUnderscore feeType' = true ->
  (generateIdempotencyKey clientCode controlNumber triggerDate feeType
   = generateIdempotencyKey clientCode' controlNumber' triggerDate' feeType'
   <-> toUpperCase clientCode = toUpperCase clientCode'
       /\ sanitizeControlNumber controlNumber = sanitizeControlNumber controlNumber'
       /\ dateStr = dateStr'
       /\ feeType = feeType')
  /\ generateIdempotencyKey (toUpperCase clientCode)
       (sanitizeControlNumber controlNumber) triggerDate feeType
     = generateIdempotencyKey clientCode controlNumber triggerDate feeType.
Proof.
  intros Hc1 Hc2 Hc1' Hc2' Hn Hn' Hd Hd8 Hd' Hd8' Hf1 Hf2 Hf1' Hf2'.
  split.
  - unfold generateIdempotencyKey. rewrite Hd, Hd'. split.
    + intros Heq. injection Heq as Heq.
      assert (Hm : matchPieces keyPattern
                     (toUpperCase clientCode ++ "-"
                      ++ sanitizeControlNumber controlNumber ++ "-"
                      ++ dateStr ++ "-" ++ feeType)
                   = Some [toUpperCase clientCode;
                           sanitizeControlNumber controlNumber; dateStr; feeType]).
      { apply keyPattern_matches; try assumption.
        - now rewrite nonEmpty_toUpperCase.
        - unfold sanitizeControlNumber. now rewrite nonEmpty_toUpperCase.
        - apply sanitizeControlNumber_keyChars. }
      assert (Hm' : matchPieces keyPattern
                      (toUpperCase clientCode' ++ "-"
                       ++ sanitizeControlNumber controlNumber' ++ "-"
                       ++ dateStr' ++ "-" ++ feeType')
                    = Some [toUpperCase clientCode';
                            sanitizeControlNumber controlNumber'; dateStr'; feeType']).
      { apply keyPattern_matches; try assumption.
        - now rewrite nonEmpty_toUpperCase.
        - unfold sanitizeControlNumber. now rewrite nonEmpty_toUpperCase.
        - apply sanitizeControlNumber_keyChars. }
      cbn [append] in Hm, Hm'. rewrite Heq, Hm' in Hm.
      injection Hm as -> -> -> ->. repeat split.
    + intros [-> [-> [-> ->]]]. reflexivity.
  - unfold generateIdempotencyKey. rewrite Hd.
    now rewrite toUpperCase_idempotent, sanitizeControlNumber_idempotent.
Qed.

(** X11. The client code itself is not sanitised.  If it contains a hyphen,
    what follows the hyphen reads as the beginning of the control
    number, and two different placements share one key. *)
Theorem hyphen_in_client_code_shifts_the_parts {ext : External}
  (head tail controlNumber : string) (triggerDate : TriggerDate)
  (feeType : string) :
  allChars isKeyChar tail = true ->
  generateIdempotencyKey (head ++ "-" ++ tail) controlNumber triggerDate feeType
  = generateIdempotencyKey head (tail ++ "-" ++ controlNumber) triggerDate feeType.
Proof.
  intros Htail. unfold generateIdempotencyKey.
  destruct (formatTriggerDate triggerDate) as [dateStr|e]; [|reflexivity].
  f_equal. unfold sanitizeControlNumber.
  rewrite !toUpperCase_append, !keepChars_append, !toUpperCase_append.
  rewrite (keepChars_all _ _ Htail). cbn [keepChars toUpperCase isKeyChar].
  rewrite !append_assoc. reflexivity.
Qed.

(** X12. Inputs that pass the validators of utils/validators make a key that
    passes the schema, and the validated control number enters the key
    whole, only in upper case. *)
Theorem validated_parts_make_a_valid_key {ext : External}
  (clientCode controlNumber : string) (triggerDate : TriggerDate)
  (feeType dateStr : string) :
  isValidClientCode clientCode = true ->
  isValidControlNumber controlNumber = true ->
  isValidFeeType feeType = true ->
  formatTriggerDate triggerDate = Ok dateStr ->
  is_yyyyMMdd dateStr = true ->
  sanitizeControlNumber controlNumber = toUpperCase controlNumber
  /\ generateIdempotencyKey clientCode controlNumber triggerDate feeType
     = Ok (toUpperCase clientCode ++ "-" ++ toUpperCase controlNumber ++ "-"
           ++ dateStr ++ "-" ++ feeType)
  /\ IdempotencyKeySchema
       (toUpperCase clientCode ++ "-" ++ toUpperCase controlNumber ++ "-"
        ++ dateStr ++ "-" ++ feeType) = true
  /\ option_map kp_controlNumber
       (parseIdempotencyKey
          (toUpperCase clientCode ++ "-" ++ toUpperCase controlNumber ++ "-"
           ++ dateStr ++ "-" ++ feeType))
     = Some (toUpperCase controlNumber)
  /\ isValidControlNumber (toUpperCase controlNumber) = true.
Proof.
  unfold isValidClientCode, isValidControlNumber, isValidFeeType, testBounded.
  intros Hcc Hcn Hft Hd Hd8.
  apply andb_true_iff in Hcc as [Hcc _]. apply andb_true_iff in Hcc as [Hcc Hcclen].
  apply andb_true_iff in Hcn as [Hcn Hcnhi]. apply andb_true_iff in Hcn as [Hcn Hcnlen].
  apply feeType_is_upperUnderscore in Hft as [Hft1 Hft2].
  assert (Hsan : sanitizeControlNumber controlNumber = toUpperCase controlNumber).
  { unfold sanitizeControlNumber. now rewrite keepChars_all. }
  assert (Hlen : forall s, String.length (toUpperCase s) = String.length s).
  { induction s as [|c s IH]; simpl; [reflexivity | now rewrite IH]. }
  assert (Hne : forall n s, (S n <=? String.length s)%nat = true -> nonEmpty s = true).
  { intros n [|c s] H; [discriminate | reflexivity]. }
  assert (Hm := keyPattern_matches (toUpperCase clientCode)
                  (toUpperCase controlNumber) dateStr feeType
                  (Hne _ _ Hcclen) Hcc).
  rewrite nonEmpty_toUpperCase in Hm.
  specialize (Hm (Hne _ _ Hcnlen) (allChars_keyChar_toUpperCase _ Hcn)
                Hd8 Hft1 Hft2).
  split; [exact Hsan|]. split.
  { unfold generateIdempotencyKey. now rewrite Hd, Hsan. }
  split.
  { unfold IdempotencyKeySchema. now rewrite Hm. }
  split.
  { unfold parseIdempotencyKey. now rewrite Hm. }
  rewrite Hlen, (allChars_keyChar_toUpperCase _ Hcn), Hcnlen, Hcnhi. reflexivity.
Qed.

Lemma same_key_iff_same_normal_parts_witness :
  generateIdempotencyKey "acme" "PL#123-45 b" (DateString "2023-12-15")
    "PLACEMENT_FEE"
  = generateIdempotencyKey "ACME" "pl123-45B" (DateString "2023-12-15")
      "PLACEMENT_FEE".
Proof.
  refine (proj2 (proj1 (same_key_iff_same_normal_parts "acme" "ACME"
                          "PL#123-45 b" "pl123-45B"
                          (DateString "2023-12-15") (DateString "2023-12-15")
                          "PLACEMENT_FEE" "PLACEMENT_FEE" "20231215" "20231215"
                          _ _ _ _ _ _ _ _ _ _ _ _ _ _)) _);
    try (vm_compute; reflexivity).
  repeat split.
Defined.

Lemma hyphen_in_client_code_shifts_the_parts_witness :
  generateIdempotencyKey "AC-ME" "PL-1" (DateString "2023-12-15") "OTHER"
  = generateIdempotencyKey "AC" "ME-PL-1" (DateString "2023-12-15") "OTHER".
Proof.
  exact (hyphen_in_client_code_shifts_the_parts "AC" "ME" "PL-1"
           (DateString "2023-12-15") "OTHER" eq_refl).
Defined.

Lemma validated_parts_make_a_valid_key_witness :
  generateIdempotencyKey "acme" "pl-12345" (DateString "2023-12-15") "ONBOARD_FEE"
  = Ok "ACME-PL-12345-20231215-ONBOARD_FEE".
Proof.
  refine (proj1 (proj2 (validated_parts_make_a_valid_key "acme" "pl-12345"
                          (DateString "2023-12-15") "ONBOARD_FEE" "20231215"
                          _ _ _ _ _)));
    vm_compute; reflexivity.
Defined.

(** X13. A key that parses is its four parts joined by hyphens, the date
    being the eight digits of the third part regrouped as
    [yyyy-mm-dd]; each part is non-empty and made of the characters
    its place allows.  The parser accepts exactly the keys the schema
    accepts. *)
Theorem parsed_key_is_its_parts (key : string) (parts : KeyParts) :
  parseIdempotencyKey key = Some parts ->
  exists dateStr,
    key = kp_clientCode parts ++ "-" ++ kp_controlNumber parts ++ "-"
          ++ dateStr ++ "-" ++ kp_feeType parts
    /\ is_yyyyMMdd dateStr = true
    /\ kp_triggerDate parts
       = slice 0 4 dateStr ++ "-" ++ slice 4 6 dateStr ++ "-" ++ slice 6 8 dateStr
    /\ String.length (kp_triggerDate parts) = 10%nat
    /\ keepChars isDigit (kp_triggerDate parts) = dateStr
    /\ nonEmpty (kp_clientCode parts) = true
    /\ allChars isUpperAlnum (kp_clientCode parts) = true
    /\ nonEmpty (kp_controlNumber parts) = true
    /\ allChars isKeyChar (kp_controlNumber parts) = true
    /\ nonEmpty (kp_feeType parts) = true
    /\ allChars isUpperUnderscore (kp_feeType parts) = true
    /\ IdempotencyKeySchema key = true.
Proof.
  intros Hparse.
  assert (Hschema : IdempotencyKeySchema key = true).
  { apply IdempotencyKeySchema_parses. congruence. }
  revert Hparse. unfold parseIdempotencyKey.
  destruct (matchPieces keyPattern key) as [captures|] eqn:Hm; [|discriminate].
  destruct (keyPattern_sound key captures Hm)
    as [cc [cn [d [ft [-> [Hkey [Hcc1 [Hcc2 [Hcn1 [Hcn2 [Hd [Hft1 Hft2]]]]]]]]]]]].
  intros H. injection H as <-.
  cbn [kp_clientCode kp_controlNumber kp_triggerDate kp_feeType].
  exists d. split; [exact Hkey|]. split; [exact Hd|]. split; [reflexivity|].
  assert (Hdate : String.length (slice 0 4 d ++ "-" ++ slice 4 6 d ++ "-" ++ slice 6 8 d)
                  = 10%nat
                  /\ keepChars isDigit
                       (slice 0 4 d ++ "-" ++ slice 4 6 d ++ "-" ++ slice 6 8 d) = d).
  { unfold is_yyyyMMdd in Hd. apply andb_true_iff in Hd as [Hlen Hdig].
    apply Nat.eqb_eq in Hlen.
    destruct d as [|c1 [|c2 [|c3 [|c4 [|c5 [|c6 [|c7 [|c8 [|c9 d]]]]]]]]];
      try discriminate.
    split; [reflexivity|].
    cbn in Hdig |- *.
    destruct (isDigit c1); [|discriminate]. destruct (isDigit c2); [|discriminate].
    destruct (isDigit c3); [|discriminate]. destruct (isDigit c4); [|discriminate].
    destruct (isDigit c5); [|discriminate]. destruct (isDigit c6); [|discriminate].
    destruct (isDigit c7); [|discriminate]. destruct (isDigit c8); [|discriminate].
    reflexivity. }
  destruct Hdate as [Hl Hk].
  repeat (split; [assumption|]). exact Hschema.
Qed.

Lemma parsed_key_is_its_parts_witness :
  exists dateStr,
    "ACME-PL-12345-20231215-ONBOARD_FEE"
    = "ACME" ++ "-" ++ "PL-12345" ++ "-" ++ dateStr ++ "-" ++ "ONBOARD_FEE".
Proof.
  destruct (parsed_key_is_its_parts "ACME-PL-12345-20231215-ONBOARD_FEE"
              {| kp_clientCode := "ACME"; kp_controlNumber := "PL-12345";
                 kp_triggerDate := "2023-12-15"; kp_feeType := "ONBOARD_FEE" |}
              eq_refl) as [dateStr [Hkey _]].
  exists dateStr. exact Hkey.
Defined.

(** ** The QuickBooks memo *)

Lemma allChars_weaken (cls cls' : ascii -> bool) (s : string) :
  (forall c, cls c = true -> cls' c = true) ->
  allChars cls s = true -> allChars cls' s = true.
Proof.
  intros Hsub. induction s as [|c s IH]; simpl; [reflexivity|].
  destruct (cls c) eqn:Hc; [|discriminate].
  intros H. now rewrite (Hsub c Hc), IH.
Qed.

Lemma keyChar_not_space (c : ascii) : isKeyChar c = true -> isSpace c = false.
Proof. destruct c as [[] [] [] [] [] [] [] []]; vm_compute; congruence. Qed.

Lemma keyChar_not_bracket (c : ascii) :
  isKeyChar c = true -> notCloseBracket c = true.
Proof. destruct c as [[] [] [] [] [] [] [] []]; vm_compute; congruence. Qed.

Lemma upperAlnum_keyChar (c : ascii) : isUpperAlnum c = true -> isKeyChar c = true.
Proof. destruct c as [[] [] [] [] [] [] [] []]; vm_compute; congruence. Qed.

Lemma digit_keyChar (c : ascii) : isDigit c = true -> isKeyChar c = true.
Proof. destruct c as [[] [] [] [] [] [] [] []]; vm_compute; congruence. Qed.

Lemma upperUnderscore_keyChar (c : ascii) :
  isUpperUnderscore c = true -> isKeyChar c = true.
Proof. destruct c as [[] [] [] [] [] [] [] []]; vm_compute; congruence. Qed.

(** Every character of a key the schema accepts is a letter, a digit,
    a hyphen or an underscore. *)
Lemma schema_key_keyChars (key : string) :
  IdempotencyKeySchema key = true ->
  nonEmpty key = true /\ allChars isKeyChar key = true.
Proof.
  unfold IdempotencyKeySchema.
  destruct (matchPieces keyPattern key) as [captures|] eqn:Hm; [|discriminate].
  intros _.
  destruct (keyPattern_sound key captures Hm)
    as [cc [cn [d [ft [_ [-> [Hcc1 [Hcc2 [_ [Hcn2 [Hd [_ Hft2]]]]]]]]]]]].
  split; [now apply nonEmpty_append_l|].
  unfold is_yyyyMMdd in Hd. apply andb_true_iff in Hd as [_ Hd].
  rewrite !allChars_append.
  rewrite (allChars_weaken _ _ _ upperAlnum_keyChar Hcc2), Hcn2,
    (allChars_weaken _ _ _ digit_keyChar Hd),
    (allChars_weaken _ _ _ upperUnderscore_keyChar Hft2).
  reflexivity.
Qed.

Lemma trimStart_keyChars (s : string) :
  allChars isKeyChar s = true -> trimStart s = s.
Proof.
  destruct s as [|c s]; simpl; [reflexivity|].
  destruct (isKeyChar c) eqn:Hc; [|discriminate].
  now rewrite (keyChar_not_space c Hc).
Qed.

Lemma trimEnd_keyChars (s : string) :
  allChars isKeyChar s = true -> trimEnd s = s.
Proof.
  induction s as [|c s IH]; simpl; [reflexivity|].
  destruct (isKeyChar c) eqn:Hc; [|discriminate].
  intros H. rewrite (IH H), (keyChar_not_space c Hc). reflexivity.
Qed.

Lemma afterLiteral_append (lit rest : string) :
  afterLiteral lit (lit ++ rest) = Some rest.
Proof.
  induction lit as [|c lit IH]; simpl; [reflexivity|].
  now rewrite Ascii.eqb_refl.
Qed.

(** The first line of a memo, and what follows it. *)
Lemma generateQbMemo_head (key : string) (additionalNotes : option string) :
  exists rest,
    generateQbMemo key additionalNotes
    = "[IDEMPOTENCY_KEY: " ++ key ++ "]" ++ rest.
Proof.
  unfold generateQbMemo.
  assert (Hconcat : forall first others,
             exists rest, String.concat newline (first :: others) = first ++ rest).
  { intros first [|second others].
    - exists EmptyString. simpl. now rewrite append_empty_r.
    - eexists. cbn [String.concat]. reflexivity. }
  assert (Hlines : forall first others,
             exists rest,
               String.concat newline (("[IDEMPOTENCY_KEY: " ++ first ++ "]") :: others)
               = "[IDEMPOTENCY_KEY: " ++ first ++ "]" ++ rest).
  { intros first others.
    destruct (Hconcat ("[IDEMPOTENCY_KEY: " ++ first ++ "]") others) as [rest ->].
    exists rest. now rewrite !append_assoc. }
  destruct (parseIdempotencyKey key) as [parsed|];
    destruct additionalNotes as [notes|];
    try destruct (nonEmpty notes); cbn [List.app]; apply Hlines.
Qed.

(** X14. The key written into a memo is the key read back from it: for any
    key the schema accepts, whatever notes are appended, even notes
    that carry a marker of their own. *)
Theorem memo_returns_its_key (key : string) (additionalNotes : option string) :
  IdempotencyKeySchema key = true ->
  extractKeyFromQbMemo (generateQbMemo key additionalNotes) = Some key.
Proof.
  intros Hschema.
  destruct (schema_key_keyChars key Hschema) as [Hne Hchars].
  destruct (generateQbMemo_head key additionalNotes) as [rest ->].
  unfold extractKeyFromQbMemo.
  assert (Hsearch : memoKeySearch ("[IDEMPOTENCY_KEY: " ++ key ++ "]" ++ rest)
                    = Some [key]).
  { change ("[IDEMPOTENCY_KEY: " ++ key ++ "]" ++ rest)
      with ("[IDEMPOTENCY_KEY:" ++ String " " (key ++ "]" ++ rest)).
    assert (Hhere : memoKeyHere ("[IDEMPOTENCY_KEY:" ++ String " " (key ++ "]" ++ rest))
                    = Some [key]).
    { unfold memoKeyHere. rewrite afterLiteral_append.
      cbn [greedyStar isSpace]. 
      replace (isSpace " ") with true by reflexivity.
      assert (Hplus : greedyPlus notCloseBracket
                        (fun r => match afterLiteral "]" r with
                                  | Some _ => Some []
                                  | None => None
                                  end) EmptyString (key ++ "]" ++ rest)
                      = Some [key]).
      { apply (greedyPlus_longest notCloseBracket _ key ("]" ++ rest) [] EmptyString).
        - exact (allChars_weaken _ _ _ keyChar_not_bracket Hchars).
        - exact Hne.
        - reflexivity.
        - reflexivity. }
      assert (Hstar : greedyStar isSpace
                        (greedyPlus notCloseBracket
                           (fun r => match afterLiteral "]" r with
                                     | Some _ => Some []
                                     | None => None
                                     end) EmptyString) (key ++ "]" ++ rest)
                      = Some [key]).
      { destruct key as [|c key]; [discriminate|].
        cbn [append greedyStar]. cbn [append] in Hplus.
        simpl in Hchars. destruct (isKeyChar c) eqn:Hc; [|discriminate].
        rewrite (keyChar_not_space c Hc). exact Hplus. }
      now rewrite Hstar. }
    destruct ("[IDEMPOTENCY_KEY:" ++ String " " (key ++ "]" ++ rest)) eqn:Hs;
      cbn [memoKeySearch]; now rewrite Hhere. }
  rewrite Hsearch. unfold trim.
  now rewrite (trimStart_keyChars key Hchars), (trimEnd_keyChars key Hchars).
Qed.

Lemma memo_returns_its_key_witness :
  extractKeyFromQbMemo
    (generateQbMemo "ACME-PL-12345-20231215-ONBOARD_FEE"
       (Some "see [IDEMPOTENCY_KEY: OTHER-X-20200101-OTHER]"))
  = Some "ACME-PL-12345-20231215-ONBOARD_FEE".
Proof.
  apply memo_returns_its_key. reflexivity.
Defined.

Lemma afterLiteral_sound (lit : string) :
  forall s rest, afterLiteral lit s = Some rest -> s = lit ++ rest.
Proof.
  induction lit as [|c lit IH]; intros s rest H; simpl in H.
  - now injection H as <-.
  - destruct s as [|c' s]; [discriminate|].
    destruct (Ascii.eqb c' c) eqn:Hc; [|discriminate].
    apply Ascii.eqb_eq in Hc. subst c'. simpl. f_equal. now apply IH.
Qed.

Lemma greedyStar_sound (cls : ascii -> bool)
  (k : string -> option (list string)) (s : string) (r : list string) :
  greedyStar cls k s = Some r ->
  exists m rest, s = m ++ rest /\ allChars cls m = true /\ k rest = Some r.
Proof.
  induction s as [|c s IH]; simpl; intros H.
  - now exists EmptyString, EmptyString.
  - destruct (cls c) eqn:Hc.
    + destruct (greedyStar cls k s) as [r0|] eqn:Hrec.
      * injection H as <-.
        destruct (IH eq_refl) as [m [rest [-> [Hm Hk]]]].
        exists (String c m), rest. simpl. now rewrite Hc, Hm.
      * now exists EmptyString, (String c s).
    + now exists EmptyString, (String c s).
Qed.

Lemma memoKeySearch_sound (s : string) (r : list string) :
  memoKeySearch s = Some r ->
  exists before suffix, s = before ++ suffix /\ memoKeyHere suffix = Some r.
Proof.
  induction s as [|c s IH]; cbn [memoKeySearch].
  - destruct (memoKeyHere EmptyString) eqn:Hhere; [|discriminate].
    intros H. injection H as <-. now exists EmptyString, EmptyString.
  - destruct (memoKeyHere (String c s)) as [r0|] eqn:Hhere.
    + intros H. injection H as <-. now exists EmptyString, (String c s).
    + intros H. destruct (IH H) as [before [suffix [-> Hs]]].
      now exists (String c before), suffix.
Qed.

Lemma memoKeySearch_no_bracket (s : string) :
  allChars (fun c => negb (Ascii.eqb c "[")) s = true ->
  memoKeySearch s = None.
Proof.
  induction s as [|c s IH]; cbn [memoKeySearch allChars].
  - reflexivity.
  - intros H. apply andb_true_iff in H as [Hc Hs].
    unfold memoKeyHere. cbn [afterLiteral].
    apply negb_true_iff in Hc. rewrite Hc. now apply IH.
Qed.

Lemma trimStart_spaces (s : string) :
  allChars isSpace s = true -> trimStart s = EmptyString.
Proof.
  induction s as [|c s IH]; simpl; [reflexivity|].
  destruct (isSpace c); [exact IH | discriminate].
Qed.

Lemma blank_key_capture (spaces rest : string) :
  nonEmpty spaces = true ->
  allChars isSpace spaces = true ->
  exists raw,
    greedyStar isSpace
      (greedyPlus notCloseBracket
         (fun r => match afterLiteral "]" r with
                   | Some _ => Some []
                   | None => None
                   end) EmptyString) (spaces ++ "]" ++ rest)
    = Some [raw]
    /\ allChars isSpace raw = true.
Proof.
  assert (Hnb : forall c, isSpace c = true -> notCloseBracket c = true).
  { intros c. destruct c as [[] [] [] [] [] [] [] []]; vm_compute; congruence. }
  assert (Hcons : forall k c s,
             greedyStar isSpace k (String c s)
             = if isSpace c
               then match greedyStar isSpace k s with
                    | Some r => Some r
                    | None => k (String c s)
                    end
               else k (String c s)).
  { reflexivity. }
  induction spaces as [|c spaces IH]; [discriminate|].
  intros _ Hall. simpl in Hall.
  destruct (isSpace c) eqn:Hc; [|discriminate].
  change (String c spaces ++ "]" ++ rest)
    with (String c (spaces ++ "]" ++ rest)).
  rewrite Hcons, Hc.
  destruct spaces as [|c' spaces].
  - change (EmptyString ++ "]" ++ rest) with (String "]" rest).
    rewrite Hcons. change (isSpace "]") with false. cbv beta iota.
    change (greedyPlus notCloseBracket
              (fun r => match afterLiteral "]" r with
                        | Some _ => Some []
                        | None => None
                        end) EmptyString (String "]" rest)) with (@None (list string)).
    cbv beta iota.
    exists (String c EmptyString). split; [|simpl; now rewrite Hc].
    apply (greedyPlus_longest notCloseBracket _ (String c EmptyString)
             (String "]" rest) [] EmptyString).
    + simpl. now rewrite (Hnb c Hc).
    + reflexivity.
    + reflexivity.
    + reflexivity.
  - destruct (IH eq_refl Hall) as [raw [Hstar Hraw]].
    rewrite Hstar. now exists raw.
Qed.

(** X15. A key read from an ASCII memo stands in the memo: after the
    first marker [[IDEMPOTENCY_KEY:] from which a bracketed text can be
    read, with
    the white space around it removed.  A memo without an opening
    bracket has no key.  A marker whose brackets hold nothing but white
    space yields the empty string, not the absence of a key. *)
Theorem extracted_key_stands_in_the_memo (memo : string) :
  (forall key,
      allChars isAscii memo = true ->
      extractKeyFromQbMemo memo = Some key ->
      exists before spaces raw after,
        memo = before ++ "[IDEMPOTENCY_KEY:" ++ spaces ++ raw ++ "]" ++ after
        /\ allChars isSpace spaces = true
        /\ nonEmpty raw = true
        /\ allChars notCloseBracket raw = true
        /\ key = trim raw)
  /\ (allChars (fun c => negb (Ascii.eqb c "[")) memo = true ->
      extractKeyFromQbMemo memo = None)
  /\ (forall spaces after,
        nonEmpty spaces = true ->
        allChars isSpace spaces = true ->
        extractKeyFromQbMemo ("[IDEMPOTENCY_KEY:" ++ spaces ++ "]" ++ after)
        = Some EmptyString).
Proof.
  split; [|split].
  - intros key _. unfold extractKeyFromQbMemo.
    destruct (memoKeySearch memo) as [[|raw0 captures]|] eqn:Hsearch;
      try discriminate.
    intros H. injection H as <-.
    apply memoKeySearch_sound in Hsearch as [before [suffix [-> Hhere]]].
    unfold memoKeyHere in Hhere.
    destruct (afterLiteral "[IDEMPOTENCY_KEY:" suffix) as [rest|] eqn:Hlit;
      [|discriminate].
    apply afterLiteral_sound in Hlit. subst suffix.
    apply greedyStar_sound in Hhere as [spaces [rest' [-> [Hsp Hplus]]]].
    apply greedyPlus_sound in Hplus as [raw [rest'' [r' [-> [Hraw [Hne [Hk Heq]]]]]]].
    injection Heq as -> <-. cbn [append] in Hne.
    destruct (afterLiteral "]" rest'') as [after|] eqn:Hclose; [|discriminate].
    apply afterLiteral_sound in Hclose. subst rest''.
    exists before, spaces, raw, after. repeat split; assumption.
  - intros Hno. unfold extractKeyFromQbMemo.
    now rewrite memoKeySearch_no_bracket.
  - intros spaces after Hne Hall. unfold extractKeyFromQbMemo.
    destruct (blank_key_capture spaces after Hne Hall) as [raw [Hstar Hraw]].
    assert (Hhere : memoKeyHere ("[IDEMPOTENCY_KEY:" ++ spaces ++ "]" ++ after)
                    = Some [raw]).
    { unfold memoKeyHere. rewrite afterLiteral_append. exact Hstar. }
    assert (Hsearch : memoKeySearch ("[IDEMPOTENCY_KEY:" ++ spaces ++ "]" ++ after)
                      = Some [raw]).
    { destruct ("[IDEMPOTENCY_KEY:" ++ spaces ++ "]" ++ after) eqn:Hs;
        cbn [memoKeySearch]; now rewrite Hhere. }
    rewrite Hsearch. unfold trim. now rewrite (trimStart_spaces raw Hraw).
Qed.

Lemma extracted_key_stands_in_the_memo_witness :
  extractKeyFromQbMemo ("[IDEMPOTENCY_KEY:" ++ "  " ++ "]" ++ " paid")
  = Some EmptyString.
Proof.
  apply (proj2 (proj2 (extracted_key_stands_in_the_memo EmptyString)));
    reflexivity.
Defined.

(** ** Payments on file *)

Lemma applyPayments_cons (link : InvoiceLink) (call : Host * PaymentRecord)
  (calls : list (Host * PaymentRecord)) :
  applyPayments link (call :: calls)
  = applyPayments (recordPayment (fst call) link (snd call)) calls.
Proof. reflexivity. Qed.

Lemma recordPayment_keeps (host : Host) (l : InvoiceLink) (p : PaymentRecord) :
  il_idempotencyKey (recordPayment host l p) = il_idempotencyKey l
  /\ il_currency (recordPayment host l p) = il_currency l
  /\ il_dueDate (recordPayment host l p) = il_dueDate l
  /\ il_qbInvoiceId (recordPayment host l p) = il_qbInvoiceId l.
Proof.
  unfold recordPayment.
  destruct (Qle_bool _ _); try destruct (negb _); repeat split.
Qed.

Lemma applyPayments_lists (calls : list (Host * PaymentRecord)) :
  forall link,
    il_payments (applyPayments link calls)
    = (il_payments link ++ map snd calls)%list
    /\ (exists added,
           il_statusHistory (applyPayments link calls)
           = (il_statusHistory link ++ added)%list
           /\ map ls_timestamp added = map (fun call => host_now (fst call)) calls
           /\ Forall (fun entry => ls_source entry = QB_SYNC) added)
    /\ (calls <> [] ->
        option_map ls_status
          (last (map Some (il_statusHistory (applyPayments link calls))) None)
        = Some (il_qbStatus (applyPayments link calls)))
    /\ il_id (applyPayments link calls) = il_id link
    /\ il_billableEventId (applyPayments link calls) = il_billableEventId link
    /\ il_idempotencyKey (applyPayments link calls) = il_idempotencyKey link
    /\ il_qbInvoiceId (applyPayments link calls) = il_qbInvoiceId link
    /\ il_currency (applyPayments link calls) = il_currency link
    /\ il_dueDate (applyPayments link calls) = il_dueDate link.
Proof.
  induction calls as [|call calls IH]; intros link.
  - cbn. rewrite app_nil_r. split; [reflexivity|]. split.
    + exists []. rewrite app_nil_r. repeat split. constructor.
    + split; [intros H; now destruct H | repeat split].
  - rewrite applyPayments_cons.
    destruct (IH (recordPayment (fst call) link (snd call)))
      as [Hp [[added [Hh [Ht Hs]]] [Hlast [Hid [Hev [Hkey [Hqb [Hcur Hdue]]]]]]]].
    destruct (recordPayment_history (fst call) link (snd call)) as [Hh1 Hp1].
    destruct (recordPayment_id (fst call) link (snd call)) as [Hid1 Hev1].
    destruct (recordPayment_keeps (fst call) link (snd call))
      as [Hkey1 [Hcur1 [Hdue1 Hqb1]]].
    split; [rewrite Hp, Hp1, <- app_assoc; reflexivity|].
    split.
    { eexists. rewrite Hh, Hh1, <- app_assoc. split; [reflexivity|].
      cbn [app map ls_timestamp]. rewrite Ht. split; [reflexivity|].
      constructor; [reflexivity | exact Hs]. }
    split.
    { intros _. destruct calls as [|call' calls].
      - cbn [applyPayments fold_left]. rewrite Hh1, map_app. cbn [map].
        now rewrite last_last.
      - apply Hlast. discriminate. }
    rewrite Hid, Hev, Hkey, Hqb, Hcur, Hdue. repeat split; assumption.
Qed.

(** X16. Payments applied to a link one after the other are all kept on
    file, in the order they came.  Each adds one entry to the status
    history, stamped QB_SYNC and with the time of its call, after the
    entries that were there; once a payment has been applied, the last
    entry names the status the link is in.  The id of the link, its
    event, key, QuickBooks invoice, invoiced amount, currency and due
    date never change. *)
Theorem payments_stay_on_file (link : InvoiceLink)
  (calls : list (Host * PaymentRecord)) :
  calls <> [] ->
  let after := applyPayments link calls in
  il_payments after = (il_payments link ++ map snd calls)%list
  /\ (exists added,
         il_statusHistory after = (il_statusHistory link ++ added)%list
         /\ map ls_timestamp added = map (fun call => host_now (fst call)) calls
         /\ Forall (fun entry => ls_source entry = QB_SYNC) added)
  /\ option_map ls_status (last (map Some (il_statusHistory after)) None)
     = Some (il_qbStatus after)
  /\ il_id after = il_id link
  /\ il_billableEventId after = il_billableEventId link
  /\ il_idempotencyKey after = il_idempotencyKey link
  /\ il_qbInvoiceId after = il_qbInvoiceId link
  /\ il_amount after = il_amount link
  /\ il_currency after = il_currency link
  /\ il_dueDate after = il_dueDate link.
Proof.
  intros Hne. cbv zeta.
  destruct (applyPayments_lists calls link)
    as [Hp [Hh [Hlast [Hid [Hev [Hkey [Hqb [Hcur Hdue]]]]]]]].
  split; [exact Hp|]. split; [exact Hh|]. split; [exact (Hlast Hne)|].
  split; [exact Hid|]. split; [exact Hev|]. split; [exact Hkey|].
  split; [exact Hqb|]. split; [apply applyPayments_amount|].
  split; assumption.
Qed.

Lemma payments_stay_on_file_witness :
  map pay_qbPaymentId
    (il_payments
       (applyPayments openLink
          [(host3, paymentRecordOf host3 payment400);
           (host4, paymentRecordOf host4 payment600)]))
  = ["PAY-1"; "PAY-2"].
Proof.
  rewrite (proj1 (payments_stay_on_file openLink
                    [(host3, paymentRecordOf host3 payment400);
                     (host4, paymentRecordOf host4 payment600)]
                    ltac:(discriminate))).
  reflexivity.
Defined.

(** ** Invoice links in the store *)

Lemma storage_updateInvoiceLink_frame (host : Host) (id : string)
  (updates link : InvoiceLink) (s : StorageData) :
  find (fun l => String.eqb (il_id l) id) (invoiceLinks s) = Some link ->
  il_id updates = id ->
  exists s',
    storage_updateInvoiceLink host id updates s = (Ok (mergeLink host updates), s')
    /\ find (fun l => String.eqb (il_id l) id) (invoiceLinks s')
       = Some (mergeLink host updates)
    /\ map il_id (invoiceLinks s') = map il_id (invoiceLinks s)
    /\ billableEvents s' = billableEvents s
    /\ clientPolicies s' = clientPolicies s
    /\ auditLogs s' = auditLogs s.
Proof.
  intros Hfind Hid. unfold storage_updateInvoiceLink.
  destruct (find_findIndex _ _ _ Hfind) as [i Hi]. rewrite Hi.
  eexists. split; [reflexivity|].
  cbn [invoiceLinks billableEvents clientPolicies auditLogs setInvoiceLinks].
  split.
  { apply find_assignAt; [exact Hi|].
    cbn [mergeLink withPaymentFields il_id]. rewrite Hid. apply String.eqb_refl. }
  split; [|repeat split].
  eapply map_assignAt; [exact Hi | exact Hfind |].
  cbn [mergeLink withPaymentFields il_id].
  rewrite Hid. symmetry. exact (find_eqb_id il_id id _ _ Hfind).
Qed.



(** X18. A status reported by the accounting system is taken as it comes:
    the link gets the status and one more history entry, stamped
    QB_SYNC, while the amounts, the payments on file and the date of
    full payment stay as they were.  No event changes, not even when
    the new status is PAID, and nothing is written to the audit
    trail. *)
Theorem status_sync_leaves_money_and_events
  (host : Host) (id : string) (newStatus : QBInvoiceStatus)
  (link : InvoiceLink) (s : StorageData) :
  find (fun l => String.eqb (il_id l) id) (invoiceLinks s) = Some link ->
  exists updated s' stored,
    updateStatusFromQb host id newStatus s = (Ok updated, s')
    /\ find (fun l => String.eqb (il_id l) id) (invoiceLinks s') = Some stored
    /\ il_qbStatus stored = newStatus
    /\ il_statusHistory stored
       = (il_statusHistory link
          ++ [ {| ls_status := newStatus;
                  ls_timestamp := host_now host;
                  ls_source := QB_SYNC |} ])%list
    /\ il_amount stored = il_amount link
    /\ il_totalPaid stored = il_totalPaid link
    /\ il_balance stored = il_balance link
    /\ il_payments stored = il_payments link
    /\ il_paidInFullDate stored = il_paidInFullDate link
    /\ il_qbStatus updated = newStatus
    /\ map il_id (invoiceLinks s') = map il_id (invoiceLinks s)
    /\ billableEvents s' = billableEvents s
    /\ auditLogs s' = auditLogs s.
Proof.
  intros Hfind.
  unfold updateStatusFromQb, bind.
  rewrite (getInvoiceLinkById_found _ _ _ Hfind).
  match goal with
  | |- context [storage_updateInvoiceLink host id ?u s] => set (updated := u)
  end.
  destruct (storage_updateInvoiceLink_frame host id updated link s Hfind)
    as [s1 [Hup [Hf [Hids [He [_ Ha]]]]]].
  { exact (find_eqb_id il_id id _ _ Hfind). }
  exists updated, s1, (mergeLink host updated).
  rewrite Hup. unfold ret.
  split; [reflexivity|]. split; [exact Hf|].
  repeat (split; [reflexivity|]).
  repeat split; assumption.
Qed.

Lemma status_sync_leaves_money_and_events_witness :
  exists updated s',
    updateStatusFromQb host1 (il_id dueLink) QB_PAID
      (setInvoiceLinks acmeStore [dueLink]) = (Ok updated, s')
    /\ map il_balance (invoiceLinks s') = [il_balance dueLink].
Proof.
  destruct (status_sync_leaves_money_and_events host1 (il_id dueLink) QB_PAID
              dueLink (setInvoiceLinks acmeStore [dueLink]) eq_refl)
    as [updated [s' [stored [Hrun _]]]].
  exists updated, s'. split; [exact Hrun|].
  vm_compute in Hrun. injection Hrun as <- <-. reflexivity.
Defined.

(** ** The overdue report *)

Lemma addToSummary_counts (rows : list OverdueRow) :
  forall summary,
    let r := fold_left addToSummary rows summary in
    count r = count summary
    /\ (forall b,
          ag_count (byAging r b)
          = (ag_count (byAging summary b)
             + List.length
                 (filter (fun row => AgingBucket_eqb b (row_agingBucket row)) rows))%nat).
Proof.
  induction rows as [|row rows IH]; intros summary; cbn [fold_left].
  - cbn. split; [reflexivity|]. intros b. now rewrite Nat.add_0_r.
  - destruct (IH (addToSummary summary row)) as [Hc Hn].
    cbv zeta. rewrite Hc. cbn [addToSummary count].
    split; [reflexivity|]. intros b.
    rewrite Hn. cbn [addToSummary byAging filter].
    destruct (AgingBucket_eqb b (row_agingBucket row));
      cbn [ag_count List.length]; lia.
Qed.

Lemma buckets_partition (rows : list OverdueRow) :
  let inBucket b :=
    filter (fun row => AgingBucket_eqb b (row_agingBucket row)) rows in
  (List.length (inBucket B_1_30) + List.length (inBucket B_31_60)
   + List.length (inBucket B_61_90) + List.length (inBucket B_90_PLUS))%nat
  = List.length rows.
Proof.
  cbv zeta. induction rows as [|row rows IH]; [reflexivity|].
  cbn [filter].
  destruct (row_agingBucket row); cbn [AgingBucket_eqb List.length] in *; lia.
Qed.

Lemma isOverdue_inv (host : Host) (inv : InvoiceLink) :
  isOverdue host inv = true ->
  (1 <= ceilDays host (il_dueDate inv))%Z
  /\ 0 < il_balance inv
  /\ il_qbStatus inv <> QB_PAID.
Proof.
  unfold isOverdue, getDaysOverdue.
  destruct (QBInvoiceStatus_eqb (il_qbStatus inv) QB_PAID) eqn:Hpaid;
    [discriminate|].
  destruct (Qle_bool (il_balance inv) 0) eqn:Hbal; [discriminate|].
  cbn [orb]. intros H. apply Z.ltb_lt in H.
  split; [lia|]. split.
  - apply Qnot_le_lt. intros Hle. apply Qle_bool_iff in Hle. congruence.
  - intros Heq. rewrite Heq in Hpaid. discriminate.
Qed.

(** X19. The report never throws and writes nothing.  It has one row
    for each overdue link, in the order of the store, and [count] is
    their number.  Every row falls in exactly one of the four aging
    buckets: the counts of the buckets add up to [count].  Every row is
    at least one day overdue, has a positive balance and sits in the
    bucket of its days. *)
Theorem overdue_report_counts (host : Host) (s : StorageData) :
  exists summary rows,
    getOverdueReport host s = (Ok (summary, rows), s)
    /\ rows = map (overdueRow host) (filter (isOverdue host) (invoiceLinks s))
    /\ count summary = List.length rows
    /\ (ag_count (byAging summary B_1_30) + ag_count (byAging summary B_31_60)
        + ag_count (byAging summary B_61_90)
        + ag_count (byAging summary B_90_PLUS))%nat = count summary
    /\ (forall b,
          ag_count (byAging summary b)
          = List.length
              (filter (fun row => AgingBucket_eqb b (row_agingBucket row)) rows))
    /\ Forall (fun row =>
                 (1 <= row_daysOverdue row)%Z
                 /\ 0 < row_balance row
                 /\ row_agingBucket row = agingBucketOf (row_daysOverdue row))
         rows.
Proof.
  unfold getOverdueReport, bind, getOverdueInvoices, storage_getOverdueInvoiceLinks,
    ret.
  set (links := filter (isOverdue host) (invoiceLinks s)).
  set (rows := map (overdueRow host) links).
  set (init := {| totalOverdue := 0; count := List.length links;
                  byAging := fun _ => {| ag_count := 0; ag_amount := 0 |} |}).
  destruct (addToSummary_counts rows init) as [Hc Hn].
  pose proof (buckets_partition rows) as Pn.
  exists (fold_left addToSummary rows init), rows.
  split; [reflexivity|]. split; [reflexivity|].
  split; [rewrite Hc; cbn [init count]; unfold rows; now rewrite length_map|].
  split.
  { rewrite !Hn, Hc. cbn [init byAging ag_count count Nat.add].
    cbv zeta in Pn. rewrite Pn. unfold rows. now rewrite length_map. }
  split; [intros b; rewrite Hn; reflexivity|].
  unfold rows. apply Forall_map. apply Forall_forall.
  intros inv Hin. apply filter_In in Hin as [_ Hover].
  destruct (isOverdue_inv host inv Hover) as [Hdays [Hbal _]].
  cbn [overdueRow row_daysOverdue row_balance row_agingBucket].
  repeat split; assumption.
Qed.

(** ** Creating an invoice *)

Lemma markAsInvoiced_accepts (host : Host) (context : RequestContext)
  (id : string) (event : BillableEvent) (s : StorageData) :
  find (fun e => String.eqb (ev_id e) id) (billableEvents s) = Some event ->
  ev_status event = EV_APPROVED ->
  let updated := updateEventStatus host event EV_INVOICED (userId context)
                   (Some "Invoice created in QuickBooks") in
  exists s',
    markAsInvoiced host context id s = (Ok updated, s')
    /\ find (fun e => String.eqb (ev_id e) id) (billableEvents s')
       = Some (mergeEvent host updated)
    /\ sameEventKeys s s'
    /\ auditLogs s' = auditLogs s.
Proof.
  intros Hfind Hstatus updated. unfold markAsInvoiced, bind.
  rewrite (getEventById_found _ _ _ Hfind). rewrite Hstatus.
  cbn [BillableEventStatus_eqb negb].
  destruct (storage_updateEvent_frame host id updated event s Hfind eq_refl eq_refl)
    as [s' [Hup [Hstored [Hsame [Haudit _]]]]].
  fold updated. rewrite Hup. unfold ret.
  exists s'. repeat split; try assumption; apply Hsame.
Qed.

Lemma find_none_not_in {A : Type} (key : A -> string) (id : string) (l : list A) :
  find (fun x => String.eqb (key x) id) l = None -> ~ In id (map key l).
Proof.
  intros Hfind Hin. apply in_map_iff in Hin as [x [Heq Hin]].
  apply (find_none _ _ Hfind) in Hin. cbv beta in Hin.
  rewrite Heq, String.eqb_refl in Hin. discriminate.
Qed.

(** What [createInvoice] does once the phase allows writing. *)
Lemma createInvoiceAllowed_accepts (zod_uuid : string -> bool)
  (host : Host) (context : RequestContext)
  (qbInvoice : QbInvoice) (id : string) (event : BillableEvent)
  (s : StorageData) :
  find (fun e => String.eqb (ev_id e) id) (billableEvents s) = Some event ->
  ev_status event = EV_APPROVED ->
  find (fun l => String.eqb (il_billableEventId l) id) (invoiceLinks s) = None ->
  zod_uuid (ev_id event) = true ->
  memberOf CurrencyCode (ev_currency event) = true ->
  let link := createInvoiceLink host (newLinkOf context event qbInvoice) in
  exists s',
    createInvoiceAllowed zod_uuid host context qbInvoice id s = (Ok link, s')
    /\ invoiceLinks s' = (invoiceLinks s ++ [link])%list
    /\ find (fun e => String.eqb (ev_id e) id) (billableEvents s')
       = Some (mergeEvent host
                 (updateEventStatus host event EV_INVOICED (userId context)
                    (Some "Invoice created in QuickBooks")))
    /\ map ev_id (billableEvents s') = map ev_id (billableEvents s)
    /\ map ev_idempotencyKey (billableEvents s')
       = map ev_idempotencyKey (billableEvents s)
    /\ clientPolicies s' = clientPolicies s
    /\ auditLogs s'
       = (auditLogs s
          ++ [ {| al_id := host_auditUuid host;
                  al_action := A_INVOICE_CREATE;
                  al_entityType := INVOICE_LINK;
                  al_entityId := Some (il_id link);
                  al_userId := userId context;
                  al_timestamp := host_now host |} ])%list.
Proof.
  intros Hfind Hstatus Hnone Huuid Hcur link.
  unfold createInvoiceAllowed, bind.
  rewrite (getEventById_found _ _ _ Hfind). rewrite Hstatus.
  cbn [BillableEventStatus_eqb negb].
  unfold storage_getInvoiceLinkByEventId. rewrite Hnone, Huuid, Hcur. cbn [negb].
  fold link. unfold storage_saveInvoiceLink.
  set (s1 := setInvoiceLinks s (invoiceLinks s ++ [link])%list).
  assert (Hfind1 : find (fun e => String.eqb (ev_id e) id) (billableEvents s1)
                   = Some event) by exact Hfind.
  destruct (markAsInvoiced_accepts host context id event s1 Hfind1 Hstatus)
    as [s2 [Hrun [Hstored [[Hids [Hkeys [Hpol Hlinks]]] Haudit]]]].
  rewrite Hrun.
  unfold logInvoiceCreate, auditService_log, storage_saveAuditLog, ret.
  eexists. split; [reflexivity|].
  cbn [invoiceLinks billableEvents clientPolicies auditLogs setAuditLogs].
  split; [exact Hlinks|]. split; [exact Hstored|].
  split; [exact Hids|]. split; [exact Hkeys|]. split; [exact Hpol|].
  now rewrite Haudit.
Qed.

(** Whenever [createInvoice] does not answer with a link, it has
    written nothing. *)
Lemma createInvoiceAllowed_failure (zod_uuid : string -> bool)
  (host : Host) (context : RequestContext)
  (qbInvoice : QbInvoice) (id : string) (s s' : StorageData) (err : AppError) :
  createInvoiceAllowed zod_uuid host context qbInvoice id s = (Err err, s') ->
  s' = s.
Proof.
  unfold createInvoiceAllowed, bind.
  destruct (find (fun e => String.eqb (ev_id e) id) (billableEvents s))
    as [event|] eqn:Hfind.
  - rewrite (getEventById_found _ _ _ Hfind).
    destruct (BillableEventStatus_eqb (ev_status event) EV_APPROVED) eqn:Hst;
      cbn [negb].
    + apply BillableEventStatus_eqb_eq in Hst.
      unfold storage_getInvoiceLinkByEventId.
      destruct (find _ (invoiceLinks s)) as [existing|] eqn:Hlink.
      * unfold throw. intros H. now injection H.
      * destruct (zod_uuid (ev_id event)) eqn:Huuid;
          [|cbn [negb]; unfold throw; intros H; now injection H].
        destruct (memberOf CurrencyCode (ev_currency event)) eqn:Hcur.
        -- intros H.
           destruct (createInvoiceAllowed_accepts zod_uuid host context qbInvoice
                       id event s Hfind Hst Hlink Huuid Hcur) as [s2 [Hrun _]].
           unfold createInvoiceAllowed, bind in Hrun.
           rewrite (getEventById_found _ _ _ Hfind) in Hrun.
           rewrite Hst in Hrun. cbn [BillableEventStatus_eqb negb] in Hrun.
           unfold storage_getInvoiceLinkByEventId in Hrun.
           rewrite Hlink, Huuid, Hcur in Hrun. cbn [negb] in Hrun.
           cbn [negb] in H. rewrite Hrun in H. discriminate.
        -- cbn [negb]. unfold throw. intros H. now injection H.
    + unfold throw. intros H. now injection H.
  - rewrite (getEventById_missing _ _ Hfind). intros H. now injection H.
Qed.

(** X20. With writing to QuickBooks enabled, an approved event that has no
    invoice yet, whose id is a UUID and whose currency is one of the
    codes, gets one link, appended to the store.  The link names
    the event and its key and takes its amount and currency from the
    event as it stands; nothing is paid on it and the whole amount is
    due.  The event is INVOICED from then on, one INVOICE_CREATE entry
    is written to the audit trail, and a second call for the same
    event, whatever QuickBooks answers, is refused and writes
    nothing. *)
Theorem createInvoice_links_an_approved_event (zod_uuid : string -> bool)
  (config : AppConfig) (host : Host) (context : RequestContext)
  (qbInvoice : QbInvoice) (id : string) (event : BillableEvent)
  (s : StorageData) :
  cfg_enableQbWrite config = true ->
  find (fun e => String.eqb (ev_id e) id) (billableEvents s) = Some event ->
  ev_status event = EV_APPROVED ->
  find (fun l => String.eqb (il_billableEventId l) id) (invoiceLinks s) = None ->
  zod_uuid id = true ->
  memberOf CurrencyCode (ev_currency event) = true ->
  exists link s' stored,
    createInvoice zod_uuid config host context qbInvoice id s = (inr (Ok link), s')
    /\ il_id link = host_uuid host
    /\ il_billableEventId link = id
    /\ il_idempotencyKey link = ev_idempotencyKey event
    /\ il_qbInvoiceId link = qb_id qbInvoice
    /\ il_amount link = ev_amount event
    /\ il_currency link = ev_currency event
    /\ il_totalPaid link = 0
    /\ il_balance link = ev_amount event
    /\ il_qbStatus link = QB_PENDING
    /\ il_payments link = []
    /\ invoiceLinks s' = (invoiceLinks s ++ [link])%list
    /\ find (fun e => String.eqb (ev_id e) id) (billableEvents s') = Some stored
    /\ ev_status stored = EV_INVOICED
    /\ ev_amount stored = ev_amount event
    /\ ev_idempotencyKey stored = ev_idempotencyKey event
    /\ map ev_id (billableEvents s') = map ev_id (billableEvents s)
    /\ List.length (auditLogs s') = S (List.length (auditLogs s))
    /\ option_map al_action (last (map Some (auditLogs s')) None)
       = Some A_INVOICE_CREATE
    /\ (oneLinkPerEvent s -> oneLinkPerEvent s')
    /\ (forall host' context' qbInvoice',
          exists fields,
            createInvoice zod_uuid config host' context' qbInvoice' id s'
            = (inr (Err (ValidationError "Only approved events can be invoiced"
                           fields)), s')).
Proof.
  intros Hwrite Hfind Hstatus Hnone Huuid Hcur.
  rewrite <- (find_eqb_id ev_id id _ _ Hfind) in Huuid.
  destruct (createInvoiceAllowed_accepts zod_uuid host context qbInvoice id event s
              Hfind Hstatus Hnone Huuid Hcur)
    as [s' [Hrun [Hlinks [Hstored [Hids [Hkeys [Hpol Haudit]]]]]]].
  eexists. exists s'. eexists.
  unfold createInvoice, checkPhaseForWrite. rewrite Hwrite, Hrun.
  split; [reflexivity|].
  cbn [createInvoiceLink newLinkOf il_id il_billableEventId il_idempotencyKey
         il_qbInvoiceId il_amount il_currency il_totalPaid il_balance
         il_qbStatus il_payments nl_billableEventId nl_idempotencyKey
         nl_qbInvoiceId nl_amount nl_currency].
  split; [reflexivity|].
  split; [exact (find_eqb_id ev_id id _ _ Hfind)|].
  repeat (split; [reflexivity|]).
  split; [exact Hlinks|]. split; [exact Hstored|].
  repeat (split; [reflexivity|]).
  split; [exact Hids|].
  split; [rewrite Haudit, length_app; cbn [List.length]; lia|].
  split; [rewrite Haudit, map_app; cbn [map]; now rewrite last_last|].
  split.
  { unfold oneLinkPerEvent. rewrite Hlinks, map_app. cbn [map].
    intros Hone. apply NoDup_snoc; [exact Hone|].
    cbn [createInvoiceLink newLinkOf il_billableEventId nl_billableEventId].
    rewrite (find_eqb_id ev_id id _ _ Hfind).
    exact (find_none_not_in il_billableEventId id _ Hnone). }
  intros host' context' qbInvoice'. eexists.
  unfold createInvoiceAllowed, bind.
  rewrite (getEventById_found _ _ _ Hstored).
  reflexivity.
Qed.

Lemma createInvoice_links_an_approved_event_witness :
  exists link s',
    createInvoice uuidShape phase2 host3 alice qbAnswer (host_uuid host1)
      approvedStore
    = (inr (Ok link), s')
    /\ il_amount link = 1000
    /\ map ev_status (billableEvents s') = [EV_INVOICED].
Proof.
  destruct (find (fun e => String.eqb (ev_id e) (host_uuid host1))
              (billableEvents approvedStore)) as [event|] eqn:Hfind;
    [|vm_compute in Hfind; discriminate].
  assert (Hevent := Hfind). vm_compute in Hevent. injection Hevent as Hevent.
  destruct (createInvoice_links_an_approved_event uuidShape phase2 host3 alice
              qbAnswer (host_uuid host1) event approvedStore eq_refl Hfind)
    as [link [s' [stored [Hrun [_ [_ [_ [_ [Hamount _]]]]]]]]].
  - now rewrite <- Hevent.
  - reflexivity.
  - reflexivity.
  - now rewrite <- Hevent.
  - exists link, s'. split; [exact Hrun|].
    split; [rewrite Hamount; now rewrite <- Hevent|].
    vm_compute in Hrun. injection Hrun as _ <-. reflexivity.
Defined.

(** X21. [createInvoice] either answers with a link or leaves the store as
    it found it.  Below phase 2 it refuses before reading anything; an
    unknown event, an event that is not APPROVED and an event that
    already has a link are each refused by name. *)
Theorem createInvoice_refusals_write_nothing (zod_uuid : string -> bool)
  (config : AppConfig) (host : Host) (context : RequestContext)
  (qbInvoice : QbInvoice) (id : string) (s : StorageData) :
  ((forall link, fst (createInvoice zod_uuid config host context qbInvoice id s)
                 <> inr (Ok link)) ->
   snd (createInvoice zod_uuid config host context qbInvoice id s) = s)
  /\ (cfg_enableQbWrite config = false ->
      createInvoice zod_uuid config host context qbInvoice id s
      = (inl {| pr_feature := "QuickBooks invoice creation";
                pr_requiredPhase := 2;
                pr_currentPhase := cfg_phase config |}, s))
  /\ (cfg_enableQbWrite config = true ->
      (find (fun e => String.eqb (ev_id e) id) (billableEvents s) = None ->
       createInvoice zod_uuid config host context qbInvoice id s
       = (inr (Err (NotFoundError "BillableEvent" id)), s))
      /\ (forall event,
            find (fun e => String.eqb (ev_id e) id) (billableEvents s)
            = Some event ->
            (ev_status event <> EV_APPROVED ->
             createInvoice zod_uuid config host context qbInvoice id s
             = (inr (Err (ValidationError "Only approved events can be invoiced"
                            [("status", "Current status is "
                                        ++ BillableEventStatus_name
                                             (ev_status event))])), s))
            /\ (forall existing,
                  ev_status event = EV_APPROVED ->
                  find (fun l => String.eqb (il_billableEventId l) id)
                    (invoiceLinks s) = Some existing ->
                  createInvoice zod_uuid config host context qbInvoice id s
                  = (inr (Err (ValidationError
                                 "Invoice already exists for this event"
                                 [("invoiceLinkId", il_id existing);
                                  ("qbDocNumber", il_qbDocNumber existing)])),
                     s)))).
Proof.
  split; [|split].
  - unfold createInvoice.
    destruct (checkPhaseForWrite config); [reflexivity|].
    destruct (createInvoiceAllowed zod_uuid host context qbInvoice id s)
      as [[l|err] s'] eqn:Hrun; cbn [fst snd].
    + intros Hno. now destruct (Hno l).
    + intros _. exact (createInvoiceAllowed_failure _ _ _ _ _ _ _ _ Hrun).
  - intros Hwrite. unfold createInvoice, checkPhaseForWrite. now rewrite Hwrite.
  - intros Hwrite. unfold createInvoice, checkPhaseForWrite. rewrite Hwrite.
    unfold createInvoiceAllowed, bind. split.
    + intros Hmissing. now rewrite (getEventById_missing _ _ Hmissing).
    + intros event Hfind. rewrite (getEventById_found _ _ _ Hfind). split.
      * intros Hstatus.
        destruct (BillableEventStatus_eqb (ev_status event) EV_APPROVED) eqn:Hst.
        -- apply BillableEventStatus_eqb_eq in Hst. contradiction.
        -- reflexivity.
      * intros existing Hstatus Hlink. rewrite Hstatus.
        cbn [BillableEventStatus_eqb negb].
        unfold storage_getInvoiceLinkByEventId. now rewrite Hlink.
Qed.

Lemma createInvoice_refusals_write_nothing_witness :
  createInvoice uuidShape phase1 host3 alice qbAnswer (host_uuid host1)
    approvedStore
  = (inl {| pr_feature := "QuickBooks invoice creation";
            pr_requiredPhase := 2;
            pr_currentPhase := 1 |}, approvedStore).
Proof.
  exact (proj1 (proj2 (createInvoice_refusals_write_nothing uuidShape phase1
                         host3 alice qbAnswer (host_uuid host1) approvedStore))
           eq_refl).
Defined.

(** ** The ready-to-invoice list *)

Lemma find_unique {A : Type} (key : A -> string) (l : list A) (x : A) :
  NoDup (map key l) -> In x l ->
  find (fun y => String.eqb (key y) (key x)) l = Some x.
Proof.
  induction l as [|a l IH]; intros Hnd Hin; [contradiction|].
  cbn [map] in Hnd. inversion Hnd as [|? ? Hnotin Hnd']; subst.
  cbn [find]. destruct Hin as [->|Hin].
  - now rewrite String.eqb_refl.
  - destruct (String.eqb_spec (key a) (key x)) as [Heq|_].
    + exfalso. apply Hnotin. rewrite Heq. now apply in_map.
    + now apply IH.
Qed.

(** X22. Every row of the ready-to-invoice list stands for a PENDING event
    and says it can be approved.  If ids are unique in the store, it
    can: [approveEvent] on the id of the row succeeds, the approved
    event has the key and the amount the row shows, and afterwards the
    id is gone from the ready-to-invoice list and is among the approved
    events. *)
Theorem ready_rows_can_be_approved
  (host : Host) (context : RequestContext) (notes : option string)
  (s : StorageData) :
  uniqueIds s ->
  exists rows,
    getReadyToInvoiceList s = (Ok rows, s)
    /\ List.length rows
       = List.length (filter (fun e => BillableEventStatus_eqb (ev_status e) EV_PENDING)
                        (billableEvents s))
    /\ forall row,
         In row rows ->
         rr_canApprove row = true
         /\ rr_status row = EV_PENDING
         /\ exists updated s',
              approveEvent host context (rr_id row) notes s = (Ok updated, s')
              /\ ev_status updated = EV_APPROVED
              /\ ev_id updated = rr_id row
              /\ ev_idempotencyKey updated = rr_idempotencyKey row
              /\ ev_amount updated = rr_amount row
              /\ (forall rows',
                    getReadyToInvoiceList s' = (Ok rows', s') ->
                    ~ In (rr_id row) (map rr_id rows'))
              /\ (forall approved,
                    getApprovedEvents s' = (Ok approved, s') ->
                    In (rr_id row) (map ev_id approved)).
Proof.
  intros Hids.
  eexists. split; [reflexivity|]. split; [now rewrite length_map|].
  intros row Hrow. apply in_map_iff in Hrow as [e [<- He]].
  apply filter_In in He as [Hin Hpending].
  cbn [readyRow rr_canApprove rr_status rr_id rr_idempotencyKey rr_amount].
  split; [exact Hpending|].
  apply BillableEventStatus_eqb_eq in Hpending.
  split; [exact Hpending|].
  pose proof (find_unique ev_id _ e Hids Hin) as Hfind.
  destruct (approveEvent_accepts host context (ev_id e) notes e s Hfind
              (or_introl Hpending)) as [s' [Hrun [Hstored _]]].
  pose proof (approveEvent_keepsLedger host context (ev_id e) notes s)
    as [[Hsame _] _].
  rewrite Hrun in Hsame. cbn [snd] in Hsame.
  eexists. exists s'. split; [exact Hrun|].
  repeat (split; [reflexivity|]).
  assert (Hids' : NoDup (map ev_id (billableEvents s'))).
  { rewrite Hsame. exact Hids. }
  split.
  - intros rows' Hlist Hgone. unfold getReadyToInvoiceList, bind, getPendingEvents,
      getEventsByStatus, storage_getEventsByStatus, ret in Hlist.
    injection Hlist as <-.
    rewrite map_map in Hgone. cbn [readyRow rr_id] in Hgone.
    apply in_map_iff in Hgone as [e' [Hid He']].
    apply filter_In in He' as [Hin' Hpending'].
    pose proof (find_unique ev_id _ e' Hids' Hin') as Hfind'.
    rewrite Hid, Hstored in Hfind'. injection Hfind' as <-.
    discriminate.
  - intros approved Hlist. unfold getApprovedEvents, getEventsByStatus,
      storage_getEventsByStatus in Hlist.
    injection Hlist as <-.
    apply in_map_iff. eexists. split; [|apply filter_In; split].
    2:{ apply find_some in Hstored. apply Hstored. }
    + reflexivity.
    + reflexivity.
Qed.

Lemma ready_rows_can_be_approved_witness :
  exists rows,
    getReadyToInvoiceList pendingStore = (Ok rows, pendingStore)
    /\ List.length rows = 1%nat.
Proof.
  assert (Hids : uniqueIds pendingStore).
  { unfold uniqueIds. repeat constructor. intros []. }
  destruct (ready_rows_can_be_approved host2 alice None pendingStore Hids)
    as [rows [Hrun [Hlen _]]].
  exists rows. split; [exact Hrun | exact Hlen].
Defined.

(** ** Saving and finding events *)

Lemma find_append {A : Type} (p : A -> bool) (l l' : list A) :
  find p (l ++ l')%list
  = match find p l with Some x => Some x | None => find p l' end.
Proof.
  induction l as [|a l IH]; cbn [app find]; [reflexivity|].
  destruct (p a); [reflexivity | exact IH].
Qed.

(** X23. An event saved under a key the store does not hold is returned as
    it is, goes to the end of the array, and is the one found under its
    key from then on; events found under other keys are found as
    before.  Under a key the store holds, [saveEvent] throws and writes
    nothing, so saving the same event twice fails the second time, and
    keys that were unique stay unique. *)
Theorem saved_event_is_found_by_its_key (event : BillableEvent)
  (s : StorageData) :
  (~ In (ev_idempotencyKey event) (map ev_idempotencyKey (billableEvents s)) ->
   exists s',
     storage_saveEvent event s = (Ok event, s')
     /\ billableEvents s' = (billableEvents s ++ [event])%list
     /\ storage_getEventByIdempotencyKey (ev_idempotencyKey event) s'
        = (Ok (Some event), s')
     /\ storage_idempotencyKeyExists (ev_idempotencyKey event) s' = (Ok true, s')
     /\ (forall key,
           key <> ev_idempotencyKey event ->
           fst (storage_getEventByIdempotencyKey key s')
           = fst (storage_getEventByIdempotencyKey key s))
     /\ isOk (fst (storage_saveEvent event s')) = false
     /\ snd (storage_saveEvent event s') = s')
  /\ (In (ev_idempotencyKey event) (map ev_idempotencyKey (billableEvents s)) ->
      storage_saveEvent event s
      = (Err (PlainError ("Duplicate entry: idempotency key "
                          ++ ev_idempotencyKey event ++ " already exists")), s))
  /\ (uniqueKeys s -> uniqueKeys (snd (storage_saveEvent event s))).
Proof.
  assert (Hdup : In (ev_idempotencyKey event) (map ev_idempotencyKey (billableEvents s)) ->
                 storage_saveEvent event s
                 = (Err (PlainError ("Duplicate entry: idempotency key "
                                     ++ ev_idempotencyKey event ++ " already exists")),
                    s)).
  { intros Hin. unfold storage_saveEvent, bind, storage_getEventByIdempotencyKey.
    destruct (find _ (billableEvents s)) as [x|] eqn:Hfind; [reflexivity|].
    exfalso. exact (find_none_not_in ev_idempotencyKey _ _ Hfind Hin). }
  assert (Hnew : ~ In (ev_idempotencyKey event)
                   (map ev_idempotencyKey (billableEvents s)) ->
                 storage_saveEvent event s
                 = (Ok event, setBillableEvents s (billableEvents s ++ [event])%list)).
  { intros Hnot. unfold storage_saveEvent, bind, storage_getEventByIdempotencyKey.
    destruct (find _ (billableEvents s)) as [x|] eqn:Hfind; [|reflexivity].
    exfalso. apply Hnot. apply find_some in Hfind as [Hin Heq].
    apply String.eqb_eq in Heq. rewrite <- Heq. now apply in_map. }
  split; [|split].
  - intros Hnot. eexists. split; [exact (Hnew Hnot)|].
    cbn [billableEvents setBillableEvents]. split; [reflexivity|].
    assert (Hfound : find (fun e => String.eqb (ev_idempotencyKey e)
                                      (ev_idempotencyKey event))
                       (billableEvents s ++ [event])%list = Some event).
    { rewrite find_append.
      destruct (find _ (billableEvents s)) as [x|] eqn:Hfind.
      - exfalso. apply Hnot. apply find_some in Hfind as [Hin Heq].
        apply String.eqb_eq in Heq. rewrite <- Heq. now apply in_map.
      - cbn [find]. now rewrite String.eqb_refl. }
    split.
    { unfold storage_getEventByIdempotencyKey.
      cbn [billableEvents setBillableEvents]. now rewrite Hfound. }
    split.
    { unfold storage_idempotencyKeyExists.
      cbn [billableEvents setBillableEvents].
      rewrite existsb_app. cbn [existsb]. rewrite String.eqb_refl.
      now rewrite orb_true_r. }
    split.
    { intros key Hkey. unfold storage_getEventByIdempotencyKey.
      cbn [fst billableEvents setBillableEvents]. rewrite find_append.
      destruct (find _ (billableEvents s)); [reflexivity|].
      cbn [find]. destruct (String.eqb_spec (ev_idempotencyKey event) key);
        [congruence | reflexivity]. }
    unfold storage_saveEvent, bind, storage_getEventByIdempotencyKey.
    cbn [billableEvents setBillableEvents]. rewrite Hfound. split; reflexivity.
  - exact Hdup.
  - intros Hu.
    destruct (in_dec string_dec (ev_idempotencyKey event)
                (map ev_idempotencyKey (billableEvents s))) as [Hin|Hnot].
    + now rewrite (Hdup Hin).
    + rewrite (Hnew Hnot). unfold uniqueKeys.
      cbn [snd billableEvents setBillableEvents]. rewrite map_app. cbn [map].
      now apply NoDup_snoc.
Qed.

Lemma saved_event_is_found_by_its_key_witness :
  Forall (fun event => isOk (fst (storage_saveEvent event pendingStore)) = false)
    (billableEvents pendingStore).
Proof.
  apply Forall_forall. intros event Hin.
  rewrite (proj1 (proj2 (saved_event_is_found_by_its_key event pendingStore))).
  - reflexivity.
  - now apply in_map.
Defined.

(** ** Fees and the base amount *)

Lemma round2_monotone (x y : Q) : x <= y -> round2 x <= round2 y.
Proof.
  intros Hxy. unfold round2, Math_round.
  apply Qmult_le_compat_r; [|discriminate].
  rewrite <- Zle_Qle. apply Qfloor_resp_le.
  apply Qplus_le_l. apply Qmult_le_compat_r; [exact Hxy | discriminate].
Qed.

Lemma applyCaps_monotone (feeRule : FeeRule) (x y : Q) :
  x <= y -> applyCaps feeRule x <= applyCaps feeRule y.
Proof.
  intros Hxy. unfold applyCaps.
  assert (Hlow : match fr_minimumFee feeRule with
                 | Some m => Qmax x m | None => x end
                 <= match fr_minimumFee feeRule with
                    | Some m => Qmax y m | None => y end).
  { destruct (fr_minimumFee feeRule) as [m|]; [|exact Hxy].
    now apply Q.max_le_compat_r. }
  destruct (fr_maximumFee feeRule) as [m|]; [|exact Hlow].
  now apply Q.min_le_compat_r.
Qed.

(** X24. Under a percentage rule with a rate that is not negative, a larger
    base amount never gives a smaller fee, caps and rounding included;
    the fee is computed for every base amount, zero too; and it is not
    negative when the base amount is not and the maximum fee, if one is
    set, is not. *)
Theorem percentage_fee_grows_with_the_base
  (policy : ClientPolicy) (feeType : string) (feeRule : FeeRule) (b1 b2 : Q) :
  find (fun r => String.eqb (fr_feeType r) feeType) (cp_feeRules policy)
  = Some feeRule ->
  fr_calculationType feeRule = PERCENTAGE ->
  0 <= fr_value feeRule ->
  b1 <= b2 ->
  exists r1 r2,
    calculateFee policy feeType (Some b1) = Some r1
    /\ calculateFee policy feeType (Some b2) = Some r2
    /\ fee_amount r1 <= fee_amount r2
    /\ (0 <= b1 ->
        (forall hi, fr_maximumFee feeRule = Some hi -> 0 <= hi) ->
        0 <= fee_amount r1)
    /\ calculateFee policy feeType None = None.
Proof.
  intros Hfind Hkind Hrate Hle.
  unfold calculateFee, rawFee. rewrite Hfind, Hkind.
  eexists. eexists. split; [reflexivity|]. split; [reflexivity|].
  cbn [fee_amount].
  assert (Hraw : forall x y, x <= y ->
             x * fr_value feeRule / 100 <= y * fr_value feeRule / 100).
  { intros x y Hxy. apply Qmult_le_compat_r; [|discriminate].
    now apply Qmult_le_compat_r. }
  split; [apply round2_monotone, applyCaps_monotone, Hraw, Hle|].
  split; [|reflexivity].
  intros Hb Hmax.
  apply Qle_trans with (round2 0); [vm_compute; discriminate|].
  apply round2_monotone.
  assert (H0 : 0 <= b1 * fr_value feeRule / 100).
  { apply Qle_shift_div_l; [reflexivity|]. rewrite Qmult_0_l.
    now apply Qmult_le_0_compat. }
  unfold applyCaps.
  assert (Hlow : 0 <= match fr_minimumFee feeRule with
                      | Some m => Qmax (b1 * fr_value feeRule / 100) m
                      | None => b1 * fr_value feeRule / 100
                      end).
  { destruct (fr_minimumFee feeRule) as [m|]; [|exact H0].
    apply Qle_trans with (b1 * fr_value feeRule / 100); [exact H0|].
    apply Q.le_max_l. }
  destruct (fr_maximumFee feeRule) as [m|] eqn:Hm; [|exact Hlow].
  apply Q.min_glb; [exact Hlow | now apply Hmax].
Qed.

Lemma percentage_fee_grows_with_the_base_witness :
  exists r1 r2,
    calculateFee acmePolicy "PLACEMENT_FEE" (Some 4000) = Some r1
    /\ calculateFee acmePolicy "PLACEMENT_FEE" (Some 5000) = Some r2
    /\ fee_amount r1 <= fee_amount r2.
Proof.
  destruct (percentage_fee_grows_with_the_base acmePolicy "PLACEMENT_FEE"
              percentageRule 4000 5000 eq_refl eq_refl)
    as [r1 [r2 [H1 [H2 [Hle _]]]]].
  - discriminate.
  - discriminate.
  - exists r1, r2. repeat split; assumption.
Defined.

(** ** Hold and approval in sequence *)

Lemma holdEvent_accepts (host : Host) (context : RequestContext)
  (id reason : string) (event : BillableEvent) (s : StorageData) :
  find (fun e => String.eqb (ev_id e) id) (billableEvents s) = Some event ->
  ev_status event = EV_PENDING \/ ev_status event = EV_APPROVED ->
  let updated :=
    setHold (updateEventStatus host event EV_HOLD (userId context) (Some reason))
      reason (host_now host) (userId context) in
  exists s',
    holdEvent host context id reason s = (Ok updated, s')
    /\ find (fun e => String.eqb (ev_id e) id) (billableEvents s')
       = Some (mergeEvent host updated)
    /\ List.length (auditLogs s') = S (List.length (auditLogs s)).
Proof.
  intros Hfind Hstatus updated.
  destruct (storage_updateEvent_frame host id updated event s Hfind eq_refl eq_refl)
    as [s' [Hup [Hf [_ [Haudit _]]]]].
  eexists. unfold holdEvent, bind.
  rewrite (getEventById_found _ _ _ Hfind).
  assert (Hgate : negb (BillableEventStatus_eqb (ev_status event) EV_PENDING)
                  && negb (BillableEventStatus_eqb (ev_status event) EV_APPROVED)
                  = false).
  { destruct Hstatus as [-> | ->]; reflexivity. }
  rewrite Hgate. fold updated. rewrite Hup.
  unfold logEventHold, auditService_log, storage_saveAuditLog, ret.
  split; [reflexivity|]. cbn [billableEvents auditLogs setAuditLogs].
  split; [exact Hf|]. rewrite length_app, Haudit. cbn [List.length]. lia.
Qed.

(** X25. An event put on hold can be approved again, and cannot be put on
    hold a second time before that.  After the approval the event is
    APPROVED with two more history entries, HOLD and then APPROVED,
    and it still carries the reason, the time and the author of the
    hold: approving does not clear them. *)
Theorem held_event_can_be_approved_again
  (host host' : Host) (context context' : RequestContext) (id reason : string)
  (notes : option string) (event : BillableEvent) (s : StorageData) :
  find (fun e => String.eqb (ev_id e) id) (billableEvents s) = Some event ->
  ev_status event = EV_PENDING \/ ev_status event = EV_APPROVED ->
  exists held s1 approved s2 stored,
    holdEvent host context id reason s = (Ok held, s1)
    /\ isOk (fst (holdEvent host' context' id reason s1)) = false
    /\ approveEvent host' context' id notes s1 = (Ok approved, s2)
    /\ find (fun e => String.eqb (ev_id e) id) (billableEvents s2) = Some stored
    /\ ev_status stored = EV_APPROVED
    /\ ev_holdReason stored = Some reason
    /\ ev_holdAt stored = Some (host_now host)
    /\ ev_holdBy stored = Some (userId context)
    /\ ev_approvedAt stored = Some (host_now host')
    /\ ev_approvedBy stored = Some (userId context')
    /\ ev_statusHistory stored
       = (ev_statusHistory event
          ++ [ {| se_status := EV_HOLD;
                  se_timestamp := host_now host;
                  se_userId := userId context;
                  se_reason := Some reason |};
               {| se_status := EV_APPROVED;
                  se_timestamp := host_now host';
                  se_userId := userId context';
                  se_reason := notes |} ])%list
    /\ ev_amount stored = ev_amount event
    /\ ev_idempotencyKey stored = ev_idempotencyKey event.
Proof.
  intros Hfind Hstatus.
  destruct (holdEvent_accepts host context id reason event s Hfind Hstatus)
    as [s1 [Hhold [Hheld _]]].
  set (held := mergeEvent host
                 (setHold (updateEventStatus host event EV_HOLD (userId context)
                             (Some reason))
                    reason (host_now host) (userId context))) in *.
  assert (Hst : ev_status held = EV_HOLD) by reflexivity.
  destruct (approveEvent_accepts host' context' id notes held s1 Hheld
              (or_intror Hst)) as [s2 [Happrove [Hstored _]]].
  eexists. exists s1. eexists. exists s2. eexists.
  split; [exact Hhold|]. split.
  { rewrite (holdEvent_rejects host' context' id reason held s1 Hheld).
    - reflexivity.
    - rewrite Hst. discriminate.
    - rewrite Hst. discriminate. }
  split; [exact Happrove|]. split; [exact Hstored|].
  cbn [mergeEvent setApproval setHold updateEventStatus held
         ev_status ev_holdReason ev_holdAt ev_holdBy ev_approvedAt ev_approvedBy
         ev_statusHistory ev_amount ev_idempotencyKey].
  repeat (split; [reflexivity|]).
  split; [now rewrite <- app_assoc|]. split; reflexivity.
Qed.

Lemma held_event_can_be_approved_again_witness :
  exists held s1 approved s2,
    holdEvent host2 alice (host_uuid host1) "salary under review" pendingStore
    = (Ok held, s1)
    /\ approveEvent host3 alice (host_uuid host1) None s1 = (Ok approved, s2)
    /\ map ev_holdReason (billableEvents s2) = [Some "salary under review"].
Proof.
  destruct (find (fun e => String.eqb (ev_id e) (host_uuid host1))
              (billableEvents pendingStore)) as [event|] eqn:Hfind;
    [|vm_compute in Hfind; discriminate].
  assert (Hevent := Hfind). vm_compute in Hevent. injection Hevent as Hevent.
  destruct (held_event_can_be_approved_again host2 host3 alice alice
              (host_uuid host1) "salary under review" None event pendingStore
              Hfind)
    as [held [s1 [approved [s2 [stored [Hhold [_ [Happrove _]]]]]]]].
  - left. now rewrite <- Hevent.
  - exists held, s1, approved, s2. split; [exact Hhold|].
    split; [exact Happrove|].
    vm_compute in Hhold. injection Hhold as _ <-.
    vm_compute in Happrove. injection Happrove as _ <-. reflexivity.
Defined.

(** ** From a placement to a paid invoice *)

Lemma approveEvent_accepts_frame (host : Host) (context : RequestContext)
  (id : string) (notes : option string) (event : BillableEvent)
  (s : StorageData) :
  find (fun e => String.eqb (ev_id e) id) (billableEvents s) = Some event ->
  ev_status event = EV_PENDING \/ ev_status event = EV_HOLD ->
  let updated :=
    setApproval (updateEventStatus host event EV_APPROVED (userId context) notes)
      (host_now host) (userId context) notes in
  exists s',
    approveEvent host context id notes s = (Ok updated, s')
    /\ find (fun e => String.eqb (ev_id e) id) (billableEvents s')
       = Some (mergeEvent host updated)
    /\ invoiceLinks s' = invoiceLinks s
    /\ List.length (auditLogs s') = S (List.length (auditLogs s)).
Proof.
  intros Hfind Hstatus updated.
  destruct (storage_updateEvent_frame host id updated event s Hfind eq_refl eq_refl)
    as [s' [Hup [Hf [[_ [_ [_ Hlinks]]] [Haudit _]]]]].
  eexists. unfold approveEvent, bind.
  rewrite (getEventById_found _ _ _ Hfind).
  assert (Hgate : negb (BillableEventStatus_eqb (ev_status event) EV_PENDING)
                  && negb (BillableEventStatus_eqb (ev_status event) EV_HOLD)
                  = false).
  { destruct Hstatus as [-> | ->]; reflexivity. }
  rewrite Hgate. fold updated. rewrite Hup.
  unfold logEventApprove, auditService_log, storage_saveAuditLog, ret.
  split; [reflexivity|].
  cbn [billableEvents invoiceLinks auditLogs setAuditLogs].
  split; [exact Hf|]. split; [exact Hlinks|].
  rewrite length_app, Haudit. cbn [List.length]. lia.
Qed.

Lemma recordPaymentFromQb_paid_frame (host : Host) (context : RequestContext)
  (id : string) (payment : PaymentInput) (link : InvoiceLink)
  (event : BillableEvent) (s : StorageData) :
  find (fun l => String.eqb (il_id l) id) (invoiceLinks s) = Some link ->
  find (fun e => String.eqb (ev_id e) (il_billableEventId link))
    (billableEvents s) = Some event ->
  let updated := recordPayment host link (paymentRecordOf host payment) in
  il_qbStatus updated = QB_PAID ->
  exists s',
    recordPaymentFromQb host context id payment s = (Ok updated, s')
    /\ find (fun l => String.eqb (il_id l) id) (invoiceLinks s')
       = Some (mergeLink host updated)
    /\ find (fun e => String.eqb (ev_id e) (il_billableEventId link))
         (billableEvents s')
       = Some (mergeEvent host
                 (updateEventStatus host event EV_PAID (userId context)
                    (Some "Payment received")))
    /\ List.length (auditLogs s') = S (List.length (auditLogs s)).
Proof.
  intros Hfind Hevent updated Hstatus.
  destruct (storage_updateInvoiceLink_frame host id updated link s Hfind)
    as [s1 [Hup [Hf [_ [He [_ Ha]]]]]].
  { unfold updated. rewrite (proj1 (recordPayment_id _ _ _)).
    now apply (find_eqb_id il_id id _ _ Hfind). }
  rewrite <- He in Hevent.
  destruct (markAsPaid_found host context (il_billableEventId link) event s1 Hevent)
    as [s2 [Hpaid [Hstored [_ [_ [Hlinks Haudit]]]]]].
  eexists. unfold recordPaymentFromQb, bind.
  rewrite (getInvoiceLinkById_found _ _ _ Hfind). fold updated. rewrite Hup.
  rewrite Hstatus. cbn [QBInvoiceStatus_eqb].
  assert (Hev : il_billableEventId updated = il_billableEventId link).
  { unfold updated. apply recordPayment_id. }
  rewrite Hev, Hpaid.
  unfold ret, logPaymentRecord, auditService_log, storage_saveAuditLog.
  split; [reflexivity|]. cbn [invoiceLinks billableEvents auditLogs setAuditLogs].
  split; [now rewrite Hlinks|]. split; [exact Hstored|].
  rewrite length_app, Haudit, Ha. cbn [List.length]. lia.
Qed.

(** X26. The whole path of a placement.  Once [createEvent] has succeeded
    under a UUID and a link id that the store did not use before, the
    event can be approved, the approved event can be invoiced, and a
    payment that covers the amount settles the invoice: the link is
    PAID with nothing left to pay, the event is PAID, its history
    reads PENDING, APPROVED, INVOICED, PAID, and the audit trail has
    four more entries. *)
Theorem placement_to_paid {ext : External} (zod_uuid : string -> bool)
  (config : AppConfig) (atCreate atApprove atInvoice atPayment : Host)
  (context : RequestContext) (input : CreateEventInput)
  (notes : option string) (qbInvoice : QbInvoice) (payment : PaymentInput)
  (s s1 : StorageData) (e : BillableEvent) :
  createEvent atCreate context input s = (Ok e, s1) ->
  find (fun x => String.eqb (ev_id x) (host_uuid atCreate)) (billableEvents s)
  = None ->
  find (fun l => String.eqb (il_billableEventId l) (host_uuid atCreate))
    (invoiceLinks s) = None ->
  find (fun l => String.eqb (il_id l) (host_uuid atInvoice)) (invoiceLinks s)
  = None ->
  zod_uuid (host_uuid atCreate) = true ->
  cfg_enableQbWrite config = true ->
  ev_amount e <= pi_amount payment ->
  exists approved s2 link s3 paid s4 stored,
    approveEvent atApprove context (ev_id e) notes s1 = (Ok approved, s2)
    /\ createInvoice zod_uuid config atInvoice context qbInvoice (ev_id e) s2
       = (inr (Ok link), s3)
    /\ il_amount link = ev_amount e
    /\ il_currency link = ev_currency e
    /\ il_idempotencyKey link = ev_idempotencyKey e
    /\ recordPaymentFromQb atPayment context (il_id link) payment s3
       = (Ok paid, s4)
    /\ il_qbStatus paid = QB_PAID
    /\ il_balance paid == 0
    /\ il_paidInFullDate paid = Some (pi_paymentDate payment)
    /\ find (fun x => String.eqb (ev_id x) (ev_id e)) (billableEvents s4)
       = Some stored
    /\ ev_status stored = EV_PAID
    /\ map se_status (ev_statusHistory stored)
       = [EV_PENDING; EV_APPROVED; EV_INVOICED; EV_PAID]
    /\ ev_amount stored = ev_amount e
    /\ ev_idempotencyKey stored = ev_idempotencyKey e
    /\ List.length (auditLogs s4) = (List.length (auditLogs s) + 4)%nat.
Proof.
  intros Hcreate Hfresh Hnolink Hfreshlink Huuid Hwrite Hcovers.
  destruct (createEvent_ok_contents atCreate context input s s1 e Hcreate)
    as [policy [_ [_ [_ [_ [_ [_ [Hid [Hst [Hh [_ [_ [Hcur Haudit1]]]]]]]]]]]]].
  pose proof (createEvent_outcome atCreate context input s) as Hout.
  rewrite Hcreate in Hout.
  destruct Hout as [policy' [_ [_ [_ [Hev1 [_ Hlinks1]]]]]].
  assert (Hfind1 : find (fun x => String.eqb (ev_id x) (ev_id e)) (billableEvents s1)
                   = Some e).
  { rewrite Hev1, find_append, Hid, Hfresh. cbn [find].
    now rewrite Hid, String.eqb_refl. }
  destruct (approveEvent_accepts_frame atApprove context (ev_id e) notes e s1 Hfind1
              (or_introl Hst)) as [s2 [Happrove [Hfind2 [Hlinks2 Haudit2]]]].
  set (approved := setApproval
                     (updateEventStatus atApprove e EV_APPROVED (userId context) notes)
                     (host_now atApprove) (userId context) notes) in *.
  assert (Hnolink2 : find (fun l => String.eqb (il_billableEventId l) (ev_id e))
                       (invoiceLinks s2) = None).
  { now rewrite Hlinks2, Hlinks1, Hid. }
  assert (Huuid2 : zod_uuid (ev_id (mergeEvent atApprove approved)) = true).
  { cbn [mergeEvent approved setApproval updateEventStatus ev_id].
    now rewrite Hid. }
  destruct (createInvoiceAllowed_accepts zod_uuid atInvoice context qbInvoice (ev_id e)
              (mergeEvent atApprove approved) s2 Hfind2 eq_refl Hnolink2 Huuid2 Hcur)
    as [s3 [Hinvoice [Hlinks3 [Hfind3 [_ [_ [_ Haudit3]]]]]]].
  set (link := createInvoiceLink atInvoice
                 (newLinkOf context (mergeEvent atApprove approved) qbInvoice)) in *.
  assert (Hlink3 : find (fun l => String.eqb (il_id l) (il_id link)) (invoiceLinks s3)
                   = Some link).
  { rewrite Hlinks3, find_append, Hlinks2, Hlinks1.
    change (il_id link) with (host_uuid atInvoice). rewrite Hfreshlink.
    cbn [find]. change (il_id link) with (host_uuid atInvoice).
    now rewrite String.eqb_refl. }
  set (invoiced := updateEventStatus atInvoice (mergeEvent atApprove approved) EV_INVOICED
                     (userId context) (Some "Invoice created in QuickBooks")) in *.
  assert (Hevent3 : find (fun x => String.eqb (ev_id x) (il_billableEventId link))
                      (billableEvents s3) = Some (mergeEvent atInvoice invoiced)).
  { exact Hfind3. }
  assert (Hle : il_amount link - (il_totalPaid link + pi_amount payment) <= 0).
  { change (il_amount link) with (ev_amount e).
    change (il_totalPaid link) with 0.
    apply Qle_minus_iff in Hcovers. apply Qle_minus_iff.
    setoid_replace (0 + - (ev_amount e - (0 + pi_amount payment)))
      with (pi_amount payment + - ev_amount e) by ring.
    exact Hcovers. }
  assert (Hpaid : il_qbStatus (recordPayment atPayment link (paymentRecordOf atPayment payment))
                  = QB_PAID).
  { rewrite recordPayment_status. cbn [paymentRecordOf pay_amount].
    now rewrite (proj2 (Qle_bool_iff _ _) Hle). }
  destruct (recordPaymentFromQb_paid_frame atPayment context (il_id link) payment link
              (mergeEvent atInvoice invoiced) s3 Hlink3 Hevent3 Hpaid)
    as [s4 [Hpay [_ [Hfind4 Haudit4]]]].
  exists approved, s2, link, s3.
  eexists. exists s4. eexists.
  split; [exact Happrove|]. split.
  { unfold createInvoice, checkPhaseForWrite. now rewrite Hwrite, Hinvoice. }
  repeat (split; [reflexivity|]).
  split; [exact Hpay|]. split; [exact Hpaid|]. split.
  { rewrite recordPayment_balance. cbn [paymentRecordOf pay_amount].
    now apply Q.max_l. }
  split.
  { rewrite recordPayment_paidInFullDate. cbn [paymentRecordOf pay_amount].
    now rewrite (proj2 (Qle_bool_iff _ _) Hle). }
  split; [exact Hfind4|]. split; [reflexivity|]. split.
  { cbn [mergeEvent updateEventStatus setApproval invoiced approved
           ev_statusHistory].
    rewrite Hh, !map_app. reflexivity. }
  split; [reflexivity|]. split; [reflexivity|].
  rewrite Haudit4, Haudit3, length_app, Haudit2, Haudit1, length_app.
  cbn [List.length]. lia.
Qed.

Lemma placement_to_paid_witness :
  exists e s1 approved s2 link s3 paid s4,
    createEvent host1 alice placement acmeStore = (Ok e, s1)
    /\ approveEvent host2 alice (ev_id e) None s1 = (Ok approved, s2)
    /\ createInvoice uuidShape phase2 host3 alice qbAnswer (ev_id e) s2
       = (inr (Ok link), s3)
    /\ recordPaymentFromQb host4 alice (il_id link)
         {| pi_qbPaymentId := "PAY-7"; pi_paymentDate := "2024-02-01";
            pi_amount := 1000; pi_currency := "USD" |} s3 = (Ok paid, s4)
    /\ il_qbStatus paid = QB_PAID.
Proof.
  destruct (createEvent host1 alice placement acmeStore) as [[e|err] s1] eqn:Hrun;
    [|vm_compute in Hrun; discriminate].
  assert (Hamount : ev_amount e <= 1000).
  { assert (Hcopy := Hrun). vm_compute in Hcopy. injection Hcopy as <- _.
    vm_compute. discriminate. }
  destruct (placement_to_paid uuidShape phase2 host1 host2 host3 host4 alice
              placement None
              qbAnswer
              {| pi_qbPaymentId := "PAY-7"; pi_paymentDate := "2024-02-01";
                 pi_amount := 1000; pi_currency := "USD" |}
              acmeStore s1 e Hrun eq_refl eq_refl eq_refl eq_refl eq_refl Hamount)
    as [approved [s2 [link [s3 [paid [s4 [stored H]]]]]]].
  exists e, s1, approved, s2, link, s3, paid, s4.
  split; [reflexivity|]. repeat (split; [apply H|]). apply H.
Defined.
